(** * Cluster consolidation and cost reconciliation: a shallow embedding

    The development embeds [lib/clusters.py] and the cost-ledger and retry
    code of [lib/group_site_manager.py].  Python objects live in an explicit
    store: sets, lists and [Cluster] instances are addressed by references,
    so that two names for one object see each other's mutations. *)

From Stdlib Require Import ZArith Floats Ascii String.
From stdpp Require Import gmap strings list fin_maps.

Local Open Scope string_scope.
Local Open Scope nat_scope.
Local Open Scope list_scope.

(** ** Python values used by the code *)

Module Py.

(** [str.isspace] on characters below 256. *)
Definition is_space (c : ascii) : bool :=
  let n := nat_of_ascii c in
  ((9 <=? n) && (n <=? 13)) || ((28 <=? n) && (n <=? 32))
  || (n =? 133) || (n =? 160).

Fixpoint lstrip (s : string) : string :=
  match s with
  | EmptyString => EmptyString
  | String c s' => if is_space c then lstrip s' else s
  end.

Fixpoint rstrip (s : string) : string :=
  match s with
  | EmptyString => EmptyString
  | String c s' =>
      match rstrip s' with
      | EmptyString => if is_space c then EmptyString else String c EmptyString
      | r => String c r
      end
  end.

(** [s.strip()] *)
Definition strip (s : string) : string := rstrip (lstrip s).

(** [s.split(sep)] for a one-character separator: never the empty list. *)
Fixpoint split (sep : ascii) (s : string) : list string :=
  match s with
  | EmptyString => [EmptyString]
  | String c s' =>
      if Ascii.eqb c sep then EmptyString :: split sep s'
      else match split sep s' with
           | [] => [String c EmptyString]
           | w :: ws => String c w :: ws
           end
  end.

Definition comma : ascii := Ascii.ascii_of_nat 44.

(** [sep.join(l)] *)
Fixpoint join (sep : string) (l : list string) : string :=
  match l with
  | [] => EmptyString
  | [x] => x
  | x :: rest => x +:+ sep +:+ join sep rest
  end.

(** [max(a, b)] on strings: the first argument unless the second is
    strictly greater (code-point order). *)
Definition str_max (a b : string) : string :=
  if String.ltb a b then b else a.

(** Truth value of a string: non-empty. *)
Definition str_truthy (s : string) : bool :=
  match s with EmptyString => false | _ => true end.

(** Python numbers: [int] and [float]. *)
Inductive number :=
  | NInt (z : Z)
  | NFloat (f : float).

(** [float(z)] for an int: rounding to nearest even.  (An int beyond the
    float range makes Python raise [OverflowError]; here it rounds to an
    infinity.) *)
Definition float_of_int (z : Z) : float :=
  SF2Prim (binary_normalize prec emax z 0 false).

Definition to_float (n : number) : float :=
  match n with NInt z => float_of_int z | NFloat f => f end.

(** [a + b]: int + int stays an int, anything else is a float sum. *)
Definition num_add (a b : number) : number :=
  match a, b with
  | NInt x, NInt y => NInt (x + y)
  | _, _ => NFloat (to_float a + to_float b)%float
  end.

(** Truth value of a number: non-zero. *)
Definition num_truthy (n : number) : bool :=
  match n with
  | NInt z => negb (z =? 0)%Z
  | NFloat f => negb (PrimFloat.eqb f 0%float)
  end.

(** [x in l] and [l.index(x)] *)
Definition contains (l : list string) (x : string) : bool :=
  bool_decide (x ∈ l).

Fixpoint index (l : list string) (x : string) : option nat :=
  match l with
  | [] => None
  | y :: l' => if decide (y = x) then Some 0 else S <$> index l' x
  end.

(** [s.upper()].  Characters are 8-bit; the two whose capitals lie beyond
    (y with diaeresis, micro sign) are left as they are. *)
Definition upper_char (c : ascii) : string :=
  let n := nat_of_ascii c in
  if (97 <=? n) && (n <=? 122) then String (ascii_of_nat (n - 32)) EmptyString
  else if (224 <=? n) && (n <=? 254) && negb (n =? 247)
       then String (ascii_of_nat (n - 32)) EmptyString
  else if n =? 223 then "SS"
  else String c EmptyString.

Fixpoint upper (s : string) : string :=
  match s with
  | EmptyString => EmptyString
  | String c s' => upper_char c +:+ upper s'
  end.

Fixpoint filter_chars (keep : ascii → bool) (s : string) : string :=
  match s with
  | EmptyString => EmptyString
  | String c s' =>
      if keep c then String c (filter_chars keep s') else filter_chars keep s'
  end.

(** [s.replace(c, '')] for a one-character [c]. *)
Definition remove_char (c : ascii) (s : string) : string :=
  filter_chars (λ x, negb (Ascii.eqb x c)) s.

(** [c in s] for a one-character [c]. *)
Fixpoint has_char (c : ascii) (s : string) : bool :=
  match s with
  | EmptyString => false
  | String x s' => Ascii.eqb x c || has_char c s'
  end.

(** [s.startswith(p)] *)
Definition startswith (p s : string) : bool := String.prefix p s.

Definition dollar : ascii := ascii_of_nat 36.
Definition dash : ascii := ascii_of_nat 45.

(** The exceptions the embedded code can raise by itself. *)
Inductive pyerror := IndexError | ValueError | KeyError | OtherError (msg : string).

(** [x[i]] on a list. *)
Definition item (l : list string) (i : nat) : pyerror + string :=
  match l !! i with
  | Some s => inr s
  | None => inl IndexError
  end.

(** [[x.strip() for x in s.split(',')]] *)
Definition split_strip (s : string) : list string := strip <$> split comma s.

(** Iteration order of a Python set: some enumeration of its elements,
    each exactly once.  The code must not depend on which. *)
Class SetOrder := {
  set_iter : gset string → list string;
  set_iter_elem_of : ∀ X x, x ∈ set_iter X ↔ x ∈ X;
  set_iter_NoDup : ∀ X, NoDup (set_iter X)
}.

(** One such order, used to run the code on examples. *)
#[export] Instance elements_order : SetOrder :=
  {| set_iter := elements;
     set_iter_elem_of := λ X x, elem_of_elements X x;
     set_iter_NoDup := NoDup_elements |}.

End Py.

Export Py.

(** ** The object store *)

Module Store.

Definition ref := nat.

(** [to_email] is a string, except that [Cluster.__init__] passes a list
    there (its tenth positional argument). *)
Inductive email_field :=
  | EmailStr (s : string)
  | EmailList (l : ref).

(** [manual_override] is [False]/[True], or the sheet cell as read. *)
Inductive flag :=
  | FlagBool (b : bool)
  | FlagCell (s : string).

Definition flag_truthy (f : flag) : bool :=
  match f with FlagBool b => b | FlagCell s => str_truthy s end.

(** An instance of [class Cluster]: container attributes hold references. *)
Record Cluster := mkCluster {
  orders : ref;
  trackings : ref;
  group : string;
  expected_cost : number;
  tracked_cost : number;
  last_ship_date : string;
  purchase_orders : ref;
  email_ids : ref;
  adjustment : number;
  to_email : email_field;
  notes : string;
  manual_override : flag;
  non_reimbursed_trackings : ref;
  cancelled_items : ref;
  last_delivery_date : string
}.

Record heap := mkHeap {
  sets : gmap ref (gset string);
  lists : gmap ref (list string);
  objs : gmap ref Cluster;
  next : ref
}.

(** The default-argument objects of [Cluster._initiate], created once when
    the class body is evaluated: [purchase_orders=set()], [email_ids=set()],
    [non_reimbursed_trackings=set()], [cancelled_items=[]]. *)
Definition default_purchase_orders : ref := 0.
Definition default_email_ids : ref := 1.
Definition default_non_reimbursed_trackings : ref := 2.
Definition default_cancelled_items : ref := 3.

Definition module_heap : heap :=
  {| sets := <[default_non_reimbursed_trackings := ∅]>
               (<[default_email_ids := ∅]>
                  (<[default_purchase_orders := ∅]> ∅));
     lists := <[default_cancelled_items := []]> ∅;
     objs := ∅;
     next := 4 |}.

(** State passing over the store. *)
Definition M (A : Type) : Type := heap → A * heap.

Definition ret {A} (a : A) : M A := λ h, (a, h).
Definition bind {A B} (m : M A) (k : A → M B) : M B :=
  λ h, let '(a, h') := m h in k a h'.

Definition get_set (r : ref) (h : heap) : gset string := default ∅ (sets h !! r).
Definition get_list (r : ref) (h : heap) : list string := default [] (lists h !! r).

Definition put_set (r : ref) (X : gset string) (h : heap) : heap :=
  {| sets := <[r := X]> (sets h); lists := lists h; objs := objs h; next := next h |}.
Definition put_list (r : ref) (l : list string) (h : heap) : heap :=
  {| sets := sets h; lists := <[r := l]> (lists h); objs := objs h; next := next h |}.
Definition put_obj (r : ref) (c : Cluster) (h : heap) : heap :=
  {| sets := sets h; lists := lists h; objs := <[r := c]> (objs h); next := next h |}.

(** [set()] *)
Definition new_set (X : gset string) : M ref :=
  λ h, (next h, {| sets := <[next h := X]> (sets h); lists := lists h;
                   objs := objs h; next := S (next h) |}).
(** [[]] *)
Definition new_list (l : list string) : M ref :=
  λ h, (next h, {| sets := sets h; lists := <[next h := l]> (lists h);
                   objs := objs h; next := S (next h) |}).

(** An object whose attributes are not set yet. *)
Definition blank : Cluster :=
  mkCluster 0 0 "" (NInt 0) (NInt 0) "" 0 0 (NInt 0) (EmailStr "") ""
            (FlagBool false) 0 0 "".

Definition new_obj : M ref :=
  λ h, (next h, {| sets := sets h; lists := lists h;
                   objs := <[next h := blank]> (objs h); next := S (next h) |}).

Definition get_obj (r : ref) (h : heap) : Cluster := default blank (objs h !! r).

(** [a.update(b)], [a.add(x)], [a.extend(b)] *)
Definition set_update (a b : ref) : M unit :=
  λ h, (tt, put_set a (get_set a h ∪ get_set b h) h).
Definition set_update_list (a : ref) (l : list string) : M unit :=
  λ h, (tt, put_set a (get_set a h ∪ list_to_set l) h).
Definition set_add (a : ref) (x : string) : M unit :=
  λ h, (tt, put_set a (get_set a h ∪ {[x]}) h).
Definition list_extend (a b : ref) : M unit :=
  λ h, (tt, put_list a (get_list a h ++ get_list b h) h).

(** [self.f = v] and [self.f] on a scalar attribute. *)
Definition modify (r : ref) (f : Cluster → Cluster) : M unit :=
  λ h, (tt, put_obj r (f (get_obj r h)) h).
Definition attr {A} (r : ref) (f : Cluster → A) : M A :=
  λ h, (f (get_obj r h), h).

(** State passing with exceptions. *)
Definition ME (A : Type) : Type := heap → pyerror + (A * heap).

Definition bindE {A B} (m : ME A) (k : A → ME B) : ME B :=
  λ h, match m h with
       | inl e => inl e
       | inr (a, h') => k a h'
       end.
Definition lift {A} (m : M A) : ME A := λ h, inr (m h).
Definition value {A} (r : pyerror + A) : ME A :=
  λ h, match r with
       | inl e => inl e
       | inr a => inr (a, h)
       end.

End Store.

Export Store.

Notation "'let*' x ':=' m 'in' k" := (bind m (λ x, k))
  (at level 10, x name, m at level 100, k at level 200, only parsing).
Notation "'do' m 'then' k" := (bind m (λ _, k))
  (at level 10, m at level 100, k at level 200, only parsing).

Notation "'try*' x ':=' m 'in' k" := (bindE m (λ x, k))
  (at level 10, x name, m at level 100, k at level 200, only parsing).

(** [lib/tracking.py] *)
Module tracking.

(** Modelled from the spec: the [Tracking] record of [lib/tracking.py], of
    which only the uses in [update_clusters] are among the sources.  The
    dates are taken in their [str(...)] form, [order_ids] as the sequence
    that [for order in tracking.order_ids] walks. *)
Record Tracking := mkTracking {
  tracking_number : string;
  group : string;
  order_ids : list string;
  ship_date : string;
  delivery_date : string;
  to_email : string
}.

End tracking.

Abbreviation Tracking := tracking.Tracking.

(** ** [lib/clusters.py] *)

Module clusters.

Definition set_group (v : string) (c : Cluster) : Cluster :=
  mkCluster (orders c) (trackings c) v (expected_cost c) (tracked_cost c)
    (last_ship_date c) (purchase_orders c) (email_ids c) (adjustment c)
    (to_email c) (notes c) (manual_override c) (non_reimbursed_trackings c)
    (cancelled_items c) (last_delivery_date c).
Definition set_expected_cost (v : number) (c : Cluster) : Cluster :=
  mkCluster (orders c) (trackings c) (group c) v (tracked_cost c)
    (last_ship_date c) (purchase_orders c) (email_ids c) (adjustment c)
    (to_email c) (notes c) (manual_override c) (non_reimbursed_trackings c)
    (cancelled_items c) (last_delivery_date c).
Definition set_tracked_cost (v : number) (c : Cluster) : Cluster :=
  mkCluster (orders c) (trackings c) (group c) (expected_cost c) v
    (last_ship_date c) (purchase_orders c) (email_ids c) (adjustment c)
    (to_email c) (notes c) (manual_override c) (non_reimbursed_trackings c)
    (cancelled_items c) (last_delivery_date c).
Definition set_last_ship_date (v : string) (c : Cluster) : Cluster :=
  mkCluster (orders c) (trackings c) (group c) (expected_cost c) (tracked_cost c)
    v (purchase_orders c) (email_ids c) (adjustment c)
    (to_email c) (notes c) (manual_override c) (non_reimbursed_trackings c)
    (cancelled_items c) (last_delivery_date c).
Definition set_adjustment (v : number) (c : Cluster) : Cluster :=
  mkCluster (orders c) (trackings c) (group c) (expected_cost c) (tracked_cost c)
    (last_ship_date c) (purchase_orders c) (email_ids c) v
    (to_email c) (notes c) (manual_override c) (non_reimbursed_trackings c)
    (cancelled_items c) (last_delivery_date c).
Definition set_to_email (v : email_field) (c : Cluster) : Cluster :=
  mkCluster (orders c) (trackings c) (group c) (expected_cost c) (tracked_cost c)
    (last_ship_date c) (purchase_orders c) (email_ids c) (adjustment c)
    v (notes c) (manual_override c) (non_reimbursed_trackings c)
    (cancelled_items c) (last_delivery_date c).
Definition set_notes (v : string) (c : Cluster) : Cluster :=
  mkCluster (orders c) (trackings c) (group c) (expected_cost c) (tracked_cost c)
    (last_ship_date c) (purchase_orders c) (email_ids c) (adjustment c)
    (to_email c) v (manual_override c) (non_reimbursed_trackings c)
    (cancelled_items c) (last_delivery_date c).
Definition set_manual_override (v : flag) (c : Cluster) : Cluster :=
  mkCluster (orders c) (trackings c) (group c) (expected_cost c) (tracked_cost c)
    (last_ship_date c) (purchase_orders c) (email_ids c) (adjustment c)
    (to_email c) (notes c) v (non_reimbursed_trackings c)
    (cancelled_items c) (last_delivery_date c).
Definition set_last_delivery_date (v : string) (c : Cluster) : Cluster :=
  mkCluster (orders c) (trackings c) (group c) (expected_cost c) (tracked_cost c)
    (last_ship_date c) (purchase_orders c) (email_ids c) (adjustment c)
    (to_email c) (notes c) (manual_override c) (non_reimbursed_trackings c)
    (cancelled_items c) v.

(** [Cluster._initiate]: every attribute is assigned from the arguments. *)
Definition _initiate (self : ref) (orders trackings : ref) (group : string)
    (expected_cost tracked_cost : number) (last_ship_date : string)
    (purchase_orders email_ids : ref) (adjustment : number)
    (to_email : email_field) (notes : string) (manual_override : flag)
    (non_reimbursed_trackings cancelled_items : ref)
    (last_delivery_date : string) : M unit :=
  λ h, (tt, put_obj self
              (mkCluster orders trackings group expected_cost tracked_cost
                 last_ship_date purchase_orders email_ids adjustment to_email
                 notes manual_override non_reimbursed_trackings cancelled_items
                 last_delivery_date) h).

(** [Cluster(group)]: [__init__] calls
    [_initiate(set(), set(), group, 0, 0, '0', set(), set(), 0.0, [])].
    These are ten positional arguments: the [[]] is bound to [to_email], and
    [notes], [manual_override], [non_reimbursed_trackings],
    [cancelled_items] and [last_delivery_date] take their defaults, the two
    containers being the default objects of the store. *)
Definition __init__ (group : string) : M ref :=
  let* self := new_obj in
  let* a_orders := new_set ∅ in
  let* a_trackings := new_set ∅ in
  let* a_purchase_orders := new_set ∅ in
  let* a_email_ids := new_set ∅ in
  let* a_to_email := new_list [] in
  do _initiate self a_orders a_trackings group (NInt 0) (NInt 0) "0"
       a_purchase_orders a_email_ids (NFloat 0) (EmailList a_to_email)
       "" (FlagBool false) default_non_reimbursed_trackings
       default_cancelled_items "" then
  ret self.

(** [self.f.update(other.f)] for a set attribute [f], and
    [self.f.extend(other.f)] for a list attribute. *)
Definition update_attr (f : Cluster → ref) (self other : ref) : M unit :=
  let* a := attr self f in
  let* b := attr other f in
  set_update a b.
Definition extend_attr (f : Cluster → ref) (self other : ref) : M unit :=
  let* a := attr self f in
  let* b := attr other f in
  list_extend a b.

(** [Cluster.merge_with], statement by statement ([print] left out). *)
Definition merge_with (self other : ref) : M unit :=
  do update_attr orders self other then
  do update_attr trackings self other then
  do (let* g := attr self group in
      let* g' := attr other group in
      if decide (strip g ≠ strip g')
      then modify self (set_group (g +:+ ", " +:+ strip g'))
      else ret tt) then
  do (let* x := attr self expected_cost in
      let* y := attr other expected_cost in
      modify self (set_expected_cost (num_add x y))) then
  do (let* x := attr self tracked_cost in
      let* y := attr other tracked_cost in
      modify self (set_tracked_cost (num_add x y))) then
  do (let* x := attr self last_ship_date in
      let* y := attr other last_ship_date in
      modify self (set_last_ship_date (str_max x y))) then
  do (let* x := attr self last_delivery_date in
      let* y := attr other last_delivery_date in
      modify self (set_last_delivery_date (str_max x y))) then
  do update_attr purchase_orders self other then
  do update_attr email_ids self other then
  do (let* x := attr self adjustment in
      let* y := attr other adjustment in
      modify self (set_adjustment (num_add x y))) then
  do (let* x := attr self notes in
      let* y := attr other notes in
      if str_truthy x && str_truthy y
      then modify self (set_notes (x +:+ ", " +:+ y))
      else if str_truthy y then modify self (set_notes y)
      else ret tt) then
  do (let* x := attr self manual_override in
      let* y := attr other manual_override in
      if flag_truthy x || flag_truthy y
      then modify self (set_manual_override (FlagBool false))
      else ret tt) then
  do update_attr non_reimbursed_trackings self other then
  extend_attr cancelled_items self other.

(** [for k in keys: if k in d: return d[k]], then [return None]. *)
Fixpoint first_match {K} `{Countable K} {V} (d : gmap K V) (keys : list K)
    : option V :=
  match keys with
  | [] => None
  | k :: rest =>
      match d !! k with
      | Some v => Some v
      | None => first_match d rest
      end
  end.

(** [find_cluster] *)
Definition find_cluster (order_to_cluster : gmap string ref) (t : Tracking)
    : option ref :=
  first_match order_to_cluster (tracking.order_ids t).

(** The test of [update_clusters] for a new order ID or tracking number:
    [len(set(tracking.order_ids).difference(set(cluster.orders))) > 0 or
     tracking.tracking_number not in cluster.trackings]. *)
Definition adds_new (cluster : ref) (t : Tracking) (h : heap) : bool :=
  let c := get_obj cluster h in
  (0 <? size (list_to_set (tracking.order_ids t) ∖ get_set (orders c) h))
  || negb (bool_decide (tracking.tracking_number t ∈ get_set (trackings c) h)).

(** The part of the loop body of [update_clusters] that folds the tracking
    into its cluster (from the manual-override test on). *)
Definition attach (cluster : ref) (t : Tracking) : M unit :=
  do (λ h, if adds_new cluster t h
           then modify cluster (set_manual_override (FlagBool false)) h
           else (tt, h)) then
  do (let* a := attr cluster orders in
      set_update_list a (tracking.order_ids t)) then
  do (let* a := attr cluster trackings in
      set_add a (tracking.tracking_number t)) then
  do (let* x := attr cluster last_ship_date in
      modify cluster (set_last_ship_date (str_max x (tracking.ship_date t)))) then
  do (let* x := attr cluster last_delivery_date in
      modify cluster
        (set_last_delivery_date (str_max x (tracking.delivery_date t)))) then
  modify cluster (set_to_email (EmailStr (tracking.to_email t))).

(** [for order in tracking.order_ids: order_to_cluster[order] = cluster] *)
Definition map_orders (cluster : ref) (order_ids : list string)
    (order_to_cluster : gmap string ref) : gmap string ref :=
  foldl (λ d order, <[order := cluster]> d) order_to_cluster order_ids.

(** One turn of the loop of [update_clusters], on the list object
    [all_clusters] and the local dict [order_to_cluster]. *)
Definition update_step (st : list ref * gmap string ref) (t : Tracking)
    : M (list ref * gmap string ref) :=
  let '(all_clusters, order_to_cluster) := st in
  let* found :=
    match find_cluster order_to_cluster t with
    | Some cluster => ret (cluster, all_clusters)
    | None =>
        let* cluster := __init__ (tracking.group t) in
        ret (cluster, all_clusters ++ [cluster])
    end in
  let cluster := found.1 in
  let order_to_cluster := map_orders cluster (tracking.order_ids t) order_to_cluster in
  do attach cluster t then
  ret (found.2, order_to_cluster).

Fixpoint update_loop (st : list ref * gmap string ref) (ts : list Tracking)
    : M (list ref * gmap string ref) :=
  match ts with
  | [] => ret st
  | t :: rest => let* st' := update_step st t in update_loop st' rest
  end.

(** [update_clusters]: the dict starts empty; the result is the final
    content of the list object [all_clusters]. *)
Definition update_clusters (all_clusters : list ref) (ts : list Tracking)
    : M (list ref) :=
  let* st := update_loop (all_clusters, ∅) ts in
  ret st.1.

Section merging.
Context `{SetOrder}.

(** [find_by_shared_attr] *)
Definition find_by_shared_attr (cluster : ref)
    (email_to_cluster : gmap string ref)
    (po_group_to_cluster : gmap (string * string) ref) (h : heap)
    : option ref :=
  let c := get_obj cluster h in
  match first_match po_group_to_cluster
          ((λ po, (po, group c)) <$> set_iter (get_set (purchase_orders c) h)) with
  | Some found => Some found
  | None => first_match email_to_cluster (set_iter (get_set (email_ids c) h))
  end.

(** [fill_email_po_group_maps]: the two dicts after the call. *)
Definition fill_email_po_group_maps (cluster : ref)
    (email_to_cluster : gmap string ref)
    (po_group_to_cluster : gmap (string * string) ref) (h : heap)
    : gmap string ref * gmap (string * string) ref :=
  let c := get_obj cluster h in
  let po_group_to_cluster :=
    foldl (λ d po, <[(po, group c) := cluster]> d) po_group_to_cluster
          (set_iter (get_set (purchase_orders c) h)) in
  let email_to_cluster :=
    foldl (λ d email, <[email := cluster]> d) email_to_cluster
          (set_iter (get_set (email_ids c) h)) in
  (email_to_cluster, po_group_to_cluster).

(** The loop of [run_merge_iteration].  A [Cluster] instance is always
    true, so [if to_merge:] tests for [None]. *)
Fixpoint merge_loop (clusters : list ref) (result : list ref)
    (email_to_cluster : gmap string ref)
    (po_group_to_cluster : gmap (string * string) ref) : M (list ref) :=
  match clusters with
  | [] => ret result
  | cluster :: rest =>
      λ h,
      match find_by_shared_attr cluster email_to_cluster po_group_to_cluster h with
      | Some to_merge =>
          let '(_, h1) := merge_with to_merge cluster h in
          let '(em, pm) :=
            fill_email_po_group_maps to_merge email_to_cluster
              po_group_to_cluster h1 in
          merge_loop rest result em pm h1
      | None =>
          let '(em, pm) :=
            fill_email_po_group_maps cluster email_to_cluster
              po_group_to_cluster h in
          merge_loop rest (result ++ [cluster]) em pm h
      end
  end.

Definition run_merge_iteration (clusters : list ref) : M (list ref) :=
  merge_loop clusters [] ∅ ∅.

(** The [while True] loop of [merge_orders], with a bound on the number of
    passes: [None] when the bound is used up before the loop breaks. *)
Fixpoint merge_orders_loop (fuel : nat) (clusters : list ref) (h : heap)
    : option (list ref * heap) :=
  match fuel with
  | 0 => None
  | S fuel' =>
      let prev_length := length clusters in
      let '(clusters', h') := run_merge_iteration clusters h in
      if decide (length clusters' = prev_length) then Some (clusters', h')
      else merge_orders_loop fuel' clusters' h'
  end.

(** [merge_orders]; that one pass more than there are clusters always
    suffices is proved below ([merge_orders_total]). *)
Definition merge_orders (clusters : list ref) (h : heap)
    : option (list ref * heap) :=
  merge_orders_loop (S (length clusters)) clusters h.

(** The state after [k] passes of [run_merge_iteration]. *)
Fixpoint passes (k : nat) (clusters : list ref) (h : heap) : list ref * heap :=
  match k with
  | 0 => (clusters, h)
  | S k' => let '(clusters', h') := run_merge_iteration clusters h in
            passes k' clusters' h'
  end.

End merging.

Section from_row.

(** [float(s)] on a string: [None] stands for [ValueError]. *)
Context (float_of_string : string → option float).

Definition py_float (s : string) : pyerror + number :=
  match float_of_string s with
  | Some f => inr (NFloat f)
  | None => inl ValueError
  end.

(** [row[header.index(name)]].  The cells of a row are strings, so that
    [str(cell)] is the cell. *)
Definition cell (header row : list string) (name : string) : pyerror + string :=
  match index header name with
  | Some i => item row i
  | None => inl ValueError
  end.

(** [row[header.index(name)] if name in header else default] *)
Definition cell_or (header row : list string) (name default : string)
    : pyerror + string :=
  if contains header name then cell header row name else inr default.

(** [float(s) if s else 0.0] *)
Definition float_or_zero (s : string) : pyerror + number :=
  if str_truthy s then py_float s else inr (NFloat 0).

(** [from_row] *)
Definition from_row (header row : list string) : ME ref :=
  try* orders :=
    (if contains header "Orders"
     then try* s := value (cell header row "Orders") in
          lift (new_set (list_to_set (split_strip s)))
     else lift (new_set ∅)) in
  try* trackings :=
    (if contains header "Trackings"
     then try* s := value (cell header row "Trackings") in
          lift (new_set (list_to_set (split_strip s)))
     else lift (new_set ∅)) in
  try* expected_cost_str := value (cell_or header row "Amount Billed" "") in
  try* expected_cost := value (float_or_zero expected_cost_str) in
  try* tracked_cost_str := value (cell_or header row "Amount Reimbursed" "") in
  try* tracked_cost := value (float_or_zero tracked_cost_str) in
  try* non_reimbursed_str :=
    value (cell_or header row "Non-Reimbursed Trackings" "") in
  try* non_reimbursed_trackings :=
    lift (if str_truthy non_reimbursed_str
          then new_set (list_to_set (split_strip non_reimbursed_str))
          else new_set ∅) in
  try* last_ship_date := value (cell_or header row "Last Ship Date" "0") in
  try* last_delivery_date :=
    value (cell_or header row "Last Delivery Date (Est.)" "") in
  try* pos_string := value (cell_or header row "POs" "") in
  try* pos :=
    lift (if str_truthy pos_string
          then new_set (list_to_set (split_strip pos_string))
          else new_set ∅) in
  try* email_ids := lift (new_set ∅) in
  try* group := value (cell_or header row "Group" "") in
  try* adj_string := value (cell_or header row "Manual Cost Adjustment" "") in
  try* adjustment := value (float_or_zero adj_string) in
  try* manual_override :=
    (if contains header "Manual Override"
     then try* s := value (cell header row "Manual Override") in
          value (inr (FlagCell s))
     else value (inr (FlagBool false))) in
  try* to_email := value (cell_or header row "To Email" "") in
  try* notes := value (cell_or header row "Notes" "") in
  try* cancelled_items_str := value (cell_or header row "Cancelled Items" "") in
  try* cancelled_items :=
    lift (if str_truthy cancelled_items_str
          then new_list (split_strip cancelled_items_str)
          else new_list []) in
  try* cluster := lift (__init__ group) in
  try* _ := lift (_initiate cluster orders trackings group expected_cost
                    tracked_cost last_ship_date pos email_ids adjustment
                    (EmailStr to_email) notes manual_override
                    non_reimbursed_trackings cancelled_items
                    last_delivery_date) in
  value (inr cluster).

End from_row.

End clusters.

(** ** [lib/group_site_manager.py]: cost ledgers and retries *)

Module group_site_manager.

Definition MAX_UPLOAD_ATTEMPTS : nat := 10.

(** [TrackingInfo = Tuple[str, float, str]]: source, accumulated cost, date;
    the ledger is keyed by tuples of tracking numbers. *)
Definition TrackingInfo : Type := string * number * string.
Abbreviation TrackingInfoDict := (gmap (list string) TrackingInfo).
Abbreviation PoCostDict := (gmap string number).
Definition ReconResult : Type := TrackingInfoDict * PoCostDict.

(** [d[k][1] if k in d else 0.0] *)
Definition previous_cost (d : TrackingInfoDict) (k : list string) : number :=
  match d !! k with
  | Some info => info.1.2
  | None => NFloat 0
  end.

(** [clean_csv_tracking]: [re.sub(r'[^0-9A-Z,]', '', tracking.upper())] *)
Definition clean_csv_tracking (tracking : string) : string :=
  filter_chars
    (λ c, let n := nat_of_ascii c in
          ((48 <=? n) && (n <=? 57)) || ((65 <=? n) && (n <=? 90)) || (n =? 44))
    (upper tracking).

Definition bindR {A B} (r : pyerror + A) (k : A → pyerror + B) : pyerror + B :=
  match r with
  | inl e => inl e
  | inr a => k a
  end.

Notation "'get*' x ':=' r 'in' k" := (bindR r (λ x, k))
  (at level 10, x name, r at level 100, k at level 200, only parsing).

(** [row[name]] on a row of [csv.DictReader]. *)
Definition field (row : gmap string string) (name : string) : pyerror + string :=
  match row !! name with
  | Some v => inr v
  | None => inl KeyError
  end.

(** [for row in rows: body]; an exception leaves the loop and the function. *)
Fixpoint for_rows {S R} (body : S → R → pyerror + S) (st : S) (rows : list R)
    : pyerror + S :=
  match rows with
  | [] => inr st
  | r :: rest => get* st' := body st r in for_rows body st' rest
  end.

(** The same loop over a dict the caller keeps: what was stored before an
    exception stays stored. *)
Fixpoint for_keep {R} (body : TrackingInfoDict → R → pyerror + TrackingInfoDict)
    (d : TrackingInfoDict) (rows : list R) : option pyerror * TrackingInfoDict :=
  match rows with
  | [] => (None, d)
  | r :: rest =>
      match body d r with
      | inl e => (Some e, d)
      | inr d' => for_keep body d' rest
      end
  end.

(** A [<tr>] as BeautifulSoup or Selenium hands it over: the texts of its
    [<td>] descendants and its own text. *)
Record tr := mkTr { tds : list string; text : string }.

Section adapters.

(** [float(s)], and
    [datetime.strptime(s, '%Y-%m-%d %H:%M:%S').strftime('%Y-%m-%d')];
    [None] stands for [ValueError]. *)
Context (float_of_string : string → option float).
Context (strptime_ymd : string → option string).

Definition float_ (s : string) : pyerror + number :=
  match float_of_string s with
  | Some f => inr (NFloat f)
  | None => inl ValueError
  end.

Definition to_date (s : string) : pyerror + string :=
  match strptime_ymd s with
  | Some d => inr d
  | None => inl ValueError
  end.

(** The loop body of [_melul_get_tracking_pos_costs_maps]. *)
Definition melul_row (group : string) (st : ReconResult)
    (row : gmap string string) : pyerror + ReconResult :=
  let '(tracking_infos, po_to_cost_map) := st in
  get* void_s := field row "VOID" in
  let void := bool_decide (void_s = "1") in
  get* verified_s := field row "VERIFIED" in
  let verified := bool_decide (verified_s = "1") in
  get* po := field row "ID" in
  get* total := field row "TOTAL" in
  get* cost := float_ total in
  get* date_str := field row "CREATED DATE" in
  get* date := to_date date_str in
  get* numbers := field row "TRACKING NUMBERS" in
  let trackings := split comma (clean_csv_tracking numbers) in
  let tracking_infos :=
    match trackings with
    | [] => tracking_infos
    | _ =>
        let tracking_tuple :=
          strip <$> List.filter (λ t, str_truthy t && str_truthy (strip t))
                      trackings in
        if num_truthy cost then
          let previous := previous_cost tracking_infos tracking_tuple in
          let new_cost :=
            if verified && negb void then NFloat (to_float cost) else NFloat 0 in
          <[tracking_tuple := (group, num_add previous new_cost, date)]>
            tracking_infos
        else tracking_infos
    end in
  let po_to_cost_map :=
    if num_truthy cost && str_truthy po
    then <[po := num_add (default (NFloat 0) (po_to_cost_map !! po))
                   (NFloat (to_float cost))]> po_to_cost_map
    else po_to_cost_map in
  inr (tracking_infos, po_to_cost_map).

(** [_melul_get_tracking_pos_costs_maps], on the rows that
    [_get_melul_csv] downloaded. *)
Definition _melul_get_tracking_pos_costs_maps (group : string)
    (csv_rows : list (gmap string string)) : pyerror + ReconResult :=
  for_rows (melul_row group) (∅, ∅) csv_rows.

(** [_recon_via_csvs], on the rows of the files of the group's folder. *)
Definition recon_row (group : string) (tracking_infos : TrackingInfoDict)
    (row : gmap string string) : pyerror + TrackingInfoDict :=
  get* number := field row "Tracking Number" in
  let tracking := clean_csv_tracking number in
  get* total_s := field row "Total" in
  get* total :=
    float_ (remove_char dash (remove_char comma (remove_char dollar total_s))) in
  let old_value := previous_cost tracking_infos [tracking] in
  inr (<[[tracking] := (group, num_add old_value total, "")]> tracking_infos).

Definition _recon_via_csvs (group : string) (rows : list (gmap string string))
    : pyerror + ReconResult :=
  get* tracking_infos := for_rows (recon_row group) ∅ rows in
  inr (tracking_infos, ∅).

(** [_get_emb_tracking_pos_prices], on the exported rows. *)
Definition emb_row (tracking_infos : TrackingInfoDict)
    (row : gmap string string) : pyerror + TrackingInfoDict :=
  get* number := field row "tracking" in
  let tracking := clean_csv_tracking number in
  get* verified_s := field row "is_verified" in
  let verified := bool_decide (verified_s = "True") in
  get* total_s := field row "total" in
  get* total :=
    (if str_truthy total_s && verified then float_ total_s else inr (NInt 0)) in
  let old_value := previous_cost tracking_infos [tracking] in
  inr (<[[tracking] := ("embdeals", num_add old_value total, "")]> tracking_infos).

Definition _get_emb_tracking_pos_prices (rows : list (gmap string string))
    : pyerror + ReconResult :=
  get* tracking_infos := for_rows emb_row ∅ rows in
  inr (tracking_infos, ∅).

(** [_get_oaks_tracking_pos_prices], on the table rows of all pages. *)
Definition oaks_row (tracking_infos : TrackingInfoDict) (row : tr)
    : pyerror + TrackingInfoDict :=
  if length (tds row) <? 6 then inr tracking_infos
  else
    get* t1 := item (tds row) 1 in
    let tracking := strip (upper t1) in
    if negb (str_truthy tracking) || startswith "TRACKING" tracking
    then inr tracking_infos
    else
      get* t5 := item (tds row) 5 in
      let cost :=
        strip (remove_char dash (remove_char comma (remove_char dollar t5))) in
      get* cost_value := (if str_truthy cost then float_ cost else inr (NFloat 0)) in
      let previous := previous_cost tracking_infos [tracking] in
      inr (<[[tracking] := ("oaks", num_add previous cost_value, "")]>
             tracking_infos).

Definition _get_oaks_tracking_pos_prices (rows : list tr) : pyerror + ReconResult :=
  get* tracking_infos := for_rows oaks_row ∅ rows in
  inr (tracking_infos, ∅).

(** [_get_yrcw_tracking_pos_prices], on the exported rows;
    [po_cost_map] is a [defaultdict(float)]. *)
Definition yrcw_row (st : ReconResult) (row : gmap string string)
    : pyerror + ReconResult :=
  let '(tracking_info_map, po_cost_map) := st in
  get* number := field row "Tracking #" in
  let tracking := clean_csv_tracking number in
  get* value_str := field row "Value" in
  if negb (str_truthy value_str) then inr st
  else
    get* value := float_ (remove_char comma (remove_char dollar value_str)) in
    let old_value := previous_cost tracking_info_map [tracking] in
    inr (<[[tracking] := ("yrcw", num_add old_value value, "")]> tracking_info_map,
         <[tracking := num_add (default (NFloat 0) (po_cost_map !! tracking)) value]>
           po_cost_map).

Definition _get_yrcw_tracking_pos_prices (rows : list (gmap string string))
    : pyerror + ReconResult :=
  for_rows yrcw_row (∅, ∅) rows.

(** [_get_gibstrat_tracking_pos_prices], on the exported rows. *)
Definition gibstrat_row (group : string) (tracking_infos : TrackingInfoDict)
    (row : gmap string string) : pyerror + TrackingInfoDict :=
  get* number := field row "Tracking Number" in
  let tracking_tuple := [strip (clean_csv_tracking number)] in
  get* price_s := field row "Price Total" in
  let price_s := remove_char comma (remove_char dollar price_s) in
  get* price_total := (if str_truthy price_s then float_ price_s else inr (NFloat 0)) in
  get* commission_s := field row "Commission Total" in
  let commission_s := remove_char comma (remove_char dollar commission_s) in
  get* commission_total :=
    (if str_truthy commission_s then float_ commission_s else inr (NFloat 0)) in
  let previous := previous_cost tracking_infos tracking_tuple in
  inr (<[tracking_tuple :=
           (group, num_add (num_add price_total commission_total) previous,
            "unknown")]> tracking_infos).

Definition _get_gibstrat_tracking_pos_prices (group : string)
    (rows : list (gmap string string)) : pyerror + ReconResult :=
  get* tracking_infos := for_rows (gibstrat_row group) ∅ rows in
  inr (tracking_infos, ∅).

(** The BFMR payment mails: [table] is [table.find_all('tr')]. *)
Definition bfmr_store (result : TrackingInfoDict) (tracking : string)
    (total : number) (date : string) : TrackingInfoDict :=
  let previous_total := previous_cost result [tracking] in
  <[[tracking] := ("bfmr", num_add previous_total total, date)]> result.

Definition busted_cell (date : string) (cells : list string)
    (result : TrackingInfoDict) (i : nat) : pyerror + TrackingInfoDict :=
  get* t := item cells (i * 5) in
  let tracking := strip (upper t) in
  get* total_text := item cells (i * 5 + 4) in
  get* total := float_ (remove_char dollar (remove_char comma total_text)) in
  inr (bfmr_store result tracking total date).

Definition fill_busted_bfmr_costs (result : TrackingInfoDict) (table : list tr)
    (date : string) : option pyerror * TrackingInfoDict :=
  match table !! 1 with
  | None => (Some IndexError, result)
  | Some row =>
      let cells := take (length (tds row) - 2) (tds row) in
      for_keep (busted_cell date cells) result (seq 0 (length cells / 5))
  end.

Definition standard_row (date : string) (result : TrackingInfoDict) (row : tr)
    : pyerror + TrackingInfoDict :=
  if negb (length (tds row) =? 5) then inr result
  else
    get* t := item (tds row) 0 in
    let tracking := strip (upper t) in
    get* total_text := item (tds row) 4 in
    get* total :=
      float_ (remove_char dollar (remove_char comma (strip total_text))) in
    inr (bfmr_store result tracking total date).

Definition fill_standard_bfmr_costs (result : TrackingInfoDict)
    (table : list tr) (date : string) : option pyerror * TrackingInfoDict :=
  for_keep (standard_row date) result (drop 1 table).

(** [add_bfmr_cost_if_nonempty] *)
Definition add_bfmr_cost_if_nonempty (result : TrackingInfoDict)
    (tracking : string) (cost : number) (date : string) : TrackingInfoDict :=
  if num_truthy cost then bfmr_store result tracking cost date else result.

Fixpoint take_chars (keep : ascii → bool) (s : string) : string :=
  match s with
  | EmptyString => EmptyString
  | String c s' => if keep c then String c (take_chars keep s') else EmptyString
  end.

Definition amount_char (c : ascii) : bool :=
  let n := nat_of_ascii c in
  ((48 <=? n) && (n <=? 57)) || (n =? 44) || (n =? 46).

(** [re.search(r'\$([0-9,.]+)', s)]: group 1 of the leftmost match. *)
Fixpoint search_amount (s : string) : option string :=
  match s with
  | EmptyString => None
  | String c s' =>
      if Ascii.eqb c dollar then
        match take_chars amount_char s' with
        | EmptyString => search_amount s'
        | amount => Some amount
        end
      else search_amount s'
  end.

(** The loop of [fill_2020_12_22_bfmr_costs] over [rows[1:-1]], with its
    locals [tracking] and [cost_for_tracking]. *)
Fixpoint loop_2020 (date : string) (rows : list tr) (tracking : string)
    (cost_for_tracking : number) (result : TrackingInfoDict)
    : option pyerror * (string * number * TrackingInfoDict) :=
  match rows with
  | [] => (None, (tracking, cost_for_tracking, result))
  | row :: rest =>
      if has_char dollar (text row) then
        match search_amount (text row) with
        | None => (Some (OtherError "Unknown BFMR format"),
                   (tracking, cost_for_tracking, result))
        | Some amount =>
            match float_ amount with
            | inl e => (Some e, (tracking, cost_for_tracking, result))
            | inr f => loop_2020 date rest tracking
                         (num_add cost_for_tracking f) result
            end
        end
      else
        loop_2020 date rest (strip (text row)) (NFloat 0)
          (add_bfmr_cost_if_nonempty result tracking cost_for_tracking date)
  end.

Definition fill_2020_12_22_bfmr_costs (result : TrackingInfoDict)
    (table : list tr) (date : string) : option pyerror * TrackingInfoDict :=
  let rows := drop 1 table in
  match rows with
  | [] => (Some IndexError, result)
  | first :: _ =>
      let tracking := strip (text first) in
      if has_char dollar tracking then (None, result)
      else
        match loop_2020 date (take (length rows - 2) (drop 1 rows)) tracking
                (NFloat 0) result with
        | (Some e, (_, _, result')) => (Some e, result')
        | (None, (tracking', cost, result')) =>
            (None, add_bfmr_cost_if_nonempty result' tracking' cost date)
        end
  end.

(** The [try] block of [_get_bfmr_costs] from [table = tables[1]] on: the
    three readers in turn; an exception ends the block, and what was stored
    before it stays stored. *)
Definition bfmr_readers (result : TrackingInfoDict) (table : list tr)
    (date : string) : TrackingInfoDict :=
  match fill_busted_bfmr_costs result table date with
  | (Some _, r) => r
  | (None, r1) =>
      match fill_standard_bfmr_costs r1 table date with
      | (Some _, r) => r
      | (None, r2) => (fill_2020_12_22_bfmr_costs r2 table date).2
      end
  end.

(** A payment mail as [_get_bfmr_costs] reads it: its [Date] header
    ([msg['Date']], [None] when the message has none) and what cleaning and
    parsing its content gives inside the [try] block: an exception, or
    [soup.find(id='email_body')], [None] when there is no such element, else
    [body.find_all('table')], each table as its [find_all('tr')]. *)
Record bfmr_email := mkEmail {
  date_header : option string;
  email_body : pyerror + option (list (list tr)) }.

(** [datetime.strptime(s, '%a, %d %b %Y %H:%M:%S %z').strftime('%Y-%m-%d')];
    [None] stands for [ValueError]. *)
Context (strptime_rfc : string → option string).

(** [strptime(msg['Date'], ...).strftime('%Y-%m-%d') if msg['Date'] else '']:
    the statement before the [try] block. *)
Definition mail_date (header : option string) : pyerror + string :=
  match header with
  | None => inr ""
  | Some s =>
      if str_truthy s then
        match strptime_rfc s with
        | Some d => inr d
        | None => inl ValueError
        end
      else inr ""
  end.

(** The [try] block with its bare [except]: [continue] when there is no
    body or there are fewer than two tables, else the readers on the second
    table; every exception is dropped. *)
Definition bfmr_try (result : TrackingInfoDict)
    (content : pyerror + option (list (list tr))) (date : string)
    : TrackingInfoDict :=
  match content with
  | inl _ => result
  | inr None => result
  | inr (Some tables) =>
      if negb (0 <? length tables) || (length tables <? 2) then result
      else
        match tables !! 1 with
        | Some table => bfmr_readers result table date
        | None => result
        end
  end.

(** The loop body of [_get_bfmr_costs] on the outcome of
    [get_email_content] for one email id: fetching the mail and reading its
    date happen before the [try] block, so an exception there leaves the
    function. *)
Definition bfmr_mail (result : TrackingInfoDict)
    (fetched : pyerror + bfmr_email) : pyerror + TrackingInfoDict :=
  get* msg := fetched in
  get* date := mail_date (date_header msg) in
  inr (bfmr_try result (email_body msg) date).

(** [_get_bfmr_costs], on the mails that the search found. *)
Definition _get_bfmr_costs (mails : list (pyerror + bfmr_email))
    : pyerror + TrackingInfoDict :=
  for_rows bfmr_mail ∅ mails.

(** [_retrieve_usa_tracking_price], on the outcome of the request for one
    tracking number: the price text, or [None] when the request failed. *)
Definition _retrieve_usa_tracking_price (tracking_number : string)
    (response : option string) (tracking_tuples_to_prices : TrackingInfoDict)
    : TrackingInfoDict :=
  match response with
  | None => tracking_tuples_to_prices
  | Some total_price =>
      match float_ total_price with
      | inl _ => tracking_tuples_to_prices
      | inr cost => <[[tracking_number] := ("usa", cost, "")]> tracking_tuples_to_prices
      end
  end.

(** The ledger of [_get_usa_tracking_pos_prices]: the gathered tasks, in the
    order in which they complete. *)
Definition usa_ledger (completed : list (string * option string))
    : TrackingInfoDict :=
  foldl (λ d task, _retrieve_usa_tracking_price task.1 task.2 d) ∅ completed.

End adapters.

Set Warnings "-register-all".

(** Exceptions as the retry loops see them: [Exception(msg, arg)], possibly
    raised [from] a cause, or one raised by a collaborator. *)
Inductive exc :=
  | Exception (msg : string) (arg : option exc) (cause : option exc)
  | Foreign (name : string).

Inductive outcome (A : Type) :=
  | Returns (a : A)
  | Raises (e : exc).
Arguments Returns {A} a.
Arguments Raises {A} e.

Section retry.

(** The world outside (portals, mail, browser), on which a fallible
    operation acts. *)
Context {World : Type}.

Definition action (A : Type) : Type := World → outcome A * World.

(** [for i in range(n): try: return op() except Exception as e: last = e];
    [None] when the loop ends without a return. *)
Fixpoint attempts {A} (n : nat) (op : action A) (last : option exc) (w : World)
    : (A + option exc) * World :=
  match n with
  | 0 => (inr last, w)
  | S n' =>
      match op w with
      | (Returns r, w') => (inl r, w')
      | (Raises e, w') => attempts n' op (Some e) w'
      end
  end.

(** The first [k] attempts all raise: the exceptions in order and the world
    they leave; [None] when one of them returns. *)
Fixpoint failures {A} (k : nat) (op : action A) (w : World)
    : option (list exc * World) :=
  match k with
  | 0 => Some ([], w)
  | S k' =>
      match op w with
      | (Raises e, w1) =>
          match failures k' op w1 with
          | Some (es, w2) => Some (e :: es, w2)
          | None => None
          end
      | (Returns _, _) => None
      end
  end.

(** [get_new_tracking_pos_costs_maps_with_retry], over
    [get_new_tracking_pos_costs_maps(group)] as the operation. *)
Definition get_new_tracking_pos_costs_maps_with_retry {A}
    (get_new_tracking_pos_costs_maps : string → action A) (group : string)
    : action A :=
  λ w, match attempts 5 (get_new_tracking_pos_costs_maps group) None w with
       | (inl r, w') => (Returns r, w')
       | (inr last_exc, w') =>
           (Raises (Exception "Exceeded retry limit" last_exc None), w')
       end.

(** The portals' upload routines and the configuration. *)
Context (melul_portal_groups : list string).
Context (credentials : string → option (string * string)).
Context (_upload_melul : list string → string → string → string → action unit).
Context (_upload_usa _upload_yrcw _upload_bfmr _upload_oaks _upload_emb
           : list string → action unit).
Context (_upload_gibstrat : string → list string → action unit).

(** The [try] body of [_upload_to_group]. *)
Definition upload_once (numbers : list string) (group : string) : action unit :=
  if contains melul_portal_groups group then
    match credentials group with
    | Some (username, password) => _upload_melul numbers group username password
    | None => λ w, (Raises (Foreign "KeyError"), w)
    end
  else if decide (group = "usa") then _upload_usa numbers
  else if decide (group = "yrcw") then _upload_yrcw numbers
  else if decide (group = "bfmr") then _upload_bfmr numbers
  else if decide (group = "oaks") then _upload_oaks numbers
  else if decide (group = "dtmd" ∨ group = "gibstrat")
       then _upload_gibstrat group numbers
  else if decide (group = "embdeals") then _upload_emb numbers
  else λ w, (Raises (Exception ("Unknown group: " +:+ group) None None), w).

(** [_upload_to_group] *)
Definition _upload_to_group (numbers : list string) (group : string)
    : action unit :=
  λ w, match attempts MAX_UPLOAD_ATTEMPTS (upload_once numbers group) None w with
       | (inl r, w') => (Returns r, w')
       | (inr last_ex, w') =>
           (Raises (Exception "Exceeded retry limit" None last_ex), w')
       end.

End retry.

End group_site_manager.

(** ** Vocabulary of the statements *)

Module logic.

(** What a piece of code establishes when run on a store. *)
Definition wp {X} (m : M X) (Q : X → heap → Prop) (h : heap) : Prop :=
  Q (m h).1 (m h).2.

Section snapshot.
Context (self other : ref).

(** The object [other] as seen while [self] is [A]: the same object when
    [other is self]. *)
Definition other_view (A B : Cluster) : Cluster :=
  if decide (self = other) then A else B.

(** A store in which [self] is [A], [other] is [B] unless it is [self], and
    the sets and lists have the contents [S] and [L]. *)
Definition snap (A B : Cluster) (S : ref → gset string)
    (L : ref → list string) (h : heap) : Prop :=
  get_obj self h = A ∧ get_obj other h = other_view A B
  ∧ (∀ r, get_set r h = S r) ∧ (∀ r, get_list r h = L r).

End snapshot.

(** The five set attributes of a cluster. *)
Definition set_attrs (c : Cluster) : list ref :=
  [orders c; trackings c; purchase_orders c; email_ids c;
   non_reimbursed_trackings c].

(** [A] keeps its five set attributes in five different set objects, and
    no set object serves [B] for one attribute and [A] for another.  (The
    constructors of the code give every cluster its own sets for [orders],
    [trackings], [purchase_orders] and [email_ids]; what clusters may share
    is the set of one and the same attribute.) *)
Definition apart (A B : Cluster) : Prop :=
  NoDup (set_attrs A)
  ∧ ∀ i j a b, set_attrs A !! i = Some a → set_attrs B !! j = Some b →
      i ≠ j → a ≠ b.

Import clusters.

(** The cluster object after [attach], [b] telling whether the tracking
    adds an order ID or a tracking number. *)
Definition attached (b : bool) (t : Tracking) (A : Cluster) : Cluster :=
  set_to_email (EmailStr (tracking.to_email t))
    (set_last_delivery_date
       (str_max (last_delivery_date A) (tracking.delivery_date t))
       (set_last_ship_date (str_max (last_ship_date A) (tracking.ship_date t))
          (if b then set_manual_override (FlagBool false) A else A))).

Definition attached_sets (t : Tracking) (A : Cluster) (S : ref → gset string)
    : ref → gset string :=
  let S1 := λ r, if decide (r = orders A)
                 then S (orders A) ∪ list_to_set (tracking.order_ids t)
                 else S r in
  λ r, if decide (r = trackings A)
       then S1 (trackings A) ∪ {[tracking.tracking_number t]} else S1 r.

(** The cell of a row under a column: [None] when the header has no such
    column, an exception when the row is too short for it. *)
Definition column (header row : list string) (name : string)
    : pyerror + option string :=
  if contains header name
  then match cell header row name with
       | inl e => inl e
       | inr s => inr (Some s)
       end
  else inr None.

(** The columns [from_row] looks for, and those it reads as numbers. *)
Definition columns : list string :=
  ["Orders"; "Trackings"; "Amount Billed"; "Amount Reimbursed";
   "Non-Reimbursed Trackings"; "Last Ship Date"; "Last Delivery Date (Est.)";
   "POs"; "Group"; "Manual Cost Adjustment"; "Manual Override"; "To Email";
   "Notes"; "Cancelled Items"].
Definition numeric_columns : list string :=
  ["Amount Billed"; "Amount Reimbursed"; "Manual Cost Adjustment"].

(** The four set-valued columns with the attributes they fill. *)
Definition set_columns : list (string * (Cluster → ref)) :=
  [("Orders", orders); ("Trackings", trackings);
   ("Non-Reimbursed Trackings", non_reimbursed_trackings);
   ("POs", purchase_orders)].

(** The reading of C10 for the set-valued columns: one function [f] from
    the text of a cell to its comma-split-and-trimmed elements gives every
    set-valued attribute from its cell. *)
Definition set_fields_read_as (f : string → gset string)
    (float_of_string : string → option float) (header row : list string)
    (h : heap) : Prop :=
  ∀ c h', from_row float_of_string header row h = inr (c, h') →
    ∀ name attribute s,
      (name, attribute) ∈ set_columns →
      column header row name = inr (Some s) →
      get_set (attribute (get_obj c h')) h' = f s.

Import group_site_manager.

(** The key of a Melul row: the tuple of its tracking numbers. *)
Definition melul_key (numbers : string) : list string :=
  strip <$> List.filter (λ t, str_truthy t && str_truthy (strip t))
              (split comma (clean_csv_tracking numbers)).

(** The order IDs a cluster holds. *)
Definition orders_of (r : ref) (h : heap) : gset string :=
  get_set (orders (get_obj r h)) h.

(** One order, one cluster: the clusters of the list are different objects
    and no order ID is held by two of them. *)
Definition partitioned (cs : list ref) (h : heap) : Prop :=
  NoDup cs
  ∧ ∀ o r r', r ∈ cs → r' ∈ cs → o ∈ orders_of r h → o ∈ orders_of r' h →
      r = r'.

(** The clusters that the working dict gives for the order IDs of a
    tracking, and whether they are all one cluster. *)
Definition owners_of (d : gmap string ref) (t : Tracking) : list ref :=
  omap (λ o, d !! o) (tracking.order_ids t).
Definition one_owner (d : gmap string ref) (t : Tracking) : bool :=
  match owners_of d t with
  | [] => true
  | r :: rs => forallb (Nat.eqb r) rs
  end.

(** No tracking, at its turn in the loop of [update_clusters], carries
    order IDs that the working dict gives to two different clusters. *)
Fixpoint span_free (st : list ref * gmap string ref) (ts : list Tracking)
    (h : heap) : bool :=
  match ts with
  | [] => true
  | t :: rest =>
      one_owner st.2 t
      && span_free (update_step st t h).1 rest (update_step st t h).2
  end.

(** The state of the loop of [update_clusters] started from no clusters:
    the clusters are those the loop has created, each with the sets that
    [Cluster(group)] allocated right after it, and the working dict gives
    for every order ID the one cluster that holds it. *)
Definition loop_inv (st : list ref * gmap string ref) (h : heap) : Prop :=
  NoDup st.1
  ∧ (∀ r, r ∈ st.1 →
       r + 6 ≤ next h ∧ orders (get_obj r h) = r + 1
       ∧ trackings (get_obj r h) = r + 2)
  ∧ (∀ r r', r ∈ st.1 → r' ∈ st.1 → r ≠ r' → r + 6 ≤ r' ∨ r' + 6 ≤ r)
  ∧ (∀ o r, st.2 !! o = Some r → r ∈ st.1 ∧ o ∈ get_set (r + 1) h)
  ∧ (∀ r o, r ∈ st.1 → o ∈ get_set (r + 1) h → st.2 !! o = Some r).

(** Code that leaves a property of the store as it is. *)
Definition keeps (P : heap → Prop) {X} (m : M X) : Prop :=
  ∀ h, P h → P (m h).2.

(** The clusters of a list keep their sets apart: any two of them (and each
    by itself) as [apart] says, and two different clusters have different
    sets of orders. *)
Definition separate (cs : list ref) (h : heap) : Prop :=
  (∀ r r', r ∈ cs → r' ∈ cs → apart (get_obj r h) (get_obj r' h))
  ∧ (∀ r r', r ∈ cs → r' ∈ cs → r ≠ r' →
       orders (get_obj r h) ≠ orders (get_obj r' h)).

(** A store in which [self] has the set attributes [attrs0] and the set
    [a] the content [X]. *)
Definition framed (self : ref) (attrs0 : list ref) (a : ref) (X : gset string)
    (h : heap) : Prop :=
  set_attrs (get_obj self h) = attrs0 ∧ get_set a h = X.

End logic.

(** ** Stores and collaborators for the examples *)

Module examples.
Import clusters group_site_manager.

(** A portal that fails twice and then answers with the attempt number; the
    world counts the attempts. *)
Definition flaky_fetch (group : string) : @action nat nat :=
  λ w, if w <? 2 then (Raises (Foreign "timeout"), S w) else (Returns w, S w).
Definition no_upload : list string → @action nat unit :=
  λ _ w, (Raises (Foreign "down"), S w).


(** Two clusters as [from_row] would build them, each with its own sets. *)
Definition two_clusters : heap :=
  put_obj 20 (mkCluster 21 22 "g " (NFloat 10) (NFloat 1) "2020-01-02" 23 24
                (NFloat 0) (EmailStr "a@x") "first" (FlagBool true) 25 26 "")
  (put_obj 30 (mkCluster 31 32 "g" (NFloat 15) (NFloat 2) "2020-03-01" 33 34
                 (NFloat 0.5) (EmailStr "b@x") "second" (FlagBool false) 35 36
                 "2020-03-09")
  (put_set 21 {["O1"]} (put_set 31 {["O2"]}
  (put_set 23 {["P1"]} (put_set 33 {["P1"]}
  (put_list 26 ["tv"] (put_list 36 ["tv"; "cable"] module_heap))))))).

(** A cluster under manual override that holds order O1 and tracking T1. *)
Definition overridden : heap :=
  put_obj 40 (mkCluster 41 42 "g" (NInt 0) (NInt 0) "0" 43 44 (NFloat 0)
                (EmailStr "") "" (FlagBool true) 45 46 "")
    (put_set 41 {["O1"]} (put_set 42 {["T1"]} module_heap)).

(** The header written by [get_header], and a row as [to_row] writes it for
    a cluster with one order, no reimbursement and no adjustment. *)
Definition sheet_header : list string :=
  ["Orders"; "Trackings"; "To Email"; "Amount Billed"; "Amount Reimbursed";
   "Non-Reimbursed Trackings"; "Last Ship Date"; "Last Delivery Date (Est.)";
   "POs"; "Group"; "Manual Cost Adjustment"; "Manual Override"; "Total Diff";
   "Notes"; "Cancelled Items"].
Definition sheet_row : list string :=
  ["O1, O2"; " T1 "; "m@x"; "12.5"; ""; ""; "2020-01-01"; ""; "P1"; "g"; "";
   "TRUE"; "=D:D - E:E - K:K"; ""; ""].

(** A reader of the decimal texts that occur in the examples. *)
Definition read_float (s : string) : option float :=
  if decide (s = "12.5") then Some 12.5%float
  else if decide (s = "10.0") then Some 10%float
  else if decide (s = "15.0") then Some 15%float
  else if decide (s = "5.00") then Some 5%float
  else if decide (s = "3.00") then Some 3%float
  else None.

(** [c1 = Cluster("g"); c2 = Cluster("g")], a cluster [b] read from a sheet
    row with one non-reimbursed tracking and one cancelled item,
    [c1.merge_with(b)], and then [c3 = Cluster("g")]. *)
Definition shared_defaults_run : (ref * ref * ref) * heap :=
  let '(c1, h1) := __init__ "g" module_heap in
  let '(c2, h2) := __init__ "g" h1 in
  match from_row (λ _, None) ["Non-Reimbursed Trackings"; "Cancelled Items"]
          ["T9"; "tv"] h2 with
  | inl _ => ((c1, c2, c2), h2)
  | inr (b, h3) =>
      let '(_, h4) := merge_with c1 b h3 in
      let '(c3, h5) := __init__ "g" h4 in
      ((c1, c2, c3), h5)
  end.

(** The first ten characters: the date of a ['%Y-%m-%d %H:%M:%S'] text. *)
Definition day_of (s : string) : option string := Some (String.substring 0 10 s).

Definition melul_csv (total verified void : string) : gmap string string :=
  list_to_map [("VOID", void); ("VERIFIED", verified); ("ID", "PO7");
               ("TOTAL", total); ("CREATED DATE", "2020-05-04 10:11:12");
               ("TRACKING NUMBERS", "1z999")].
Definition recon_csv (total : string) : gmap string string :=
  list_to_map [("Tracking Number", "1z999"); ("Total", total)].
Definition emb_csv (total verified : string) : gmap string string :=
  list_to_map [("tracking", "1z999"); ("is_verified", verified); ("total", total)].
Definition oaks_tr (cost : string) : tr :=
  mkTr [""; "1z999"; ""; ""; ""; cost] "".
Definition yrcw_csv (value : string) : gmap string string :=
  list_to_map [("Tracking #", "1z999"); ("Value", value)].
Definition gibstrat_csv (price : string) : gmap string string :=
  list_to_map [("Tracking Number", "1z999"); ("Price Total", price);
               ("Commission Total", "")].
Definition bfmr_table : list tr :=
  [mkTr [] "Tracking Item Qty Price Total";
   mkTr ["1z999"; "tv"; "1"; "$10.0"; "$10.0"] "1z999 tv 1 $10.0 $10.0";
   mkTr ["1z999"; "cable"; "1"; "$15.0"; "$15.0"] "1z999 cable 1 $15.0 $15.0"].

(** A reader of the [Date] headers that occur in the examples. *)
Definition read_date (s : string) : option string :=
  if decide (s = "Mon, 04 May 2020 10:11:12 +0000") then Some "2020-05-04"
  else None.

(** A payment mail whose second table is [bfmr_table]; the same mail with a
    [Date] header that does not parse; and a mail whose content could not
    be parsed. *)
Definition payment_mail : bfmr_email :=
  mkEmail (Some "Mon, 04 May 2020 10:11:12 +0000")
    (inr (Some [[]; bfmr_table])).
Definition misdated_mail : bfmr_email :=
  mkEmail (Some "4 May 2020") (inr (Some [[]; bfmr_table])).
Definition broken_mail : bfmr_email :=
  mkEmail (Some "Mon, 04 May 2020 10:11:12 +0000") (inl (OtherError "parse")).

(** The accumulated cost of tracking 1Z999 in a ledger. *)
Definition cost_1Z999 (r : pyerror + ReconResult) : option number :=
  match r with
  | inl _ => None
  | inr (d, _) => (λ info : TrackingInfo, info.1.2) <$> d !! ["1Z999"]
  end.

(** Four trackings: the third carries the order IDs of the first two, the
    fourth an order ID of a cluster that exists already. *)
Definition spanning_trackings : list Tracking :=
  [tracking.mkTracking "T1" "g" ["A"] "2020-01-01" "2020-01-05" "m@x";
   tracking.mkTracking "T2" "g" ["B"] "2020-01-02" "2020-01-06" "m@x";
   tracking.mkTracking "T3" "g" ["A"; "B"] "2020-01-03" "2020-01-07" "m@x";
   tracking.mkTracking "T4" "g" ["O1"] "2020-01-04" "2020-01-08" "m@x"].

(** [update_clusters] on a cluster read from a sheet row with order O1 and
    on the four trackings. *)
Definition existing_run : list ref * heap :=
  match from_row read_float ["Orders"] ["O1"] module_heap with
  | inr (c0, h0) => update_clusters [c0] spanning_trackings h0
  | inl _ => ([], module_heap)
  end.

(** Three trackings none of which spans two clusters. *)
Definition plain_trackings : list Tracking :=
  [tracking.mkTracking "T1" "g" ["A"] "2020-01-01" "2020-01-05" "m@x";
   tracking.mkTracking "T2" "g" ["B"; "C"] "2020-01-02" "2020-01-06" "m@x";
   tracking.mkTracking "T3" "g" ["A"; "D"] "2020-01-03" "2020-01-07" "m@x"].


(** The two clusters of [two_clusters] with the same group: they share the
    pair (P1, g). *)
Definition same_group : heap :=
  put_obj 30 (mkCluster 31 32 "g " (NFloat 15) (NFloat 2) "2020-03-01" 33 34
                (NFloat 0.5) (EmailStr "b@x") "second" (FlagBool false) 35 36
                "2020-03-09") two_clusters.

End examples.

(** ** [Cluster.get_header] and [Cluster.to_row] of [lib/clusters.py] *)

Module sheet.
Import clusters.

(** The values [to_row] puts in a row. *)
Inductive value :=
  | VStr (s : string)
  | VNum (n : number)
  | VBool (b : bool)
  | VList (l : list string).

(** [Cluster.get_header] *)
Definition get_header : list string :=
  ["Orders"; "Trackings"; "To Email"; "Amount Billed"; "Amount Reimbursed";
   "Non-Reimbursed Trackings"; "Last Ship Date"; "Last Delivery Date (Est.)";
   "POs"; "Group"; "Manual Cost Adjustment"; "Manual Override"; "Total Diff";
   "Notes"; "Cancelled Items"].

Definition email_value (e : email_field) (h : heap) : value :=
  match e with
  | EmailStr s => VStr s
  | EmailList l => VList (get_list l h)
  end.

Definition flag_value (f : flag) : value :=
  match f with
  | FlagBool b => VBool b
  | FlagCell s => VStr s
  end.

Section to_row.
Context `{SetOrder}.

(** [Cluster.to_row] *)
Definition to_row (self : ref) (h : heap) : list value :=
  let c := get_obj self h in
  [VStr (join ", " (set_iter (get_set (orders c) h)));
   VStr (join ", " (set_iter (get_set (trackings c) h)));
   email_value (to_email c) h;
   VNum (expected_cost c);
   VNum (tracked_cost c);
   VStr (join ", " (set_iter (get_set (non_reimbursed_trackings c) h)));
   VStr (last_ship_date c);
   VStr (last_delivery_date c);
   VStr ("'" +:+ join ", " (set_iter (get_set (purchase_orders c) h)));
   VStr (group c);
   VNum (adjustment c);
   flag_value (manual_override c);
   VStr "=D:D - E:E - K:K";
   VStr (notes c);
   VStr (join ", " (get_list (cancelled_items c) h))].

End to_row.

(** An item that [", ".join] and the split at commas give back as it is:
    not empty, without a comma, without white space around it. *)
Definition clean (x : string) : Prop :=
  x ≠ "" ∧ has_char comma x = false ∧ strip x = x.

(** A row of texts that has, wherever the row of values has a string, that
    string. *)
Definition texts (row : list value) (srow : list string) : Prop :=
  Forall2 (λ v s, ∀ s', v = VStr s' → s = s') row srow.

End sheet.

(** ** Vocabulary for the loop of [update_clusters] *)

Module invariants.
Import clusters.

(** The state of the loop of [update_clusters] as far as the clusters it
    has created go: [st.1] lists them, each allocated at or after [n0]
    together with the sets that [Cluster(group)] gave it, and the working
    dict names no other cluster. *)
Definition created_inv (n0 : ref) (st : list ref * gmap string ref) (h : heap)
    : Prop :=
  NoDup st.1
  ∧ (∀ r, r ∈ st.1 →
       n0 ≤ r ∧ r + 6 ≤ next h ∧ orders (get_obj r h) = r + 1
       ∧ trackings (get_obj r h) = r + 2)
  ∧ (∀ r r', r ∈ st.1 → r' ∈ st.1 → r ≠ r' → r + 6 ≤ r' ∨ r' + 6 ≤ r)
  ∧ (∀ o r, st.2 !! o = Some r → r ∈ st.1)
  ∧ n0 ≤ next h.

(** The objects allocated before [n] are in [h'] what they are in [h]. *)
Definition same_below (n : ref) (h h' : heap) : Prop :=
  ∀ r, r < n →
    get_obj r h' = get_obj r h ∧ get_set r h' = get_set r h
    ∧ get_list r h' = get_list r h.

(** The cluster [r] holds the tracking: its number and all its order IDs. *)
Definition holds (r : ref) (t : Tracking) (h : heap) : Prop :=
  tracking.tracking_number t ∈ get_set (trackings (get_obj r h)) h
  ∧ ∀ o, o ∈ tracking.order_ids t → o ∈ get_set (orders (get_obj r h)) h.

End invariants.

(** ** Rows and stores for further examples *)

Module sheet_examples.
Import clusters examples.

(** The texts of the row that [to_row] writes for cluster 20 of
    [two_clusters], with the amounts and the flag as a sheet shows them. *)
Definition row_20 : list string :=
  ["O1"; ""; "a@x"; "10.0"; ""; ""; "2020-01-02"; ""; "'P1"; "g "; "";
   "TRUE"; "=D:D - E:E - K:K"; "first"; "tv"].

(** The cluster read from a sheet row with order O1, and the store that
    holds it. *)
Definition sheet_cluster : ref * heap :=
  match from_row read_float ["Orders"] ["O1"] module_heap with
  | inr (c0, h0) => (c0, h0)
  | inl _ => (0, module_heap)
  end.

(** A cluster of group g under manual override, read from a sheet row with
    order O1 and tracking T1, and the store that holds it. *)
Definition override_cluster : ref * heap :=
  match from_row read_float ["Orders"; "Trackings"; "Group"; "Manual Override"]
          ["O1"; "T1"; "g"; "TRUE"] module_heap with
  | inr (c0, h0) => (c0, h0)
  | inl _ => (0, module_heap)
  end.

(** A second shipment of order O1. *)
Definition second_shipment : Tracking :=
  tracking.mkTracking "T2" "g" ["O1"] "2020-01-02" "2020-01-06" "m@x".

End sheet_examples.

(** ** Vocabulary for the result of [merge_orders] *)

Module merged.
Import logic.

(** Two clusters that a pass of [run_merge_iteration] would merge: they
    have a purchase order in common and the same group, or an email ID in
    common. *)
Definition shares (a b : ref) (h : heap) : Prop :=
  (group (get_obj a h) = group (get_obj b h)
   ∧ ∃ po, po ∈ get_set (purchase_orders (get_obj a h)) h
           ∧ po ∈ get_set (purchase_orders (get_obj b h)) h)
  ∨ ∃ e, e ∈ get_set (email_ids (get_obj a h)) h
         ∧ e ∈ get_set (email_ids (get_obj b h)) h.

(** The two dicts of a pass hold every key of the cluster. *)
Definition covers (em : gmap string ref) (pm : gmap (string * string) ref)
    (a : ref) (h : heap) : Prop :=
  (∀ e, e ∈ get_set (email_ids (get_obj a h)) h → is_Some (em !! e))
  ∧ (∀ po, po ∈ get_set (purchase_orders (get_obj a h)) h →
       is_Some (pm !! (po, group (get_obj a h)))).

(** [m], started in a store that satisfies [P], ends in one that satisfies
    [Q]. *)
Definition triple (P : heap → Prop) {X} (m : M X) (Q : heap → Prop) : Prop :=
  ∀ h, P h → Q (m h).2.

(** The stores [h'] that a [merge_with] started in [h] passes through: no
    cluster has changed its set attributes, no set has lost an element, and
    for each pair of [D] the first set holds what the second held in [h]. *)
Definition merging (h : heap) (D : list (ref * ref)) (h' : heap) : Prop :=
  (∀ r, set_attrs (get_obj r h') = set_attrs (get_obj r h))
  ∧ (∀ s, get_set s h ⊆ get_set s h')
  ∧ (∀ a b, (a, b) ∈ D → get_set b h ⊆ get_set a h').

(** What the cluster [c] held in its five sets in the store [h], the
    cluster [c'] holds in the store [h']. *)
Definition absorbed (c : ref) (h : heap) (c' : ref) (h' : heap) : Prop :=
  let C := get_obj c h in
  let C' := get_obj c' h' in
  get_set (orders C) h ⊆ get_set (orders C') h'
  ∧ get_set (trackings C) h ⊆ get_set (trackings C') h'
  ∧ get_set (purchase_orders C) h ⊆ get_set (purchase_orders C') h'
  ∧ get_set (email_ids C) h ⊆ get_set (email_ids C') h'
  ∧ get_set (non_reimbursed_trackings C) h
    ⊆ get_set (non_reimbursed_trackings C') h'.

End merged.

(** ** Vocabulary for the cost ledgers *)

Module ledgers.
Import group_site_manager.

(** A character that [clean_csv_tracking] keeps: a digit, a capital letter
    or a comma. *)
Definition tracking_char (c : ascii) : bool :=
  let n := nat_of_ascii c in
  ((48 <=? n) && (n <=? 57)) || ((65 <=? n) && (n <=? 90)) || (n =? 44).

Fixpoint all_chars (p : ascii → bool) (s : string) : bool :=
  match s with
  | EmptyString => true
  | String c s' => p c && all_chars p s'
  end.

(** The map of purchase-order costs of a result, or its exception. *)
Definition po_costs (r : pyerror + ReconResult) : pyerror + PoCostDict :=
  match r with
  | inl e => inl e
  | inr (_, po_to_cost_map) => inr po_to_cost_map
  end.

(** Two rows of a Melul export that differ at most in the VOID and VERIFIED
    columns. *)
Definition same_but_flags (row row' : gmap string string) : Prop :=
  is_Some (row !! "VOID") ∧ is_Some (row !! "VERIFIED")
  ∧ ∃ void verified, row' = <["VOID" := void]> (<["VERIFIED" := verified]> row).

(** The accumulated cost of an entry of the ledger. *)
Definition cost_of (info : TrackingInfo) : number := info.1.2.

End ledgers.

(** ** [lib/group_site_manager.py]: the portals *)

Module portals.
Import group_site_manager.

Section world.
Context {World : Type}.

(** Sequencing of operations on the world: an exception ends the run. *)
Definition areturn {A} (a : A) : @action World A := λ w, (Returns a, w).
Definition araise {A} (e : exc) : @action World A := λ w, (Raises e, w).
Definition abind {A B} (m : @action World A) (k : A → @action World B)
    : @action World B :=
  λ w, match m w with
       | (Returns a, w') => k a w'
       | (Raises e, w') => (Raises e, w')
       end.

End world.

Notation "'run*' x ':=' m 'in' k" := (abind m (λ x, k))
  (at level 10, x name, m at level 100, k at level 200, only parsing).

Definition EXPORT_WAIT_TIMEOUT_SECONDS : nat := 60.

Section wait_for_csv.
Context {World : Type}.

(** [os.listdir(MELUL_EXPORTS_FOLDER)], reading a file with
    [csv.DictReader], and [time.sleep(1)]. *)
Context (MELUL_EXPORTS_FOLDER : string).
Context (listdir : @action World (list string)).
Context (read_csv : string → @action World (list (gmap string string))).
Context (sleep : @action World unit).

(** The loop of [_wait_for_csv] over [range(n)], and what follows it. *)
Fixpoint wait_loop (n : nat) : @action World (list (gmap string string)) :=
  match n with
  | 0 => areturn []
  | S n' =>
      run* list_dir_result := listdir in
      match list_dir_result with
      | first :: _ => read_csv (MELUL_EXPORTS_FOLDER +:+ "/" +:+ first)
      | [] => run* _ := sleep in wait_loop n'
      end
  end.

(** [_wait_for_csv] *)
Definition _wait_for_csv : @action World (list (gmap string string)) :=
  wait_loop EXPORT_WAIT_TIMEOUT_SECONDS.

(** The world after [k] rounds in which the folder is listed empty and the
    second is slept; [None] when one of them goes otherwise. *)
Fixpoint empty_polls (k : nat) (w : World) : option World :=
  match k with
  | 0 => Some w
  | S k' =>
      match listdir w with
      | (Returns [], w1) =>
          match sleep w1 with
          | (Returns _, w2) => empty_polls k' w2
          | _ => None
          end
      | _ => None
      end
  end.

End wait_for_csv.

Section usa_entries.
Context {World Entry : Type}.

(** The request of [_get_usa_tracking_entries] for the page that starts at
    [start]: [json_result['totals']['items']] and [json_result['data']]. *)
Context (get_page : nat → @action World (Z * list Entry)).

(** The [while True] loop of [_get_usa_tracking_entries], with a bound on
    the number of requests: [None] when the bound is used up. *)
Fixpoint entries_loop (fuel : nat) (start : nat) (result : list Entry)
    : @action World (option (list Entry)) :=
  match fuel with
  | 0 => areturn None
  | S fuel' =>
      run* json_result := get_page start in
      let total_items := json_result.1 in
      let result := result ++ json_result.2 in
      let start := start + 100 in
      if (total_items <=? Z.of_nat start)%Z then areturn (Some result)
      else entries_loop fuel' start result
  end.

(** [_get_usa_tracking_entries] *)
Definition _get_usa_tracking_entries (fuel : nat)
    : @action World (option (list Entry)) :=
  entries_loop fuel 0 [].

End usa_entries.

(** An entry of [config['groups']]. *)
Record group_config := mkGroupConfig {
  username : option string;
  password : option string;
  archives : option (list string)
}.

(** Truth value of [d.get(key)]. *)
Definition get_truthy (v : option string) : bool :=
  match v with
  | Some s => str_truthy s
  | None => false
  end.

(** [groups_dict[key].append(x)] on a [defaultdict(list)], which keeps its
    keys in the order in which they came. *)
Fixpoint append_to {T} (d : list (string * list T)) (key : string) (x : T)
    : list (string * list T) :=
  match d with
  | [] => [(key, [x])]
  | (k, l) :: rest =>
      if decide (k = key) then (k, l ++ [x]) :: rest
      else (k, l) :: append_to rest key x
  end.

(** [for x in xs: groups_dict[group(x)].append(x)] *)
Definition group_by {T} (group : T → string) (xs : list T)
    : list (string * list T) :=
  foldl (λ d x, append_to d (group x) x) [] xs.

Section manager.
Context {World : Type}.

(** [self.config['groups']], [self.melul_portal_groups], and the methods
    that drive a browser, the mail box or the web. *)
Context (config_groups : gmap string group_config).
Context (melul_portal_groups : list string).
Context (_upload_melul : list string → string → string → string → @action World unit).
Context (_upload_usa _upload_yrcw _upload_bfmr _upload_oaks _upload_emb
           : list string → @action World unit).
Context (_upload_gibstrat : string → list string → @action World unit).

(** [self.config['groups'][group]['username']] and [['password']]. *)
Definition credentials (group : string) : option (string * string) :=
  match config_groups !! group with
  | Some group_config =>
      match username group_config, password group_config with
      | Some u, Some p => Some (u, p)
      | _, _ => None
      end
  | None => None
  end.

(** The second loop of [GroupSiteManager.upload]. *)
Fixpoint upload_loop (items : list (string * list Tracking)) : @action World unit :=
  match items with
  | [] => areturn tt
  | (group, trackings) :: rest =>
      let numbers := tracking.tracking_number <$> trackings in
      match config_groups !! group with
      | None => araise (Foreign "KeyError")
      | Some group_config =>
          if get_truthy (password group_config)
             && get_truthy (username group_config)
          then run* _ := _upload_to_group melul_portal_groups credentials
                           _upload_melul _upload_usa _upload_yrcw _upload_bfmr
                           _upload_oaks _upload_emb _upload_gibstrat
                           numbers group in
               upload_loop rest
          else upload_loop rest
      end
  end.

(** [GroupSiteManager.upload] *)
Definition upload (trackings : list Tracking) : @action World unit :=
  upload_loop (group_by tracking.group trackings).

(** The methods that fetch the costs of one group, the archive manager,
    and the look into the folder of reports. *)
Context (_get_bfmr_costs : @action World TrackingInfoDict).
Context (_melul_get_tracking_pos_costs_maps
           : string → string → string → @action World ReconResult).
Context (_get_usa_tracking_pos_prices _get_yrcw_tracking_pos_prices
         _get_oaks_tracking_pos_prices _get_emb_tracking_pos_prices
           : @action World ReconResult).
Context (_get_gibstrat_tracking_pos_prices : string → @action World ReconResult).
Context (has_archive : string → @action World bool).
Context (put_archive : string → PoCostDict → TrackingInfoDict → @action World unit).
Context (get_archive : string → @action World (PoCostDict * TrackingInfoDict)).
Context (recon_folder_exists : @action World bool).
Context (recon_folder_listdir : @action World (list string)).
Context (_recon_via_csvs : string → @action World ReconResult).

(** [d.update(e)]: the entries of [e] replace those of [d]. *)
Definition dict_update {K} `{Countable K} {V} (d e : gmap K V) : gmap K V := e ∪ d.

(** The loop over [group_config['archives']]. *)
Fixpoint archive_loop (username password : string) (archives : list string)
    (st : ReconResult) : @action World ReconResult :=
  match archives with
  | [] => areturn st
  | archive_group :: rest =>
      let '(trackings_info, po_cost) := st in
      run* has := has_archive archive_group in
      run* _ :=
        (if negb has then
           run* fetched := _melul_get_tracking_pos_costs_maps archive_group
                             username password in
           put_archive archive_group fetched.2 fetched.1
         else areturn tt) in
      run* archive := get_archive archive_group in
      archive_loop username password rest
        (dict_update trackings_info archive.2, dict_update po_cost archive.1)
  end.

(** [GroupSiteManager.get_new_tracking_pos_costs_maps] *)
Definition get_new_tracking_pos_costs_maps (group : string)
    : @action World ReconResult :=
  if decide (group = "bfmr") then
    run* costs := _get_bfmr_costs in areturn (costs, ∅)
  else if contains melul_portal_groups group then
    match config_groups !! group with
    | None => araise (Foreign "KeyError")
    | Some group_config =>
        match username group_config, password group_config with
        | Some username, Some password =>
            run* fetched := _melul_get_tracking_pos_costs_maps group username
                              password in
            match archives group_config with
            | Some archives => archive_loop username password archives fetched
            | None => areturn fetched
            end
        | _, _ => araise (Foreign "KeyError")
        end
    end
  else if decide (group = "usa") then _get_usa_tracking_pos_prices
  else if decide (group = "yrcw") then _get_yrcw_tracking_pos_prices
  else if decide (group = "oaks") then _get_oaks_tracking_pos_prices
  else if decide (group = "dtmd" ∨ group = "gibstrat")
       then _get_gibstrat_tracking_pos_prices group
  else if decide (group = "embdeals") then _get_emb_tracking_pos_prices
  else
    run* folder := recon_folder_exists in
    if folder then
      run* names := recon_folder_listdir in
      if contains names group then _recon_via_csvs group
      else areturn (∅, ∅)
    else areturn (∅, ∅).

End manager.

(** What the archives that the loop has read hold, for each archive group
    read at some state of the world. *)
Definition archive_read {World}
    (get_archive : string → @action World (PoCostDict * TrackingInfoDict))
    (archive_group : string) (content : PoCostDict * TrackingInfoDict) : Prop :=
  ∃ w1 w2, get_archive archive_group w1 = (Returns content, w2).

End portals.

(** ** [tracking_retriever.py] *)

Module tracking_retriever.
Import group_site_manager portals.

(** [class Tracking] of this file. *)
Record Tracking := mkTracking {
  tracking_number : string;
  group : string;
  order_number : string
}.

(** [p in s] on strings. *)
Fixpoint is_infix (p s : string) : bool :=
  String.prefix p s
  || match s with
     | EmptyString => false
     | String _ s' => is_infix p s'
     end.

(** [TrackingRetriever.get_buying_group], on [self.config['groups']] as the
    sequence of its entries, each with what it has under ['keys']. *)
Fixpoint buying_group_loop (groups : list (string * option (list string)))
    (raw_email : string) : pyerror + string :=
  match groups with
  | [] => inl (OtherError "Unknown buying group")
  | (group, entry) :: rest =>
      match entry with
      | None => inl KeyError
      | Some group_keys =>
          if existsb (λ group_key, is_infix (upper group_key) raw_email)
               group_keys
          then inr group
          else buying_group_loop rest raw_email
      end
  end.

Definition get_buying_group (groups : list (string * option (list string)))
    (raw_email : string) : pyerror + string :=
  buying_group_loop groups (upper raw_email).

Definition newline : ascii := ascii_of_nat 10.

(** A character of [[0-9\-]]. *)
Definition id_char (c : ascii) : bool :=
  let n := nat_of_ascii c in
  ((48 <=? n) && (n <=? 57)) || (n =? 45).

(** [s] without the prefix [p], when it has it. *)
Fixpoint strip_prefix (p s : string) : option string :=
  match p, s with
  | EmptyString, _ => Some s
  | String a p', String b s' =>
      if Ascii.eqb a b then strip_prefix p' s' else None
  | String _ _, EmptyString => None
  end.

(** [orderId%3D([0-9\-]+)] matched where [s] starts: group 1. *)
Definition order_id_here (s : string) : option string :=
  match strip_prefix "orderId%3D" s with
  | Some rest =>
      match take_chars id_char rest with
      | EmptyString => None
      | order_id => Some order_id
      end
  | None => None
  end.

(** [re.match(r'.*orderId%3D([0-9\-]+)', s)]: the greedy [.*] runs over the
    characters of the first line, and the rest of the pattern is tried from
    the far end of that run backwards. *)
Fixpoint order_from_url (s : string) : option string :=
  match s with
  | EmptyString => order_id_here s
  | String c s' =>
      if Ascii.eqb c newline then order_id_here s
      else match order_from_url s' with
           | Some order_id => Some order_id
           | None => order_id_here s
           end
  end.

(** [TrackingRetriever.get_order_id_from_url]: where nothing matches,
    [match] is [None] and [match.group(1)] raises [AttributeError]. *)
Definition get_order_id_from_url (url : string) : pyerror + string :=
  match order_from_url url with
  | Some order_id => inr order_id
  | None => inl (OtherError "AttributeError")
  end.

Section get_trackings.
Context {World : Type}.

(** [[op(x) for x in xs]] *)
Fixpoint for_each {A B} (op : A → @action World B) (xs : list A)
    : @action World (list B) :=
  match xs with
  | [] => areturn []
  | x :: rest =>
      run* y := op x in
      run* ys := for_each op rest in
      areturn (y :: ys)
  end.

(** The mail box and the browser. *)
Context (get_email_ids : @action World (list string)).
Context (get_tracking : string → @action World Tracking).

(** [TrackingRetriever.get_trackings] *)
Definition get_trackings : @action World (list (string * list Tracking)) :=
  run* email_ids := get_email_ids in
  run* trackings := for_each get_tracking email_ids in
  areturn (group_by group trackings).

End get_trackings.

(** All characters but the newline. *)
Definition one_line (s : string) : bool :=
  ledgers.all_chars (λ c, negb (Ascii.eqb c newline)) s.

End tracking_retriever.

(** ** [get_tracking_numbers.py] *)

Module get_tracking_numbers.
Import clusters group_site_manager portals tracking_retriever.

Section fill_expected_costs.
Context `{SetOrder}.
Context {World : Type}.

(** [expected_costs.get_expected_cost(order_id)] *)
Context (get_expected_cost : string → @action World number).

(** An operation on the world, run beside a store. *)
Definition beside {A} (m : @action World A) : @action (heap * World) A :=
  λ hw, let '(r, w') := m hw.2 in (r, (hw.1, w')).

(** A statement on the store, run beside the world. *)
Definition on_store {A} (m : M A) : @action (heap * World) A :=
  λ hw, let '(a, h') := m hw.1 in (Returns a, (h', hw.2)).

(** [sum(l)]: from the int 0, left to right. *)
Definition py_sum (l : list number) : number := foldl num_add (NInt 0) l.

(** The loop of [fill_expected_costs]. *)
Fixpoint fill_loop (all_clusters : list ref) : @action (heap * World) unit :=
  match all_clusters with
  | [] => areturn tt
  | cluster :: rest =>
      run* order_ids :=
        on_store (let* a := attr cluster orders in λ h, (set_iter (get_set a h), h)) in
      run* costs := beside (for_each get_expected_cost order_ids) in
      let total_expected_cost := py_sum costs in
      run* _ := on_store (modify cluster (set_expected_cost total_expected_cost)) in
      fill_loop rest
  end.

(** [fill_expected_costs], the [ExpectedCosts] object being made before. *)
Definition fill_expected_costs (all_clusters : list ref)
    : @action (heap * World) unit :=
  fill_loop all_clusters.

End fill_expected_costs.

End get_tracking_numbers.

(** ** Vocabulary for the reports in the folder *)

Module reports.

(** The row with the minus signs taken out of its Total. *)
Definition unsigned (row : gmap string string) : gmap string string :=
  match row !! "Total" with
  | Some total => <["Total" := remove_char dash total]> row
  | None => row
  end.

End reports.

(** * Properties *)

(** ** The retrying executor *)

Module retry_spec.
Import group_site_manager examples.

Section attempts.
Context {World A : Type}.
Implicit Types (op : @action World A) (w : World) (es : list exc).

Lemma last_cons_some (e : exc) es : last (e :: es) = Some (default e (last es)).
Proof.
  revert e. induction es as [|e' es IH]; intros e; [done|].
  change (last (e :: e' :: es)) with (last (e' :: es)).
  by rewrite IH.
Qed.

Lemma last_or_cons (l : option exc) (e : exc) es :
  from_option Some l (last (e :: es)) = last (e :: es).
Proof. by rewrite last_cons_some. Qed.

(** The loop started with [last_exc = l]. *)
Lemma attempts_returns n : ∀ op l w k es w1 r w2,
  k < n → failures k op w = Some (es, w1) → op w1 = (Returns r, w2) →
  attempts n op l w = (inl r, w2).
Proof.
  induction n as [|n IH]; intros op l w k es w1 r w2 Hk Hf Hop; [lia|].
  destruct k as [|k]; simpl in *.
  - simplify_eq. by rewrite Hop.
  - destruct (op w) as [[r'|e] w'] eqn:E; [done|].
    destruct (failures k op w') as [[es' w'']|] eqn:F; [|done].
    simplify_eq. by apply (IH _ _ _ k es' w1); [lia|..].
Qed.

Lemma attempts_raises n : ∀ op l w es w1,
  failures n op w = Some (es, w1) →
  attempts n op l w = (inr (from_option Some l (last es)), w1).
Proof.
  induction n as [|n IH]; intros op l w es w1 Hf; simpl in *.
  - by simplify_eq.
  - destruct (op w) as [[r'|e] w'] eqn:E; [done|].
    destruct (failures n op w') as [[es' w'']|] eqn:F; [|done].
    simplify_eq. rewrite (IH _ (Some e) _ _ _ F).
    destruct es' as [|e' es']; [done|].
    change (last (e :: e' :: es')) with (last (e' :: es')).
    by rewrite !last_cons_some.
Qed.

Lemma attempts_exhausted n : ∀ op l w lst w1,
  attempts n op l w = (inr lst, w1) →
  ∃ es, failures n op w = Some (es, w1) ∧ length es = n
        ∧ lst = from_option Some l (last es).
Proof.
  induction n as [|n IH]; intros op l w lst w1 Ha; simpl in *.
  - simplify_eq. by exists [].
  - destruct (op w) as [[r'|e] w'] eqn:E; [done|].
    destruct (IH _ _ _ _ _ Ha) as (es & Hf & Hlen & Hl).
    exists (e :: es). rewrite Hf. split_and!; [done|by simpl; f_equal|].
    rewrite Hl. simpl. destruct es as [|e' es]; [done|].
    change (last (e :: e' :: es)) with (last (e' :: es)).
    by rewrite !last_cons_some.
Qed.

Lemma failures_length k : ∀ op w es w1,
  failures k op w = Some (es, w1) → length es = k.
Proof.
  induction k as [|k IH]; intros op w es w1 Hf; simpl in *; [by simplify_eq|].
  destruct (op w) as [[r'|e] w'] eqn:E; [done|].
  destruct (failures k op w') as [[es' w'']|] eqn:F; [|done].
  simplify_eq. simpl. f_equal. eauto.
Qed.

End attempts.

Section executor.
Context {World A : Type}.
Context (fetch : string → @action World A).
Context (melul_portal_groups : list string).
Context (credentials : string → option (string * string)).
Context (_upload_melul : list string → string → string → string → @action World unit).
Context (_upload_usa _upload_yrcw _upload_bfmr _upload_oaks _upload_emb
           : list string → @action World unit).
Context (_upload_gibstrat : string → list string → @action World unit).

Local Abbreviation upload_body :=
  (upload_once melul_portal_groups credentials _upload_melul _upload_usa
     _upload_yrcw _upload_bfmr _upload_oaks _upload_emb _upload_gibstrat).
Local Abbreviation upload :=
  (_upload_to_group melul_portal_groups credentials _upload_melul _upload_usa
     _upload_yrcw _upload_bfmr _upload_oaks _upload_emb _upload_gibstrat).

(** C9: the retrying executor runs the wrapped operation at most 5 times for a
    cost fetch and at most 10 times for an upload.  When the first [k]
    attempts raise ([k] below the bound) and the next one returns, its result
    is returned as it is.  When all attempts raise, one exception
    "Exceeded retry limit" is raised that carries the last one raised (as
    argument for the fetch, as cause for the upload).  An exception leaves
    the executor only after all attempts of the bound have raised. *)
Theorem retry_bounded :
  (∀ group w k es w1 r w2,
     k < 5 → failures k (fetch group) w = Some (es, w1) →
     fetch group w1 = (Returns r, w2) →
     get_new_tracking_pos_costs_maps_with_retry fetch group w = (Returns r, w2))
  ∧ (∀ group w es w1,
     failures 5 (fetch group) w = Some (es, w1) →
     ∃ e, last es = Some e ∧
       get_new_tracking_pos_costs_maps_with_retry fetch group w
       = (Raises (Exception "Exceeded retry limit" (Some e) None), w1))
  ∧ (∀ group w x w1,
     get_new_tracking_pos_costs_maps_with_retry fetch group w = (Raises x, w1) →
     ∃ es, failures 5 (fetch group) w = Some (es, w1) ∧ length es = 5)
  ∧ (∀ numbers group w k es w1 w2,
     k < 10 → failures k (upload_body numbers group) w = Some (es, w1) →
     upload_body numbers group w1 = (Returns tt, w2) →
     upload numbers group w = (Returns tt, w2))
  ∧ (∀ numbers group w es w1,
     failures 10 (upload_body numbers group) w = Some (es, w1) →
     ∃ e, last es = Some e ∧
       upload numbers group w
       = (Raises (Exception "Exceeded retry limit" None (Some e)), w1))
  ∧ (∀ numbers group w x w1,
     upload numbers group w = (Raises x, w1) →
     ∃ es, failures 10 (upload_body numbers group) w = Some (es, w1)
           ∧ length es = 10).
Proof.
  split_and!.
  - intros group w k es w1 r w2 Hk Hf Hr.
    unfold get_new_tracking_pos_costs_maps_with_retry.
    by rewrite (attempts_returns 5 _ None _ k es w1 r w2 Hk Hf Hr).
  - intros group w es w1 Hf.
    pose proof (failures_length _ _ _ _ _ Hf) as Hlen.
    destruct es as [|e0 es]; [done|].
    exists (default e0 (last es)). split; [apply last_cons_some|].
    unfold get_new_tracking_pos_costs_maps_with_retry.
    rewrite (attempts_raises 5 _ None _ _ _ Hf).
    by rewrite last_cons_some.
  - intros group w x w1.
    unfold get_new_tracking_pos_costs_maps_with_retry.
    destruct (attempts 5 (fetch group) None w) as [[r|lst] w'] eqn:E; [done|].
    intros [= <- <-].
    destruct (attempts_exhausted _ _ _ _ _ _ E) as (es & Hf & Hlen & _); eauto.
  - intros numbers group w k es w1 w2 Hk Hf Hr.
    unfold _upload_to_group, MAX_UPLOAD_ATTEMPTS.
    by rewrite (attempts_returns 10 _ None _ k es w1 tt w2 Hk Hf Hr).
  - intros numbers group w es w1 Hf.
    pose proof (failures_length _ _ _ _ _ Hf) as Hlen.
    destruct es as [|e0 es]; [done|].
    exists (default e0 (last es)). split; [apply last_cons_some|].
    unfold _upload_to_group, MAX_UPLOAD_ATTEMPTS.
    rewrite (attempts_raises 10 _ None _ _ _ Hf).
    by rewrite last_cons_some.
  - intros numbers group w x w1.
    unfold _upload_to_group, MAX_UPLOAD_ATTEMPTS.
    destruct (attempts 10 _ None w) as [[r|lst] w'] eqn:E; [done|].
    intros [= <- <-].
    destruct (attempts_exhausted _ _ _ _ _ _ E) as (es & Hf & Hlen & _); eauto.
Qed.

End executor.

Lemma retry_bounded_witness :
  get_new_tracking_pos_costs_maps_with_retry flaky_fetch "usa" 0 = (Returns 2, 3)
  ∧ ∃ e, _upload_to_group [] (λ _, None) (λ _ _ _ _, no_upload []) no_upload
           no_upload no_upload no_upload no_upload (λ _, no_upload) ["T1"] "usa" 0
         = (Raises (Exception "Exceeded retry limit" None (Some e)), 10).
Proof.
  pose proof (retry_bounded flaky_fetch [] (λ _, None) (λ _ _ _ _, no_upload [])
                no_upload no_upload no_upload no_upload no_upload
                (λ _, no_upload)) as (H1 & _ & _ & _ & H5 & _).
  split.
  - apply (H1 "usa" 0 2 [Foreign "timeout"; Foreign "timeout"] 2 2 3);
      [lia | reflexivity | reflexivity].
  - destruct (H5 ["T1"] "usa" 0 (replicate 10 (Foreign "down")) 10) as (e & _ & He);
      [reflexivity|].
    exists e. exact He.
Defined.

End retry_spec.

(** ** The store *)

Module store_facts.

Lemma get_set_put_set_eq r X h : get_set r (put_set r X h) = X.
Proof. unfold get_set, put_set; simpl. by rewrite lookup_insert_eq. Qed.

Lemma get_set_put_set_ne r r' X h :
  r ≠ r' → get_set r' (put_set r X h) = get_set r' h.
Proof. intros. unfold get_set, put_set; simpl. by rewrite lookup_insert_ne. Qed.

Lemma get_set_put_obj r r' c h : get_set r' (put_obj r c h) = get_set r' h.
Proof. done. Qed.

Lemma get_set_put_list r r' l h : get_set r' (put_list r l h) = get_set r' h.
Proof. done. Qed.

Lemma get_list_put_list_eq r l h : get_list r (put_list r l h) = l.
Proof. unfold get_list, put_list; simpl. by rewrite lookup_insert_eq. Qed.

Lemma get_list_put_list_ne r r' l h :
  r ≠ r' → get_list r' (put_list r l h) = get_list r' h.
Proof. intros. unfold get_list, put_list; simpl. by rewrite lookup_insert_ne. Qed.

Lemma get_list_put_set r r' X h : get_list r' (put_set r X h) = get_list r' h.
Proof. done. Qed.

Lemma get_list_put_obj r r' c h : get_list r' (put_obj r c h) = get_list r' h.
Proof. done. Qed.

Lemma get_obj_put_obj_eq r c h : get_obj r (put_obj r c h) = c.
Proof. unfold get_obj, put_obj; simpl. by rewrite lookup_insert_eq. Qed.

Lemma get_obj_put_obj_ne r r' c h :
  r ≠ r' → get_obj r' (put_obj r c h) = get_obj r' h.
Proof. intros. unfold get_obj, put_obj; simpl. by rewrite lookup_insert_ne. Qed.

Lemma get_obj_put_set r r' X h : get_obj r' (put_set r X h) = get_obj r' h.
Proof. done. Qed.

Lemma get_obj_put_list r r' l h : get_obj r' (put_list r l h) = get_obj r' h.
Proof. done. Qed.

End store_facts.

(** ** The merge engine *)

Module merge_spec.
Import clusters store_facts examples.

Lemma first_match_Some {K} `{Countable K} {V} (d : gmap K V) keys v :
  first_match d keys = Some v → ∃ k, k ∈ keys ∧ d !! k = Some v.
Proof.
  induction keys as [|k keys IH]; simpl; [done|].
  destruct (d !! k) as [v'|] eqn:E.
  - intros [= ->]. exists k. split; [left|done].
  - intros (k' & ? & ?)%IH. exists k'. split; [by right|done].
Qed.

Lemma first_match_None {K} `{Countable K} {V} (d : gmap K V) keys :
  first_match d keys = None ↔ ∀ k, k ∈ keys → d !! k = None.
Proof.
  induction keys as [|k keys IH]; simpl.
  - split; [|done]. intros _ k Hk. by apply elem_of_nil in Hk.
  - destruct (d !! k) as [v'|] eqn:E.
    + split; [done|]. intros Hall. specialize (Hall k). rewrite E in Hall.
      by discriminate Hall; left.
    + rewrite IH. split.
      * intros Hall k' [->|?]%elem_of_cons; auto.
      * intros Hall k' ?. apply Hall. by right.
Qed.

Lemma first_match_is_Some {K} `{Countable K} {V} (d : gmap K V) keys k :
  k ∈ keys → is_Some (d !! k) → is_Some (first_match d keys).
Proof.
  intros Hk [v Hv]. destruct (first_match d keys) eqn:E; [done|].
  rewrite first_match_None in E. rewrite (E k Hk) in Hv. done.
Qed.

Lemma foldl_insert_lookup {K} `{Countable K} {V} {X} (f : X → K) (v : V)
    (keys : list X) (d : gmap K V) k :
  foldl (λ d x, <[f x := v]> d) d keys !! k
  = if bool_decide (k ∈ f <$> keys) then Some v else d !! k.
Proof.
  revert d. induction keys as [|x keys IH]; intros d; simpl.
  - done.
  - rewrite IH. destruct (decide (k ∈ f <$> keys)) as [Hin|Hnin].
    + rewrite !bool_decide_eq_true_2; [done| by right |done].
    + rewrite (bool_decide_eq_false_2 _ Hnin).
      destruct (decide (k = f x)) as [->|Hne].
      * rewrite lookup_insert_eq. rewrite bool_decide_eq_true_2; [done|left].
      * rewrite lookup_insert_ne by done.
        rewrite bool_decide_eq_false_2; [done|].
        by intros [?|?]%elem_of_cons.
Qed.

#[local] Arguments fill_email_po_group_maps : simpl never.
#[local] Arguments find_by_shared_attr : simpl never.
#[local] Arguments merge_with : simpl never.

Section merging.
Context `{SetOrder}.

Implicit Types (h : heap) (em : gmap string ref) (pm : gmap (string * string) ref).

(** The keys under which [fill_email_po_group_maps] stores a cluster. *)
Lemma fill_maps_lookup cluster em pm h :
  let c := get_obj cluster h in
  let filled := fill_email_po_group_maps cluster em pm h in
  (∀ e, filled.1 !! e
        = if bool_decide (e ∈ get_set (email_ids c) h) then Some cluster
          else em !! e)
  ∧ (∀ po g, filled.2 !! (po, g)
        = if bool_decide (po ∈ get_set (purchase_orders c) h ∧ g = group c)
          then Some cluster else pm !! (po, g)).
Proof.
  unfold fill_email_po_group_maps. simpl. split.
  - intros e. rewrite (foldl_insert_lookup (λ x, x)). rewrite list_fmap_id.
    erewrite bool_decide_ext; [done|]. apply set_iter_elem_of.
  - intros po g.
    rewrite (foldl_insert_lookup (λ po, (po, group (get_obj cluster h)))).
    erewrite bool_decide_ext; [done|]. rewrite list_elem_of_fmap. split.
    + intros (po' & [= -> ->] & Hin). by apply set_iter_elem_of in Hin.
    + intros [Hin ->]. exists po. by rewrite set_iter_elem_of.
Qed.

Lemma merge_loop_cons c cs result em pm h :
  merge_loop (c :: cs) result em pm h
  = match find_by_shared_attr c em pm h with
    | Some to_merge =>
        let h1 := (merge_with to_merge c h).2 in
        let filled := fill_email_po_group_maps to_merge em pm h1 in
        merge_loop cs result filled.1 filled.2 h1
    | None =>
        let filled := fill_email_po_group_maps c em pm h in
        merge_loop cs (result ++ [c]) filled.1 filled.2 h
    end.
Proof.
  cbn [merge_loop]. destruct (find_by_shared_attr c em pm h); [|by destruct fill_email_po_group_maps].
  destruct (merge_with r c h) as [[] h1]. by destruct fill_email_po_group_maps.
Qed.

(** One pass keeps what it has collected and adds at most one cluster per
    cluster it visits. *)
Lemma merge_loop_length cs : ∀ result em pm h,
  length result ≤ length (merge_loop cs result em pm h).1
  ≤ length result + length cs.
Proof.
  induction cs as [|c cs IH]; intros result em pm h; [simpl; lia|].
  rewrite merge_loop_cons. cbn [length].
  destruct (find_by_shared_attr c em pm h) as [to_merge|]; cbv zeta.
  - match goal with
    | |- context [merge_loop cs ?r ?e ?p ?h'] => specialize (IH r e p h')
    end. lia.
  - match goal with
    | |- context [merge_loop cs ?r ?e ?p ?h'] => specialize (IH r e p h')
    end. rewrite length_app in IH. cbn [length] in IH. lia.
Qed.

(** A pass that drops no cluster merges nothing: it returns the clusters
    in their order and leaves the store as it is. *)
Lemma merge_loop_same_length cs : ∀ result em pm h,
  length (merge_loop cs result em pm h).1 = length result + length cs →
  merge_loop cs result em pm h = (result ++ cs, h).
Proof.
  induction cs as [|c cs IH]; intros result em pm h.
  - intros _. simpl. by rewrite app_nil_r.
  - rewrite merge_loop_cons. cbn [length].
    destruct (find_by_shared_attr c em pm h) as [to_merge|]; cbv zeta.
    + match goal with
      | |- context [merge_loop cs ?r ?e ?p ?h'] =>
          pose proof (merge_loop_length cs r e p h')
      end. lia.
    + intros Hlen. rewrite IH; [by rewrite <- app_assoc|].
      rewrite length_app. cbn [length]. lia.
Qed.

Lemma run_merge_iteration_length cs h :
  length (run_merge_iteration cs h).1 ≤ length cs.
Proof. apply (merge_loop_length cs [] ∅ ∅ h). Qed.

Lemma run_merge_iteration_same_length cs h :
  length (run_merge_iteration cs h).1 = length cs →
  run_merge_iteration cs h = (cs, h).
Proof. intros Hlen. by apply (merge_loop_same_length cs [] ∅ ∅ h). Qed.

(** The first cluster of a pass finds both maps empty and is kept. *)
Lemma run_merge_iteration_nonempty c cs h :
  1 ≤ length (run_merge_iteration (c :: cs) h).1.
Proof.
  unfold run_merge_iteration. rewrite merge_loop_cons.
  assert (find_by_shared_attr c ∅ ∅ h = None) as ->.
  { unfold find_by_shared_attr.
    assert (∀ {K} `{Countable K} (keys : list K),
              first_match (∅ : gmap K ref) keys = None) as Hempty.
    { intros K ? ? keys. apply first_match_None. intros k _. apply lookup_empty. }
    by rewrite !Hempty. }
  cbv zeta.
  match goal with
  | |- context [merge_loop cs ?r ?e ?p ?h'] =>
      pose proof (merge_loop_length cs r e p h') as Hl
  end. cbn [length app] in *. lia.
Qed.

Lemma passes_S k cs h :
  passes (S k) cs h
  = passes k (run_merge_iteration cs h).1 (run_merge_iteration cs h).2.
Proof. cbn [passes]. by destruct (run_merge_iteration cs h). Qed.

Lemma merge_orders_loop_S fuel cs h :
  merge_orders_loop (S fuel) cs h
  = if decide (length (run_merge_iteration cs h).1 = length cs)
    then Some (run_merge_iteration cs h)
    else merge_orders_loop fuel (run_merge_iteration cs h).1
           (run_merge_iteration cs h).2.
Proof. cbn [merge_orders_loop]. by destruct (run_merge_iteration cs h). Qed.

(** The loop of [merge_orders]: after some [k] passes, each of which drops
    a cluster, a pass changes nothing, and there the loop ends. *)
Lemma merge_orders_loop_reaches n : ∀ cs h,
  length cs ≤ n →
  ∃ k, k ≤ length cs - 1
    ∧ run_merge_iteration (passes k cs h).1 (passes k cs h).2 = passes k cs h
    ∧ (∀ j, j < k → length (passes (S j) cs h).1 < length (passes j cs h).1)
    ∧ (∀ fuel, k < fuel → merge_orders_loop fuel cs h = Some (passes k cs h))
    ∧ (∀ fuel, fuel ≤ k → merge_orders_loop fuel cs h = None).
Proof.
  induction n as [|n IH]; intros cs h Hn.
  - destruct cs; [|simpl in Hn; lia]. exists 0. split_and!; [done|done|lia| |].
    + intros [|fuel] ?; [lia|]. done.
    + intros fuel ?. by replace fuel with 0 by lia.
  - destruct (run_merge_iteration cs h) as [cs' h'] eqn:E.
    pose proof (run_merge_iteration_length cs h) as Hle. rewrite E in Hle.
    cbn [fst] in Hle.
    destruct (decide (length cs' = length cs)) as [Heq|Hne].
    + pose proof (run_merge_iteration_same_length cs h) as Hsame.
      rewrite E in Hsame. specialize (Hsame Heq). simplify_eq.
      exists 0. cbn [passes fst snd]. split_and!; [lia|done|lia| |].
      * intros [|fuel] ?; [lia|]. rewrite merge_orders_loop_S, E.
        by rewrite decide_True.
      * intros fuel ?. by replace fuel with 0 by lia.
    + assert (1 ≤ length cs') as Hpos.
      { destruct cs as [|c cs]; [simpl in *; lia|].
        pose proof (run_merge_iteration_nonempty c cs h) as Hp.
        by rewrite E in Hp. }
      destruct (IH cs' h') as (k & Hk & Hfix & Hdec & Hloop & Hout); [lia|].
      exists (S k). rewrite passes_S, E. cbn [fst snd].
      split_and!; [lia|done| | |].
      * intros [|j] Hj.
        -- rewrite passes_S, E. cbn [passes fst snd]. lia.
        -- rewrite (passes_S (S j) cs h), (passes_S j cs h), E. apply Hdec. lia.
      * intros [|fuel] Hf; [lia|]. rewrite merge_orders_loop_S, E.
        cbn [fst snd]. rewrite decide_False by done. apply Hloop. lia.
      * intros [|fuel] Hf; [done|]. rewrite merge_orders_loop_S, E.
        cbn [fst snd]. rewrite decide_False by done. apply Hout. lia.
Qed.

(** C6: [merge_orders] terminates.  A pass of [run_merge_iteration] never
    lengthens the list.  For some [k] of at most the initial count less one
    (zero for the empty list), each of the first [k] passes shortens the
    list and the state after them is a fixed point of the pass; the loop
    makes these [k] passes and the one that finds the count unchanged, and
    returns the fixed point: any bound above [k] on the number of passes
    gives this result, no bound up to [k] does. *)
Theorem merge_orders_terminates cs h :
  length (run_merge_iteration cs h).1 ≤ length cs
  ∧ ∃ k, k ≤ length cs - 1
      ∧ (∀ j, j < k → length (passes (S j) cs h).1 < length (passes j cs h).1)
      ∧ run_merge_iteration (passes k cs h).1 (passes k cs h).2 = passes k cs h
      ∧ merge_orders cs h = Some (passes k cs h)
      ∧ (∀ fuel, k < fuel → merge_orders_loop fuel cs h = Some (passes k cs h))
      ∧ (∀ fuel, fuel ≤ k → merge_orders_loop fuel cs h = None).
Proof.
  split; [apply run_merge_iteration_length|].
  destruct (merge_orders_loop_reaches (length cs) cs h)
    as (k & Hk & Hfix & Hdec & Hloop & Hout); [done|].
  exists k. split_and!; try done.
  unfold merge_orders. apply Hloop. lia.
Qed.

(** C5: [merge_orders] is idempotent.  It returns a list and a store on which
    a further pass merges nothing, so that applying [merge_orders] to its
    output returns the same list of clusters (same count, same order) and
    leaves every object of the store as it is. *)
Theorem merge_orders_idempotent cs h :
  ∃ cs' h', merge_orders cs h = Some (cs', h')
    ∧ run_merge_iteration cs' h' = (cs', h')
    ∧ merge_orders cs' h' = Some (cs', h').
Proof.
  destruct (merge_orders_loop_reaches (length cs) cs h)
    as (k & Hk & Hfix & _ & Hloop & _); [done|].
  destruct (passes k cs h) as [cs' h'] eqn:E. cbn [fst snd] in Hfix.
  exists cs', h'. split_and!; [|done|].
  - unfold merge_orders. apply Hloop. lia.
  - unfold merge_orders. rewrite merge_orders_loop_S, Hfix. cbn [fst].
    by rewrite decide_True.
Qed.


End merging.


End merge_spec.

(** ** A small program logic for the store *)

Module logic_facts.
Import clusters store_facts logic.

Lemma wp_bind {X Y} (m : M X) (k : X → M Y) Q h :
  wp m (λ a h', wp (k a) Q h') h → wp (bind m k) Q h.
Proof. unfold wp, bind. by destruct (m h). Qed.

Lemma wp_ret {X} (a : X) (Q : X → heap → Prop) h : Q a h → wp (ret a) Q h.
Proof. done. Qed.

Section rules.
Context (self other : ref).
Implicit Types (A B : Cluster) (S : ref → gset string) (L : ref → list string).

Lemma wp_attr_self {X} (f : Cluster → X) Q A B S L h :
  snap self other A B S L h → Q (f A) h → wp (attr self f) Q h.
Proof. intros (<- & _) HQ. exact HQ. Qed.

Lemma wp_attr_other {X} (f : Cluster → X) Q A B S L h :
  snap self other A B S L h → Q (f (other_view self other A B)) h →
  wp (attr other f) Q h.
Proof. intros (_ & <- & _) HQ. exact HQ. Qed.

Lemma wp_modify g (Q : unit → heap → Prop) A B S L h :
  snap self other A B S L h →
  (∀ h', snap self other (g A) B S L h' → Q tt h') →
  wp (modify self g) Q h.
Proof.
  intros (HA & HB & HS & HL) HQ. unfold wp, modify; cbn [fst snd]. apply HQ.
  unfold snap, other_view in *.
  rewrite get_obj_put_obj_eq, HA. split_and!; [done| |done..].
  destruct (decide (self = other)) as [<-|Hne].
  - by rewrite get_obj_put_obj_eq.
  - by rewrite get_obj_put_obj_ne.
Qed.

Lemma wp_skip (Q : unit → heap → Prop) h : Q tt h → wp (ret tt) Q h.
Proof. done. Qed.

Lemma wp_set_put a X (Q : unit → heap → Prop) A B S L h :
  snap self other A B S L h →
  (∀ h', snap self other A B (λ r, if decide (r = a) then X else S r) L h' →
         Q tt h') →
  Q tt (put_set a X h).
Proof.
  intros (HA & HB & HS & HL) HQ. apply HQ. split_and!; [done..| |done].
  intros r. destruct (decide (r = a)) as [->|Hne].
  - apply get_set_put_set_eq.
  - rewrite get_set_put_set_ne by done. apply HS.
Qed.

Lemma wp_set_update a b (Q : unit → heap → Prop) A B S L h :
  snap self other A B S L h →
  (∀ h', snap self other A B
           (λ r, if decide (r = a) then S a ∪ S b else S r) L h' → Q tt h') →
  wp (set_update a b) Q h.
Proof.
  intros Hs HQ. unfold wp, set_update; cbn [fst snd].
  destruct Hs as (HA & HB & HS & HL). rewrite !HS.
  by apply (wp_set_put a _ Q A B S L).
Qed.

Lemma wp_set_update_list a l (Q : unit → heap → Prop) A B S L h :
  snap self other A B S L h →
  (∀ h', snap self other A B
           (λ r, if decide (r = a) then S a ∪ list_to_set l else S r) L h' →
         Q tt h') →
  wp (set_update_list a l) Q h.
Proof.
  intros Hs HQ. unfold wp, set_update_list; cbn [fst snd].
  destruct Hs as (HA & HB & HS & HL). rewrite !HS.
  by apply (wp_set_put a _ Q A B S L).
Qed.

Lemma wp_set_add a x (Q : unit → heap → Prop) A B S L h :
  snap self other A B S L h →
  (∀ h', snap self other A B
           (λ r, if decide (r = a) then S a ∪ {[x]} else S r) L h' → Q tt h') →
  wp (set_add a x) Q h.
Proof.
  intros Hs HQ. unfold wp, set_add; cbn [fst snd].
  destruct Hs as (HA & HB & HS & HL). rewrite !HS.
  by apply (wp_set_put a _ Q A B S L).
Qed.

Lemma wp_list_extend a b (Q : unit → heap → Prop) A B S L h :
  snap self other A B S L h →
  (∀ h', snap self other A B S
           (λ r, if decide (r = a) then L a ++ L b else L r) h' → Q tt h') →
  wp (list_extend a b) Q h.
Proof.
  intros (HA & HB & HS & HL) HQ. unfold wp, list_extend; cbn [fst snd].
  rewrite !HL. apply HQ. split_and!; [done..|].
  intros r. destruct (decide (r = a)) as [->|Hne].
  - apply get_list_put_list_eq.
  - rewrite get_list_put_list_ne by done. apply HL.
Qed.

End rules.

(** Symbolic execution of straight-line code over a snapshot. *)
Ltac wp_step :=
  lazymatch goal with
  | |- wp (bind _ _) _ _ => apply wp_bind
  | |- wp (ret _) _ _ => apply wp_ret
  | Hs : snap ?self _ _ _ _ _ ?h |- wp (attr ?self _) _ ?h =>
      apply (wp_attr_self _ _ _ _ _ _ _ _ _ Hs)
  | Hs : snap _ ?other _ _ _ _ ?h |- wp (attr ?other _) _ ?h =>
      apply (wp_attr_other _ _ _ _ _ _ _ _ _ Hs)
  | Hs : snap ?self _ _ _ _ _ ?h |- wp (modify ?self _) _ ?h =>
      let h' := fresh "h" in
      apply (wp_modify _ _ _ _ _ _ _ _ _ Hs); clear dependent h; intros h' Hs
  | Hs : snap _ _ _ _ _ _ ?h |- wp (set_update _ _) _ ?h =>
      let h' := fresh "h" in
      apply (wp_set_update _ _ _ _ _ _ _ _ _ _ Hs); clear dependent h; intros h' Hs
  | Hs : snap _ _ _ _ _ _ ?h |- wp (set_update_list _ _) _ ?h =>
      let h' := fresh "h" in
      apply (wp_set_update_list _ _ _ _ _ _ _ _ _ _ Hs); clear dependent h;
      intros h' Hs
  | Hs : snap _ _ _ _ _ _ ?h |- wp (set_add _ _) _ ?h =>
      let h' := fresh "h" in
      apply (wp_set_add _ _ _ _ _ _ _ _ _ _ Hs); clear dependent h; intros h' Hs
  | Hs : snap _ _ _ _ _ _ ?h |- wp (list_extend _ _) _ ?h =>
      let h' := fresh "h" in
      apply (wp_list_extend _ _ _ _ _ _ _ _ _ _ Hs); clear dependent h; intros h' Hs
  end.

End logic_facts.

(** ** [Cluster.merge_with] *)

Module merge_with_spec.
Import clusters store_facts logic logic_facts examples.

Lemma compare_refl (a : string) : (a ?= a)%string = Eq.
Proof.
  pose proof (String.compare_antisym a a) as Hanti.
  by destruct (a ?= a)%string.
Qed.

(** [str_max] is the larger of its arguments in the order of strings. *)
Lemma str_max_upper (a b : string) :
  (a <=? str_max a b)%string = true ∧ (b <=? str_max a b)%string = true
  ∧ (str_max a b = a ∨ str_max a b = b).
Proof.
  unfold str_max, String.ltb, String.leb.
  pose proof (String.compare_antisym b a) as Hanti.
  destruct (a ?= b)%string eqn:E; rewrite ?compare_refl, ?Hanti, ?E; simpl; auto.
Qed.

Lemma apart_ne A B i j a b :
  apart A B → set_attrs A !! i = Some a → set_attrs B !! j = Some b →
  i ≠ j → a ≠ b.
Proof. intros [_ Hap]. apply Hap. Qed.

Lemma apart_self_ne A i j a b :
  apart A A → set_attrs A !! i = Some a → set_attrs A !! j = Some b →
  i ≠ j → a ≠ b.
Proof. apply apart_ne. Qed.

Lemma NoDup_ne (l : list ref) i j a b :
  NoDup l → l !! i = Some a → l !! j = Some b → i ≠ j → a ≠ b.
Proof. intros Hnd Hi Hj Hij ->. apply Hij. eapply NoDup_lookup; eauto. Qed.

(** The inequalities between set objects that [apart A B] provides. *)
Ltac apart_facts Hap A B :=
  let Hnd := fresh "Hnd" in
  pose proof (proj1 Hap) as Hnd;
  pose proof (NoDup_ne _ 0 1 _ _ Hnd eq_refl eq_refl ltac:(lia));
  pose proof (NoDup_ne _ 0 2 _ _ Hnd eq_refl eq_refl ltac:(lia));
  pose proof (NoDup_ne _ 0 3 _ _ Hnd eq_refl eq_refl ltac:(lia));
  pose proof (NoDup_ne _ 0 4 _ _ Hnd eq_refl eq_refl ltac:(lia));
  pose proof (NoDup_ne _ 1 2 _ _ Hnd eq_refl eq_refl ltac:(lia));
  pose proof (NoDup_ne _ 1 3 _ _ Hnd eq_refl eq_refl ltac:(lia));
  pose proof (NoDup_ne _ 1 4 _ _ Hnd eq_refl eq_refl ltac:(lia));
  pose proof (NoDup_ne _ 2 3 _ _ Hnd eq_refl eq_refl ltac:(lia));
  pose proof (NoDup_ne _ 2 4 _ _ Hnd eq_refl eq_refl ltac:(lia));
  pose proof (NoDup_ne _ 3 4 _ _ Hnd eq_refl eq_refl ltac:(lia));
  pose proof (apart_ne A B 0 1 _ _ Hap eq_refl eq_refl ltac:(lia));
  pose proof (apart_ne A B 0 2 _ _ Hap eq_refl eq_refl ltac:(lia));
  pose proof (apart_ne A B 0 3 _ _ Hap eq_refl eq_refl ltac:(lia));
  pose proof (apart_ne A B 0 4 _ _ Hap eq_refl eq_refl ltac:(lia));
  pose proof (apart_ne A B 1 2 _ _ Hap eq_refl eq_refl ltac:(lia));
  pose proof (apart_ne A B 1 3 _ _ Hap eq_refl eq_refl ltac:(lia));
  pose proof (apart_ne A B 1 4 _ _ Hap eq_refl eq_refl ltac:(lia));
  pose proof (apart_ne A B 2 3 _ _ Hap eq_refl eq_refl ltac:(lia));
  pose proof (apart_ne A B 2 4 _ _ Hap eq_refl eq_refl ltac:(lia));
  pose proof (apart_ne A B 3 4 _ _ Hap eq_refl eq_refl ltac:(lia)).

Ltac decide_ifs :=
  repeat first
    [ rewrite decide_True by (done || by apply dec_stable)
    | rewrite decide_False by (done || congruence) ].

Ltac merged_fields :=
  cbn [set_group set_expected_cost set_tracked_cost set_last_ship_date
       set_adjustment set_to_email set_notes set_manual_override
       set_last_delivery_date orders trackings group expected_cost
       tracked_cost last_ship_date purchase_orders email_ids adjustment
       to_email notes manual_override non_reimbursed_trackings
       cancelled_items last_delivery_date] in *.

(** What [merge_with] leaves, over a snapshot of the store before it. *)
Lemma merge_with_snap self other A B S L h :
  snap self other A B S L h → apart A B → (self = other → A = B) →
  wp (merge_with self other)
    (λ _ h',
       let A' := get_obj self h' in
       (orders A' = orders A ∧ trackings A' = trackings A
        ∧ purchase_orders A' = purchase_orders A ∧ email_ids A' = email_ids A
        ∧ non_reimbursed_trackings A' = non_reimbursed_trackings A
        ∧ cancelled_items A' = cancelled_items A ∧ to_email A' = to_email A)
       ∧ (get_set (orders A) h' = S (orders A) ∪ S (orders B)
          ∧ get_set (trackings A) h' = S (trackings A) ∪ S (trackings B)
          ∧ get_set (purchase_orders A) h'
            = S (purchase_orders A) ∪ S (purchase_orders B)
          ∧ get_set (email_ids A) h' = S (email_ids A) ∪ S (email_ids B)
          ∧ get_set (non_reimbursed_trackings A) h'
            = S (non_reimbursed_trackings A) ∪ S (non_reimbursed_trackings B))
       ∧ (expected_cost A' = num_add (expected_cost A) (expected_cost B)
          ∧ tracked_cost A' = num_add (tracked_cost A) (tracked_cost B)
          ∧ adjustment A' = num_add (adjustment A) (adjustment B))
       ∧ (last_ship_date A' = str_max (last_ship_date A) (last_ship_date B)
          ∧ last_delivery_date A'
            = str_max (last_delivery_date A) (last_delivery_date B))
       ∧ group A' = (if decide (strip (group A) = strip (group B)) then group A
                     else group A +:+ ", " +:+ strip (group B))
       ∧ notes A' = (if str_truthy (notes A) && str_truthy (notes B)
                     then notes A +:+ ", " +:+ notes B
                     else if str_truthy (notes B) then notes B else notes A)
       ∧ get_list (cancelled_items A) h'
         = L (cancelled_items A) ++ L (cancelled_items B)
       ∧ manual_override A'
         = (if flag_truthy (manual_override A) || flag_truthy (manual_override B)
            then FlagBool false else manual_override A))
    h.
Proof.
  intros Hs Hap Hsame.
  assert (Hov : ∀ C, other_view self other C B
                     = if decide (self = other) then C else B) by done.
  apart_facts Hap A B.
  unfold merge_with, update_attr, extend_attr.
  destruct (decide (self = other)) as [Heq|Hne];
    [pose proof (Hsame Heq); subst B|];
    repeat (first [ wp_step
                  | match goal with
                    | |- wp (if ?c then _ else _) _ _ => destruct c eqn:?
                    end ];
            rewrite ?Hov in *; merged_fields).
  all: cbv beta zeta; destruct Hs as (HA & _ & HS & HL).
  all: rewrite HA, !HS, HL; merged_fields; decide_ifs.
  all: repeat match goal with
         | E : ?c = _ |- context [?c] => rewrite E
         end.
  all: split_and!; done.
Qed.

(** C4: [A.merge_with(B)] leaves [A] with the unions of the two sides'
    [orders], [trackings], [purchase_orders], [email_ids] and
    [non_reimbursed_trackings]; the sums of [expected_cost], [tracked_cost]
    and [adjustment]; as [last_ship_date] the later of the two sides' dates
    (one of the two, and neither side's date is after it in the order of
    strings), and likewise for [last_delivery_date]; its group unchanged
    when the stripped groups are equal, and followed by ", " and the
    stripped group of [B] otherwise; its notes, ", " and the
    notes of [B] when both are non-empty, else the non-empty ones;
    [cancelled_items] followed by those of [B]; and [manual_override] false
    when either side had it set (unchanged otherwise).  The clusters are
    taken as the code builds them: the set attributes of [A] are different
    objects, none of which is another attribute's set of [B]. *)
Theorem merge_with_fields self other h :
  let A := get_obj self h in
  let B := get_obj other h in
  let h' := (merge_with self other h).2 in
  let A' := get_obj self h' in
  apart A B →
  (get_set (orders A') h' = get_set (orders A) h ∪ get_set (orders B) h
   ∧ get_set (trackings A') h'
     = get_set (trackings A) h ∪ get_set (trackings B) h
   ∧ get_set (purchase_orders A') h'
     = get_set (purchase_orders A) h ∪ get_set (purchase_orders B) h
   ∧ get_set (email_ids A') h'
     = get_set (email_ids A) h ∪ get_set (email_ids B) h
   ∧ get_set (non_reimbursed_trackings A') h'
     = get_set (non_reimbursed_trackings A) h
       ∪ get_set (non_reimbursed_trackings B) h)
  ∧ (expected_cost A' = num_add (expected_cost A) (expected_cost B)
     ∧ tracked_cost A' = num_add (tracked_cost A) (tracked_cost B)
     ∧ adjustment A' = num_add (adjustment A) (adjustment B))
  ∧ (((last_ship_date A' = last_ship_date A
       ∨ last_ship_date A' = last_ship_date B)
      ∧ (last_ship_date A <=? last_ship_date A')%string = true
      ∧ (last_ship_date B <=? last_ship_date A')%string = true)
     ∧ ((last_delivery_date A' = last_delivery_date A
         ∨ last_delivery_date A' = last_delivery_date B)
        ∧ (last_delivery_date A <=? last_delivery_date A')%string = true
        ∧ (last_delivery_date B <=? last_delivery_date A')%string = true))
  ∧ group A' = (if decide (strip (group A) = strip (group B)) then group A
                else group A +:+ ", " +:+ strip (group B))
  ∧ notes A' = (if str_truthy (notes A) && str_truthy (notes B)
                then notes A +:+ ", " +:+ notes B
                else if str_truthy (notes B) then notes B else notes A)
  ∧ get_list (cancelled_items A') h'
    = get_list (cancelled_items A) h ++ get_list (cancelled_items B) h
  ∧ manual_override A'
    = (if flag_truthy (manual_override A) || flag_truthy (manual_override B)
       then FlagBool false else manual_override A).
Proof.
  intros A B h' A' Hap.
  assert (Hs : snap self other A B (λ r, get_set r h) (λ r, get_list r h) h).
  { split_and!; try done. unfold other_view, A, B.
    by destruct (decide (self = other)) as [->|]. }
  assert (Hsame : self = other → A = B) by (by intros ->).
  pose proof (merge_with_snap self other A B _ _ h Hs Hap Hsame) as Hwp.
  unfold wp in Hwp. cbv zeta in Hwp. fold h' in Hwp. fold A' in Hwp.
  destruct Hwp as ((Ho & Ht & Hp & He & Hn & Hc & _) & Hsets & Hcosts
                   & (Hship & Hdel) & Hrest).
  rewrite Ho, Ht, Hp, He, Hn, Hc.
  split; [exact Hsets|]. split; [exact Hcosts|]. split; [|exact Hrest].
  rewrite Hship, Hdel.
  destruct (str_max_upper (last_ship_date A) (last_ship_date B))
    as (? & ? & ?).
  destruct (str_max_upper (last_delivery_date A) (last_delivery_date B))
    as (? & ? & ?).
  done.
Qed.

Lemma merge_with_fields_witness :
  let h' := (merge_with 20 30 two_clusters).2 in
  apart (get_obj 20 two_clusters) (get_obj 30 two_clusters)
  ∧ get_set 21 h' = {["O1"; "O2"]}
  ∧ expected_cost (get_obj 20 h') = NFloat 25
  ∧ last_ship_date (get_obj 20 h') = "2020-03-01"
  ∧ last_delivery_date (get_obj 20 h') = "2020-03-09"
  ∧ group (get_obj 20 h') = "g "
  ∧ notes (get_obj 20 h') = "first, second"
  ∧ get_list 26 h' = ["tv"; "tv"; "cable"]
  ∧ manual_override (get_obj 20 h') = FlagBool false.
Proof.
  intros h'.
  assert (Hap : apart (get_obj 20 two_clusters) (get_obj 30 two_clusters)).
  { change (get_obj 20 two_clusters) with
      (mkCluster 21 22 "g " (NFloat 10) (NFloat 1) "2020-01-02" 23 24
         (NFloat 0) (EmailStr "a@x") "first" (FlagBool true) 25 26 "").
    change (get_obj 30 two_clusters) with
      (mkCluster 31 32 "g" (NFloat 15) (NFloat 2) "2020-03-01" 33 34
         (NFloat 0.5) (EmailStr "b@x") "second" (FlagBool false) 35 36
         "2020-03-09").
    split; [cbn; compute_done|].
    intros i j a b.
    destruct i as [|[|[|[|[|i]]]]]; destruct j as [|[|[|[|[|j]]]]]; cbn;
      intros [= <-] [= <-] ?; done. }
  destruct (merge_with_fields 20 30 two_clusters Hap)
    as ((Ho & _) & (Hcost & _) & ((Hship & _ & Hship_b) & (Hdel & _ & Hdel_b))
        & Hg & Hnotes & Hcanc & Hmo).
  fold h' in Ho, Hcost, Hship, Hship_b, Hdel, Hdel_b, Hg, Hnotes, Hcanc, Hmo.
  assert (orders (get_obj 20 h') = 21) as Eo by (vm_compute; reflexivity).
  assert (cancelled_items (get_obj 20 h') = 26) as Ec
    by (vm_compute; reflexivity).
  rewrite Eo in Ho. rewrite Ec in Hcanc.
  split_and!; [exact Hap|..].
  - rewrite Ho. vm_compute. reflexivity.
  - rewrite Hcost. reflexivity.
  - destruct Hship as [Hship|Hship]; [|exact Hship].
    rewrite Hship in Hship_b. vm_compute in Hship_b. discriminate Hship_b.
  - destruct Hdel as [Hdel|Hdel]; [|exact Hdel].
    rewrite Hdel in Hdel_b. vm_compute in Hdel_b. discriminate Hdel_b.
  - rewrite Hg. reflexivity.
  - rewrite Hnotes. reflexivity.
  - rewrite Hcanc. vm_compute. reflexivity.
  - rewrite Hmo. reflexivity.
Defined.

End merge_with_spec.

(** ** [update_clusters] *)

Module update_spec.
Import clusters store_facts logic logic_facts merge_with_spec examples.

Lemma wp_cond {X} (c : heap → bool) (m1 m2 : M X) Q h :
  (if c h then wp m1 Q h else wp m2 Q h) →
  wp (λ h, if c h then m1 h else m2 h) Q h.
Proof. unfold wp. by destruct (c h). Qed.

Lemma attach_snap cluster t A S L h b :
  snap cluster cluster A A S L h → adds_new cluster t h = b →
  wp (attach cluster t)
     (λ _ h', snap cluster cluster (attached b t A) A (attached_sets t A S) L h') h.
Proof.
  intros Hs Hb. unfold attach. apply wp_bind.
  apply (wp_cond (adds_new cluster t)
           (modify cluster (set_manual_override (FlagBool false))) (ret tt)).
  rewrite Hb. destruct b; repeat (wp_step; merged_fields); exact Hs.
Qed.

Lemma adds_new_spec cluster t h :
  adds_new cluster t h = true
  ↔ (∃ o, o ∈ tracking.order_ids t ∧ o ∉ get_set (orders (get_obj cluster h)) h)
    ∨ tracking.tracking_number t ∉ get_set (trackings (get_obj cluster h)) h.
Proof.
  unfold adds_new. rewrite orb_true_iff, negb_true_iff, bool_decide_eq_false.
  rewrite Nat.ltb_lt. apply or_iff_compat_r.
  rewrite <- Nat.neq_0_lt_0, size_non_empty_iff. split.
  - intros Hne. apply set_choose in Hne as (o & Ho). exists o.
    apply elem_of_difference in Ho as [Ho ?]. by apply elem_of_list_to_set in Ho.
  - intros (o & Ho & Hn) Heq.
    assert (o ∈ (list_to_set (tracking.order_ids t) ∖ get_set (orders (get_obj cluster h)) h : gset string)) as Hin.
    { apply elem_of_difference. split; [by apply elem_of_list_to_set|done]. }
    apply Heq in Hin. set_solver.
Qed.

Lemma update_step_attach all_clusters d t h :
  match find_cluster d t with
  | Some cluster =>
      update_step (all_clusters, d) t h
      = ((all_clusters, map_orders cluster (tracking.order_ids t) d),
         (attach cluster t h).2)
  | None =>
      let created := __init__ (tracking.group t) h in
      update_step (all_clusters, d) t h
      = ((all_clusters ++ [created.1],
          map_orders created.1 (tracking.order_ids t) d),
         (attach created.1 t created.2).2)
  end.
Proof.
  unfold update_step. destruct (find_cluster d t) as [cluster|].
  - unfold bind, ret. cbn [fst snd]. by destruct (attach cluster t h) as [[] h'].
  - cbv zeta. unfold bind at 1 2. destruct (__init__ (tracking.group t) h) as [c h0].
    unfold ret at 1. cbn [fst snd]. unfold bind, ret.
    by destruct (attach c t h0) as [[] h'].
Qed.

(** What the loop body does to the cluster it folds a tracking into: when
    the tracking brings an order ID that the cluster does not hold, or a
    tracking number it does not hold, the cluster's [manual_override] is
    [False] afterwards; when it brings neither, [manual_override] keeps the
    value it had.  One turn of the loop does this to the cluster it has
    found in its dict or created. *)
Lemma attach_manual_override cluster t h :
  let C := get_obj cluster h in
  let C' := get_obj cluster (attach cluster t h).2 in
  let adds :=
    (∃ o, o ∈ tracking.order_ids t ∧ o ∉ get_set (orders C) h)
    ∨ tracking.tracking_number t ∉ get_set (trackings C) h in
  (adds → manual_override C' = FlagBool false)
  ∧ (¬ adds → manual_override C' = manual_override C)
  ∧ ∀ all_clusters d,
      match find_cluster d t with
      | Some found =>
          (update_step (all_clusters, d) t h).2 = (attach found t h).2
      | None =>
          let created := __init__ (tracking.group t) h in
          (update_step (all_clusters, d) t h).2
          = (attach created.1 t created.2).2
      end.
Proof.
  intros C C' adds.
  assert (Hs : snap cluster cluster C C (λ r, get_set r h) (λ r, get_list r h) h).
  { split_and!; try done. unfold other_view. by rewrite decide_True. }
  pose proof (attach_snap cluster t C _ _ h _ Hs eq_refl) as Hwp.
  unfold wp in Hwp. destruct Hwp as (HC' & _). fold C' in HC'.
  pose proof (adds_new_spec cluster t h) as Hadds. fold C adds in Hadds.
  split_and!.
  - intros Ha%Hadds. rewrite HC', Ha. reflexivity.
  - intros Hn. rewrite HC'. destruct (adds_new cluster t h); [|reflexivity].
    by destruct Hn; apply Hadds.
  - intros all_clusters d. pose proof (update_step_attach all_clusters d t h) as Hst.
    destruct (find_cluster d t); cbv zeta in *; by rewrite Hst.
Qed.

Lemma attach_manual_override_witness :
  manual_override
    (get_obj 40 (attach 40 (tracking.mkTracking "T2" "g" ["O1"] "1" "2" "m@x")
                   overridden).2) = FlagBool false
  ∧ manual_override
      (get_obj 40 (attach 40 (tracking.mkTracking "T1" "g" ["O1"] "1" "2" "m@x")
                     overridden).2) = FlagBool true.
Proof.
  split.
  - apply (attach_manual_override 40 _ overridden). right. compute_done.
  - destruct (attach_manual_override 40
                (tracking.mkTracking "T1" "g" ["O1"] "1" "2" "m@x") overridden)
      as (_ & Hkeep & _).
    rewrite Hkeep; [reflexivity|].
    intros [(o & Ho & Hn)|Hn].
    + apply list_elem_of_singleton in Ho as ->. apply Hn. compute_done.
    + apply Hn. compute_done.
Defined.

End update_spec.

(** ** [Cluster(group)] and the default containers *)

Module construct_spec.
Import clusters store_facts logic examples.

Lemma init_defaults g h :
  let created := __init__ g h in
  let c := get_obj created.1 created.2 in
  non_reimbursed_trackings c = default_non_reimbursed_trackings
  ∧ cancelled_items c = default_cancelled_items
  ∧ to_email c = EmailList (next h + 5).
Proof.
  cbv zeta. unfold __init__, bind, new_obj, new_set, new_list, _initiate, ret.
  cbn. unfold get_obj, put_obj. cbn. rewrite lookup_insert_eq. cbn. split_and!; try done. f_equal. lia.
Qed.

(** C2, on the code: two clusters built by [Cluster("g")] are different
    objects with their own [purchase_orders] and [email_ids], but their
    [non_reimbursed_trackings] and [cancelled_items] are the one default set
    and the one default list of [_initiate].  After [c1.merge_with(b)] the
    tracking and the cancelled item of [b] are in the containers of [c2],
    and in those of a cluster [c3] constructed afterwards. *)
Lemma shared_defaults :
  let '((c1, c2, c3), h) := shared_defaults_run in
  let C1 := get_obj c1 h in
  let C2 := get_obj c2 h in
  let C3 := get_obj c3 h in
  c1 ≠ c2
  ∧ non_reimbursed_trackings C1 = non_reimbursed_trackings C2
  ∧ cancelled_items C1 = cancelled_items C2
  ∧ get_set (non_reimbursed_trackings C2) h = {["T9"]}
  ∧ get_list (cancelled_items C2) h = ["tv"]
  ∧ get_set (non_reimbursed_trackings C3) h = {["T9"]}
  ∧ get_list (cancelled_items C3) h = ["tv"]
  ∧ purchase_orders C1 ≠ purchase_orders C2
  ∧ email_ids C1 ≠ email_ids C2
  ∧ get_set (purchase_orders C3) h = ∅
  ∧ get_set (email_ids C3) h = ∅.
Proof. vm_compute. split_and!; (reflexivity || discriminate). Qed.

End construct_spec.

(** ** [from_row] *)

Module from_row_spec.
Import clusters store_facts logic examples.

Section from_row.
Context (fos : string → option float).

Lemma cell_or_column header row name d :
  cell_or header row name d
  = match column header row name with
    | inl e => inl e
    | inr o => inr (default d o)
    end.
Proof.
  unfold cell_or, column. destruct (contains header name); [|done].
  by destruct (cell header row name).
Qed.

Lemma bindE_value {X Y} (r : pyerror + X) (k : X → ME Y) h :
  bindE (value r) k h = match r with inl e => inl e | inr x => k x h end.
Proof. unfold bindE, value. by destruct r. Qed.

Lemma bindE_lift {X Y} (m : M X) (k : X → ME Y) h :
  bindE (lift m) k h = k (m h).1 (m h).2.
Proof. unfold bindE, lift. by destruct (m h). Qed.

Lemma set_column_stmt {Y} header row name (k : ref → ME Y) h :
  bindE (if contains header name
         then bindE (value (cell header row name))
                (λ s, lift (new_set (list_to_set (split_strip s))))
         else lift (new_set ∅)) k h
  = match column header row name with
    | inl e => inl e
    | inr o => k (next h)
                 (new_set (from_option (λ s, list_to_set (split_strip s)) ∅ o) h).2
    end.
Proof.
  unfold column. destruct (contains header name); [|by rewrite bindE_lift].
  unfold bindE at 1. rewrite bindE_value. by destruct (cell header row name).
Qed.

Lemma flag_column_stmt {Y} header row name (k : flag → ME Y) h :
  bindE (if contains header name
         then bindE (value (cell header row name)) (λ s, value (inr (FlagCell s)))
         else value (inr (FlagBool false))) k h
  = match column header row name with
    | inl e => inl e
    | inr o => k (from_option FlagCell (FlagBool false) o) h
    end.
Proof.
  unfold column. destruct (contains header name); [|by rewrite bindE_value].
  unfold bindE at 1. rewrite bindE_value. by destruct (cell header row name).
Qed.

Lemma lift_if_set {Y} (b : bool) (X1 X2 : gset string) (k : ref → ME Y) h :
  bindE (lift (if b then new_set X1 else new_set X2)) k h
  = k (next h) (new_set (if b then X1 else X2) h).2.
Proof. rewrite bindE_lift. by destruct b. Qed.

Lemma lift_if_list {Y} (b : bool) (l1 l2 : list string) (k : ref → ME Y) h :
  bindE (lift (if b then new_list l1 else new_list l2)) k h
  = k (next h) (new_list (if b then l1 else l2) h).2.
Proof. rewrite bindE_lift. by destruct b. Qed.

Ltac chain H :=
  repeat (first
    [ rewrite set_column_stmt in H
    | rewrite flag_column_stmt in H
    | rewrite lift_if_set in H
    | rewrite lift_if_list in H
    | rewrite bindE_lift in H
    | rewrite bindE_value in H
    | rewrite cell_or_column in H
    | match type of H with
      | context [match column ?hd ?rw ?name with _ => _ end] =>
          destruct (column hd rw name) as [?|?] eqn:?; [discriminate H|]
      | context [match float_or_zero ?f ?x with _ => _ end] =>
          destruct (float_or_zero f x) as [?|?] eqn:?; [discriminate H|]
      end ];
    cbn [fst snd next new_set new_list sets lists objs __init__ _initiate
         bind ret new_obj put_obj] in H).

Ltac chain_goal Hcols Hnum :=
  repeat (first
    [ rewrite set_column_stmt
    | rewrite flag_column_stmt
    | rewrite lift_if_set
    | rewrite lift_if_list
    | rewrite bindE_lift
    | rewrite bindE_value
    | rewrite cell_or_column
    | match goal with
      | |- context [match column ?hd ?rw ?name with _ => _ end] =>
          let o := fresh "o" in
          let Ho := fresh "Ho" in
          destruct (Hcols name ltac:(compute_done)) as [o Ho]; rewrite Ho
      | Ho : column ?hd ?rw ?name = inr ?o
        |- context [match float_or_zero ?f (default "" ?o) with _ => _ end] =>
          let n := fresh "n" in
          let Hn := fresh "Hn" in
          destruct (Hnum name o ltac:(compute_done) Ho) as [n Hn]; rewrite Hn
      end ];
    cbn [fst snd next new_set new_list sets lists objs __init__ _initiate
         bind ret new_obj put_obj]).

Lemma float_or_zero_returns header row :
  (∀ name, name ∈ numeric_columns →
     ∀ s, column header row name = inr (Some s) → s ≠ "" → is_Some (fos s)) →
  ∀ name o, name ∈ numeric_columns → column header row name = inr o →
    ∃ n, float_or_zero fos (default "" o) = inr n.
Proof.
  intros Hnum name o Hin Ho. unfold float_or_zero, py_float.
  destruct o as [[|a s]|]; cbn; eauto.
  destruct (Hnum name Hin _ Ho) as [f ->]; [done|eauto].
Qed.

Lemma from_row_returns header row h :
  (∀ name, name ∈ columns → ∃ o, column header row name = inr o) →
  (∀ name, name ∈ numeric_columns →
     ∀ s, column header row name = inr (Some s) → s ≠ "" → is_Some (fos s)) →
  ∃ c h', from_row fos header row h = inr (c, h').
Proof.
  intros Hcols Hnum0.
  pose proof (float_or_zero_returns header row Hnum0) as Hnum.
  unfold from_row. chain_goal Hcols Hnum. unfold value. eauto.
Qed.

Lemma from_row_result header row h c h' :
  from_row fos header row h = inr (c, h') →
  ∃ o t b r n ls ld p g a m e no ci eb er ea,
    column header row "Orders" = inr o
    ∧ column header row "Trackings" = inr t
    ∧ column header row "Amount Billed" = inr b
    ∧ column header row "Amount Reimbursed" = inr r
    ∧ column header row "Non-Reimbursed Trackings" = inr n
    ∧ column header row "Last Ship Date" = inr ls
    ∧ column header row "Last Delivery Date (Est.)" = inr ld
    ∧ column header row "POs" = inr p
    ∧ column header row "Group" = inr g
    ∧ column header row "Manual Cost Adjustment" = inr a
    ∧ column header row "Manual Override" = inr m
    ∧ column header row "To Email" = inr e
    ∧ column header row "Notes" = inr no
    ∧ column header row "Cancelled Items" = inr ci
    ∧ float_or_zero fos (default "" b) = inr eb
    ∧ float_or_zero fos (default "" r) = inr er
    ∧ float_or_zero fos (default "" a) = inr ea
    ∧ get_obj c h'
      = mkCluster (next h) (next h + 1) (default "" g) eb er (default "0" ls)
          (next h + 3) (next h + 4) ea (EmailStr (default "" e))
          (default "" no) (from_option FlagCell (FlagBool false) m)
          (next h + 2) (next h + 5) (default "" ld)
    ∧ get_set (next h) h' = from_option (λ s, list_to_set (split_strip s)) ∅ o
    ∧ get_set (next h + 1) h'
      = from_option (λ s, list_to_set (split_strip s)) ∅ t
    ∧ get_set (next h + 2) h'
      = (if str_truthy (default "" n)
         then list_to_set (split_strip (default "" n)) else ∅)
    ∧ get_set (next h + 3) h'
      = (if str_truthy (default "" p)
         then list_to_set (split_strip (default "" p)) else ∅)
    ∧ get_set (next h + 4) h' = ∅
    ∧ get_list (next h + 5) h'
      = (if str_truthy (default "" ci) then split_strip (default "" ci) else []).
Proof.
  intros H. unfold from_row in H. chain H. unfold value in H.
  injection H as <- <-.
  do 17 eexists. split_and!.
  1-14: reflexivity.
  1-3: eassumption.
  - rewrite get_obj_put_obj_eq. f_equal; lia.
  - unfold get_set, put_obj; cbn [sets].
    rewrite !lookup_insert_ne by lia. by rewrite lookup_insert_eq.
  - replace (next h + 1) with (S (next h)) by lia.
    unfold get_set, put_obj; cbn [sets].
    rewrite !lookup_insert_ne by lia. by rewrite lookup_insert_eq.
  - replace (next h + 2) with (S (S (next h))) by lia.
    unfold get_set, put_obj; cbn [sets].
    rewrite !lookup_insert_ne by lia. by rewrite lookup_insert_eq.
  - replace (next h + 3) with (S (S (S (next h)))) by lia.
    unfold get_set, put_obj; cbn [sets].
    rewrite !lookup_insert_ne by lia. by rewrite lookup_insert_eq.
  - replace (next h + 4) with (S (S (S (S (next h))))) by lia.
    unfold get_set, put_obj; cbn [sets].
    rewrite !lookup_insert_ne by lia. by rewrite lookup_insert_eq.
  - replace (next h + 5) with (S (S (S (S (S (next h)))))) by lia.
    unfold get_list, put_obj; cbn [lists].
    rewrite !lookup_insert_ne by lia. by rewrite lookup_insert_eq.
Qed.

Lemma column_missing header row name :
  name ∉ header → column header row name = inr None.
Proof.
  intros Hn. unfold column, contains. by rewrite bool_decide_eq_false_2.
Qed.

Lemma float_or_zero_value s n :
  float_or_zero fos s = inr n →
  if str_truthy s then ∃ f, fos s = Some f ∧ n = NFloat f else n = NFloat 0.
Proof.
  unfold float_or_zero, py_float. destruct (str_truthy s).
  - destruct (fos s) as [f|]; [|done]. intros [= <-]. eauto.
  - by intros [= <-].
Qed.

(** C10, as the code has it: [from_row] returns a cluster whenever the row
    has a cell for every column of the header that it reads and the
    non-blank cells of the three numeric columns are numbers.  Of the
    cluster it returns: Orders and Trackings are the set of the stripped
    pieces of the cell split at commas (a blank cell gives the set of the
    empty string); Non-Reimbursed Trackings and POs are that set for a
    non-blank cell and the empty set for a blank one; Amount Billed, Amount
    Reimbursed and Manual Cost Adjustment are the number in the cell, and
    0.0 for a blank cell; Manual Override is the cell as read.  A column
    that the header lacks leaves its attribute at the default: empty set
    or list, 0.0, ['0'] for the last ship date, [''] for the other texts,
    and [False] for Manual Override. *)
Theorem from_row_fields header row h :
  ((∀ name, name ∈ columns → ∃ o, column header row name = inr o) →
   (∀ name, name ∈ numeric_columns →
      ∀ s, column header row name = inr (Some s) → s ≠ "" → is_Some (fos s)) →
   ∃ c h', from_row fos header row h = inr (c, h'))
  ∧ ∀ c h', from_row fos header row h = inr (c, h') →
      let C := get_obj c h' in
      ((∀ s, column header row "Orders" = inr (Some s) →
          get_set (orders C) h' = list_to_set (split_strip s))
       ∧ (∀ s, column header row "Trackings" = inr (Some s) →
          get_set (trackings C) h' = list_to_set (split_strip s))
       ∧ (∀ s, column header row "Non-Reimbursed Trackings" = inr (Some s) →
          get_set (non_reimbursed_trackings C) h'
          = if str_truthy s then list_to_set (split_strip s) else ∅)
       ∧ (∀ s, column header row "POs" = inr (Some s) →
          get_set (purchase_orders C) h'
          = if str_truthy s then list_to_set (split_strip s) else ∅))
      ∧ ((∀ s, column header row "Amount Billed" = inr (Some s) →
          if str_truthy s
          then ∃ f, fos s = Some f ∧ expected_cost C = NFloat f
          else expected_cost C = NFloat 0)
         ∧ (∀ s, column header row "Amount Reimbursed" = inr (Some s) →
          if str_truthy s
          then ∃ f, fos s = Some f ∧ tracked_cost C = NFloat f
          else tracked_cost C = NFloat 0)
         ∧ (∀ s, column header row "Manual Cost Adjustment" = inr (Some s) →
          if str_truthy s
          then ∃ f, fos s = Some f ∧ adjustment C = NFloat f
          else adjustment C = NFloat 0))
      ∧ (∀ s, column header row "Manual Override" = inr (Some s) →
          manual_override C = FlagCell s)
      ∧ (("Orders" ∉ header → get_set (orders C) h' = ∅)
         ∧ ("Trackings" ∉ header → get_set (trackings C) h' = ∅)
         ∧ ("Amount Billed" ∉ header → expected_cost C = NFloat 0)
         ∧ ("Amount Reimbursed" ∉ header → tracked_cost C = NFloat 0)
         ∧ ("Non-Reimbursed Trackings" ∉ header →
            get_set (non_reimbursed_trackings C) h' = ∅)
         ∧ ("Last Ship Date" ∉ header → last_ship_date C = "0")
         ∧ ("Last Delivery Date (Est.)" ∉ header → last_delivery_date C = "")
         ∧ ("POs" ∉ header → get_set (purchase_orders C) h' = ∅)
         ∧ ("Group" ∉ header → group C = "")
         ∧ ("Manual Cost Adjustment" ∉ header → adjustment C = NFloat 0)
         ∧ ("Manual Override" ∉ header → manual_override C = FlagBool false)
         ∧ ("To Email" ∉ header → to_email C = EmailStr "")
         ∧ ("Notes" ∉ header → notes C = "")
         ∧ ("Cancelled Items" ∉ header →
            get_list (cancelled_items C) h' = [])).
Proof.
  split; [apply from_row_returns|].
  intros c h' Hrun C.
  destruct (from_row_result header row h c h' Hrun)
    as (o & t & b & r & n & ls & ld & p & g & a & m & e & no & ci & eb & er & ea
        & Ho & Ht & Hb & Hr & Hn & Hls & Hld & Hp & Hg & Ha & Hm & He & Hno & Hci
        & Heb & Her & Hea & HC & So & St & Sn & Sp & Se & Lc).
  fold C in HC. rewrite HC. cbn [orders trackings group expected_cost
    tracked_cost last_ship_date purchase_orders email_ids adjustment to_email
    notes manual_override non_reimbursed_trackings cancelled_items
    last_delivery_date].
  rewrite So, St, Sn, Sp, Lc.
  apply float_or_zero_value in Heb, Her, Hea.
  split_and!.
  all: try (intros s Hs; rewrite Hs in *; simplify_eq; cbn [from_option default] in *;
            done).
  all: intros Hmiss%(column_missing header row); rewrite Hmiss in *;
         simplify_eq; cbn [from_option default str_truthy] in *; done.
Qed.

End from_row.

Lemma from_row_fields_witness :
  ∃ c h', from_row read_float sheet_header sheet_row module_heap = inr (c, h')
    ∧ get_set (orders (get_obj c h')) h' = {["O1"; "O2"]}
    ∧ get_set (trackings (get_obj c h')) h' = {["T1"]}
    ∧ expected_cost (get_obj c h') = NFloat 12.5
    ∧ tracked_cost (get_obj c h') = NFloat 0
    ∧ adjustment (get_obj c h') = NFloat 0
    ∧ get_set (non_reimbursed_trackings (get_obj c h')) h' = ∅.
Proof.
  destruct (from_row_fields read_float sheet_header sheet_row module_heap)
    as [Hret Hfields].
  destruct Hret as (c & h' & Hrun).
  { intros name Hin. unfold columns in Hin.
    repeat (apply elem_of_cons in Hin as [->|Hin]; [vm_compute; eauto|]).
    by apply elem_of_nil in Hin. }
  { intros name Hin s. unfold numeric_columns in Hin.
    repeat (apply elem_of_cons in Hin as [->|Hin];
            [vm_compute; intros [= <-]; try done; eauto|]).
    by apply elem_of_nil in Hin. }
  exists c, h'. split; [exact Hrun|].
  destruct (Hfields c h' Hrun)
    as ((Ho & Ht & Hn & _) & (Hb & Hr & Ha) & _).
  split_and!.
  - rewrite (Ho "O1, O2") by (vm_compute; reflexivity). vm_compute. reflexivity.
  - rewrite (Ht " T1 ") by (vm_compute; reflexivity). vm_compute. reflexivity.
  - destruct (Hb "12.5") as (f & Hf & ->); [vm_compute; reflexivity|].
    vm_compute in Hf. by injection Hf as <-.
  - apply (Hr ""). vm_compute. reflexivity.
  - apply (Ha ""). vm_compute. reflexivity.
  - rewrite (Hn "") by (vm_compute; reflexivity). reflexivity.
Defined.

(** C10 as stated fails: with blank cells under Orders and POs, the orders
    are the set of the empty string and the purchase orders the empty set,
    so that no reading of a blank cell gives both. *)
Lemma from_row_blank_cells :
  ¬ ∃ f, set_fields_read_as f read_float ["Orders"; "POs"] [""; ""] module_heap.
Proof.
  intros (f & Hf).
  destruct (from_row read_float ["Orders"; "POs"] [""; ""] module_heap)
    as [e|[c h']] eqn:Hrun; [by vm_compute in Hrun|].
  assert (Ho : get_set (orders (get_obj c h')) h' = f "").
  { apply (Hf c h' Hrun "Orders"); [left|vm_compute; reflexivity]. }
  assert (Hp : get_set (purchase_orders (get_obj c h')) h' = f "").
  { apply (Hf c h' Hrun "POs"); [do 3 right; left|vm_compute; reflexivity]. }
  vm_compute in Hrun. injection Hrun as <- <-.
  rewrite <- Ho in Hp.
  revert Hp. vm_compute. discriminate.
Qed.

End from_row_spec.

(** ** The cost ledgers *)

Module ledger_spec.
Import group_site_manager logic examples.

Section adapters.
Context (fos : string → option float) (sp : string → option string).

Lemma split_nonempty sep s : split sep s ≠ [].
Proof.
  destruct s as [|c s]; [done|]. simpl.
  destruct (Ascii.eqb c sep); [done|]. by destruct (split sep s).
Qed.

Ltac chain H :=
  repeat match type of H with
  | bindR ?r ?k = inr _ =>
      let E := fresh "E" in
      destruct r eqn:E; [discriminate H|]; cbn [bindR] in H
  end.

Lemma melul_row_adds group d pm row d' pm' :
  melul_row fos sp group (d, pm) row = inr (d', pm') →
  ∃ void verified total cost date_str date numbers,
    row !! "VOID" = Some void ∧ row !! "VERIFIED" = Some verified
    ∧ row !! "TOTAL" = Some total ∧ fos total = Some cost
    ∧ row !! "CREATED DATE" = Some date_str ∧ sp date_str = Some date
    ∧ row !! "TRACKING NUMBERS" = Some numbers
    ∧ d' = if num_truthy (NFloat cost)
           then <[melul_key numbers :=
                    (group,
                     num_add (previous_cost d (melul_key numbers))
                       (if bool_decide (verified = "1")
                           && negb (bool_decide (void = "1"))
                        then NFloat cost else NFloat 0),
                     date)]> d
           else d.
Proof.
  unfold melul_row, field, float_, to_date. intros H.
  destruct (row !! "VOID") as [void|]; cbv beta iota delta [bindR] in H; [|discriminate H].
  destruct (row !! "VERIFIED") as [verified|]; cbv beta iota delta [bindR] in H; [|discriminate H].
  destruct (row !! "ID") as [po|]; cbv beta iota delta [bindR] in H; [|discriminate H].
  destruct (row !! "TOTAL") as [total|]; cbv beta iota delta [bindR] in H; [|discriminate H].
  destruct (fos total) as [cost|] eqn:Ecost; cbv beta iota delta [bindR] in H; [|discriminate H].
  destruct (row !! "CREATED DATE") as [date_str|]; cbv beta iota delta [bindR] in H; [|discriminate H].
  destruct (sp date_str) as [date|] eqn:Edate; cbv beta iota delta [bindR] in H; [|discriminate H].
  destruct (row !! "TRACKING NUMBERS") as [numbers|]; cbv beta iota delta [bindR] in H; [|discriminate H].
  injection H as <- _.
  exists void, verified, total, cost, date_str, date, numbers.
  split_and!; try done. unfold melul_key.
  pose proof (split_nonempty comma (clean_csv_tracking numbers)) as Hne.
  by destruct (split comma (clean_csv_tracking numbers)) as [|x l].
Qed.

Lemma field_Some row name v : field row name = inr v → row !! name = Some v.
Proof. unfold field. destruct (row !! name); [by intros [= ->]|done]. Qed.

Lemma item_Some l i v : item l i = inr v → l !! i = Some v.
Proof. unfold item. destruct (l !! i); [by intros [= ->]|done]. Qed.

Lemma float_inr s v :
  float_ fos s = inr v → ∃ f, fos s = Some f ∧ v = NFloat f.
Proof. unfold float_. destruct (fos s); [|done]. intros [= <-]. eauto. Qed.

Lemma recon_row_sum group d row d' :
  recon_row fos group d row = inr d' →
  ∃ number total_s total,
    row !! "Tracking Number" = Some number ∧ row !! "Total" = Some total_s
    ∧ fos (remove_char dash (remove_char comma (remove_char dollar total_s)))
      = Some total
    ∧ d' = <[[clean_csv_tracking number] :=
               (group,
                num_add (previous_cost d [clean_csv_tracking number])
                  (NFloat total),
                "")]> d.
Proof.
  unfold recon_row. intros H. chain H. injection H as <-.
  match goal with E : float_ _ _ = inr _ |- _ =>
    apply float_inr in E as (f & Hf & ->) end.
  eexists _, _, _. split_and!; [by apply field_Some..|exact Hf|done].
Qed.

Lemma emb_row_sum d row d' :
  emb_row fos d row = inr d' →
  ∃ number verified total_s total,
    row !! "tracking" = Some number ∧ row !! "is_verified" = Some verified
    ∧ row !! "total" = Some total_s
    ∧ (if str_truthy total_s && bool_decide (verified = "True")
       then ∃ f, fos total_s = Some f ∧ total = NFloat f
       else total = NInt 0)
    ∧ d' = <[[clean_csv_tracking number] :=
               ("embdeals",
                num_add (previous_cost d [clean_csv_tracking number]) total,
                "")]> d.
Proof.
  unfold emb_row. intros H. chain H. injection H as <-.
  eexists _, _, _, _. split_and!; [by apply field_Some..| |done].
  match goal with E : (if ?c then _ else _) = inr _ |- _ =>
    destruct c; [by apply float_inr in E|by injection E as <-] end.
Qed.

Lemma oaks_row_sum d row d' :
  oaks_row fos d row = inr d' →
  if length (tds row) <? 6 then d' = d
  else
    ∃ t1, tds row !! 1 = Some t1
      ∧ if negb (str_truthy (strip (upper t1)))
           || startswith "TRACKING" (strip (upper t1))
        then d' = d
        else
          ∃ t5 cost_value,
            tds row !! 5 = Some t5
            ∧ (let cost := strip (remove_char dash (remove_char comma
                                    (remove_char dollar t5))) in
               if str_truthy cost
               then ∃ f, fos cost = Some f ∧ cost_value = NFloat f
               else cost_value = NFloat 0)
            ∧ d' = <[[strip (upper t1)] :=
                       ("oaks",
                        num_add (previous_cost d [strip (upper t1)]) cost_value,
                        "")]> d.
Proof.
  unfold oaks_row. intros H.
  destruct (length (tds row) <? 6); [by injection H as <-|].
  chain H. eexists. split; [by apply item_Some|].
  destruct (negb _ || _); [by injection H as <-|].
  chain H. injection H as <-.
  eexists _, _. split_and!; [by apply item_Some| |done].
  cbv zeta.
  match goal with E : (if ?c then _ else _) = inr _ |- _ =>
    destruct c; [by apply float_inr in E|by injection E as <-] end.
Qed.

Lemma yrcw_row_sum d pm row d' pm' :
  yrcw_row fos (d, pm) row = inr (d', pm') →
  ∃ number value_str,
    row !! "Tracking #" = Some number ∧ row !! "Value" = Some value_str
    ∧ if str_truthy value_str
      then ∃ value,
             fos (remove_char comma (remove_char dollar value_str))
             = Some value
             ∧ d' = <[[clean_csv_tracking number] :=
                        ("yrcw",
                         num_add (previous_cost d [clean_csv_tracking number])
                           (NFloat value),
                         "")]> d
      else d' = d.
Proof.
  unfold yrcw_row. intros H. chain H.
  eexists _, _. split_and!; [by apply field_Some..|].
  destruct (str_truthy _); cbn [negb] in H.
  - chain H. injection H as <- _.
    match goal with E : float_ _ _ = inr _ |- _ =>
      apply float_inr in E as (f & Hf & ->) end.
    by exists f.
  - by injection H as <- _.
Qed.

Lemma gibstrat_row_sum group d row d' :
  gibstrat_row fos group d row = inr d' →
  ∃ number price_s commission_s price_total commission_total,
    row !! "Tracking Number" = Some number
    ∧ row !! "Price Total" = Some price_s
    ∧ row !! "Commission Total" = Some commission_s
    ∧ (let s := remove_char comma (remove_char dollar price_s) in
       if str_truthy s then ∃ f, fos s = Some f ∧ price_total = NFloat f
       else price_total = NFloat 0)
    ∧ (let s := remove_char comma (remove_char dollar commission_s) in
       if str_truthy s then ∃ f, fos s = Some f ∧ commission_total = NFloat f
       else commission_total = NFloat 0)
    ∧ d' = <[[strip (clean_csv_tracking number)] :=
               (group,
                num_add (num_add price_total commission_total)
                  (previous_cost d [strip (clean_csv_tracking number)]),
                "unknown")]> d.
Proof.
  unfold gibstrat_row. intros H. chain H. injection H as <-.
  eexists _, _, _, _, _. split_and!; [by apply field_Some..| | |done].
  - cbv zeta.
    match goal with E : (if ?c then _ else _) = inr n |- _ =>
      destruct c; [by apply float_inr in E|by injection E as <-] end.
  - cbv zeta.
    match goal with E : (if ?c then _ else _) = inr n0 |- _ =>
      destruct c; [by apply float_inr in E|by injection E as <-] end.
Qed.

Lemma busted_cell_sum date cells d i d' :
  busted_cell fos date cells d i = inr d' →
  ∃ t total_text total,
    cells !! (i * 5) = Some t ∧ cells !! (i * 5 + 4) = Some total_text
    ∧ fos (remove_char dollar (remove_char comma total_text)) = Some total
    ∧ d' = <[[strip (upper t)] :=
               ("bfmr",
                num_add (previous_cost d [strip (upper t)]) (NFloat total),
                date)]> d.
Proof.
  unfold busted_cell. intros H. chain H. injection H as <-.
  match goal with E : float_ _ _ = inr _ |- _ =>
    apply float_inr in E as (f & Hf & ->) end.
  eexists _, _, _. split_and!; [by apply item_Some..|exact Hf|done].
Qed.

Lemma standard_row_sum date d row d' :
  standard_row fos date d row = inr d' →
  if length (tds row) =? 5
  then ∃ t total_text total,
         tds row !! 0 = Some t ∧ tds row !! 4 = Some total_text
         ∧ fos (remove_char dollar (remove_char comma (strip total_text)))
           = Some total
         ∧ d' = <[[strip (upper t)] :=
                    ("bfmr",
                     num_add (previous_cost d [strip (upper t)]) (NFloat total),
                     date)]> d
  else d' = d.
Proof.
  unfold standard_row. intros H.
  destruct (length (tds row) =? 5); cbn [negb] in H; [|by injection H as <-].
  chain H. injection H as <-.
  match goal with E : float_ _ _ = inr _ |- _ =>
    apply float_inr in E as (f & Hf & ->) end.
  eexists _, _, _. split_and!; [by apply item_Some..|exact Hf|done].
Qed.

End adapters.

(** C8, as the code has it: every adapter except the usa one adds the cost
    of a row to the cost its key already has in the ledger (0.0 when it has
    none), and stores the sum under that key.  The key and the amount are those of the row: for a
    Melul row with a non-zero TOTAL the tuple of its tracking numbers, with
    the TOTAL when the row is verified and not void and 0.0 otherwise (a row
    with a zero TOTAL stores nothing); for a row of the CSV folder its
    cleaned tracking number with its Total; for an embdeals row its total
    when it has one and is verified, else 0; for an oaks row with six cells
    and a tracking number its sixth cell, 0.0 when blank; for a yrcw row
    with a Value that value; for a gibstrat row its price total plus its
    commission total; for the BFMR tables the cells of the row.  Two rows
    for one key with costs 10.0 and 15.0 give 25.0 in the Melul, CSV-folder,
    embdeals, oaks, yrcw, gibstrat and bfmr ledgers; two rows for "1Z999"
    with 5.00 (verified) and 3.00 (void, or unverified for embdeals) give
    5.00.  The usa adapter stores the price fetched for a tracking number in
    place of what the ledger had. *)
Theorem ledger_accumulates (fos : string → option float)
    (sp : string → option string) :
  (∀ group d pm row d' pm',
     melul_row fos sp group (d, pm) row = inr (d', pm') →
     ∃ void verified total cost date_str date numbers,
       row !! "VOID" = Some void ∧ row !! "VERIFIED" = Some verified
       ∧ row !! "TOTAL" = Some total ∧ fos total = Some cost
       ∧ row !! "CREATED DATE" = Some date_str ∧ sp date_str = Some date
       ∧ row !! "TRACKING NUMBERS" = Some numbers
       ∧ d' = if num_truthy (NFloat cost)
              then <[melul_key numbers :=
                       (group,
                        num_add (previous_cost d (melul_key numbers))
                          (if bool_decide (verified = "1")
                              && negb (bool_decide (void = "1"))
                           then NFloat cost else NFloat 0),
                        date)]> d
              else d)
  ∧ ((∀ group d row d',
        recon_row fos group d row = inr d' →
        ∃ number total_s total,
          row !! "Tracking Number" = Some number
          ∧ row !! "Total" = Some total_s
          ∧ fos (remove_char dash (remove_char comma
                                     (remove_char dollar total_s)))
            = Some total
          ∧ d' = <[[clean_csv_tracking number] :=
                     (group,
                      num_add (previous_cost d [clean_csv_tracking number])
                        (NFloat total),
                      "")]> d)
     ∧ (∀ d row d',
          emb_row fos d row = inr d' →
          ∃ number verified total_s total,
            row !! "tracking" = Some number
            ∧ row !! "is_verified" = Some verified
            ∧ row !! "total" = Some total_s
            ∧ (if str_truthy total_s && bool_decide (verified = "True")
               then ∃ f, fos total_s = Some f ∧ total = NFloat f
               else total = NInt 0)
            ∧ d' = <[[clean_csv_tracking number] :=
                       ("embdeals",
                        num_add (previous_cost d [clean_csv_tracking number])
                          total,
                        "")]> d)
     ∧ (∀ d row d',
          oaks_row fos d row = inr d' →
          if length (tds row) <? 6 then d' = d
          else
            ∃ t1, tds row !! 1 = Some t1
              ∧ if negb (str_truthy (strip (upper t1)))
                   || startswith "TRACKING" (strip (upper t1))
                then d' = d
                else
                  ∃ t5 cost_value,
                    tds row !! 5 = Some t5
                    ∧ (let cost :=
                         strip (remove_char dash (remove_char comma
                                  (remove_char dollar t5))) in
                       if str_truthy cost
                       then ∃ f, fos cost = Some f ∧ cost_value = NFloat f
                       else cost_value = NFloat 0)
                    ∧ d' = <[[strip (upper t1)] :=
                               ("oaks",
                                num_add (previous_cost d [strip (upper t1)])
                                  cost_value,
                                "")]> d)
     ∧ (∀ d pm row d' pm',
          yrcw_row fos (d, pm) row = inr (d', pm') →
          ∃ number value_str,
            row !! "Tracking #" = Some number
            ∧ row !! "Value" = Some value_str
            ∧ if str_truthy value_str
              then ∃ value,
                     fos (remove_char comma (remove_char dollar value_str))
                     = Some value
                     ∧ d' = <[[clean_csv_tracking number] :=
                                ("yrcw",
                                 num_add
                                   (previous_cost d
                                      [clean_csv_tracking number])
                                   (NFloat value),
                                 "")]> d
              else d' = d)
     ∧ (∀ group d row d',
          gibstrat_row fos group d row = inr d' →
          ∃ number price_s commission_s price_total commission_total,
            row !! "Tracking Number" = Some number
            ∧ row !! "Price Total" = Some price_s
            ∧ row !! "Commission Total" = Some commission_s
            ∧ (let s := remove_char comma (remove_char dollar price_s) in
               if str_truthy s
               then ∃ f, fos s = Some f ∧ price_total = NFloat f
               else price_total = NFloat 0)
            ∧ (let s := remove_char comma (remove_char dollar commission_s) in
               if str_truthy s
               then ∃ f, fos s = Some f ∧ commission_total = NFloat f
               else commission_total = NFloat 0)
            ∧ d' = <[[strip (clean_csv_tracking number)] :=
                       (group,
                        num_add (num_add price_total commission_total)
                          (previous_cost d
                             [strip (clean_csv_tracking number)]),
                        "unknown")]> d)
     ∧ (∀ date cells d i d',
          busted_cell fos date cells d i = inr d' →
          ∃ t total_text total,
            cells !! (i * 5) = Some t
            ∧ cells !! (i * 5 + 4) = Some total_text
            ∧ fos (remove_char dollar (remove_char comma total_text))
              = Some total
            ∧ d' = <[[strip (upper t)] :=
                       ("bfmr",
                        num_add (previous_cost d [strip (upper t)])
                          (NFloat total),
                        date)]> d)
     ∧ (∀ date d row d',
          standard_row fos date d row = inr d' →
          if length (tds row) =? 5
          then ∃ t total_text total,
                 tds row !! 0 = Some t ∧ tds row !! 4 = Some total_text
                 ∧ fos (remove_char dollar
                          (remove_char comma (strip total_text)))
                   = Some total
                 ∧ d' = <[[strip (upper t)] :=
                            ("bfmr",
                             num_add (previous_cost d [strip (upper t)])
                               (NFloat total),
                             date)]> d
          else d' = d)
     ∧ (∀ d tracking cost date,
          add_bfmr_cost_if_nonempty d tracking cost date
          = if num_truthy cost
            then <[[tracking] :=
                     ("bfmr", num_add (previous_cost d [tracking]) cost,
                      date)]> d
            else d)
     ∧ (∀ d k, previous_cost d k
               = match d !! k with
                 | Some info => info.1.2
                 | None => NFloat 0
                 end))
  ∧ (∀ number price cost d,
       fos price = Some cost →
       _retrieve_usa_tracking_price fos number (Some price) d
       = <[[number] := ("usa", NFloat cost, "")]> d)
  ∧ (cost_1Z999 (_melul_get_tracking_pos_costs_maps read_float day_of "g"
                   [melul_csv "10.0" "1" "0"; melul_csv "15.0" "1" "0"])
     = Some (NFloat 25)
     ∧ cost_1Z999 (_melul_get_tracking_pos_costs_maps read_float day_of "g"
                     [melul_csv "5.00" "1" "0"; melul_csv "3.00" "1" "1"])
       = Some (NFloat 5)
     ∧ cost_1Z999 (_recon_via_csvs read_float "g"
                     [recon_csv "$10.0"; recon_csv "$15.0"])
       = Some (NFloat 25)
     ∧ cost_1Z999 (_get_emb_tracking_pos_prices read_float
                     [emb_csv "10.0" "True"; emb_csv "15.0" "True"])
       = Some (NFloat 25)
     ∧ cost_1Z999 (_get_emb_tracking_pos_prices read_float
                     [emb_csv "5.00" "True"; emb_csv "3.00" "False"])
       = Some (NFloat 5)
     ∧ cost_1Z999 (_get_oaks_tracking_pos_prices read_float
                     [oaks_tr "$10.0"; oaks_tr "$15.0"])
       = Some (NFloat 25)
     ∧ cost_1Z999 (_get_yrcw_tracking_pos_prices read_float
                     [yrcw_csv "$10.0"; yrcw_csv "$15.0"])
       = Some (NFloat 25)
     ∧ cost_1Z999 (_get_gibstrat_tracking_pos_prices read_float "gibstrat"
                     [gibstrat_csv "10.0"; gibstrat_csv "15.0"])
       = Some (NFloat 25)
     ∧ cost_1Z999 (get* costs := _get_bfmr_costs read_float read_date
                                   [inr payment_mail] in
                   inr (costs, ∅))
       = Some (NFloat 25)).
Proof.
  split_and!.
  - apply melul_row_adds.
  - apply recon_row_sum.
  - apply emb_row_sum.
  - apply oaks_row_sum.
  - apply yrcw_row_sum.
  - apply gibstrat_row_sum.
  - apply busted_cell_sum.
  - apply standard_row_sum.
  - reflexivity.
  - reflexivity.
  - intros number price cost d Hc. unfold _retrieve_usa_tracking_price, float_.
    by rewrite Hc.
  - vm_compute. reflexivity.
  - vm_compute. reflexivity.
  - vm_compute. reflexivity.
  - vm_compute. reflexivity.
  - vm_compute. reflexivity.
  - vm_compute. reflexivity.
  - vm_compute. reflexivity.
  - vm_compute. reflexivity.
  - vm_compute. reflexivity.
Qed.

Lemma ledger_accumulates_witness :
  (∃ d' pm',
     melul_row read_float day_of "g" (∅, ∅) (melul_csv "3.00" "1" "1")
     = inr (d', pm')
     ∧ d' = <[["1Z999"] := ("g", NFloat 0, "2020-05-04")]> ∅)
  ∧ ∃ d',
      recon_row read_float "g" {[ ["1Z999"] := ("g", NFloat 10, "") ]}
        (recon_csv "$15.0") = inr d'
      ∧ d' !! ["1Z999"] = Some ("g", NFloat 25, "").
Proof.
  destruct (ledger_accumulates read_float day_of) as (Hmelul & (Hrecon & _) & _).
  split.
  - destruct (melul_row read_float day_of "g" (∅, ∅) (melul_csv "3.00" "1" "1"))
      as [e|[d' pm']] eqn:Hrow; [by vm_compute in Hrow|].
    exists d', pm'. split; [reflexivity|].
    destruct (Hmelul "g" ∅ ∅ _ d' pm' Hrow)
      as (void & verified & total & cost & date_str & date & numbers
          & Hvoid & Hver & Htot & Hcost & Hds & Hd & Hnum & ->).
    vm_compute in Hvoid, Hver, Htot, Hds, Hnum. simplify_eq.
    vm_compute in Hcost, Hd. simplify_eq. vm_compute. reflexivity.
  - destruct (recon_row read_float "g" {[ ["1Z999"] := ("g", NFloat 10, "") ]}
                (recon_csv "$15.0")) as [e|d'] eqn:Hrow;
      [by vm_compute in Hrow|].
    exists d'. split; [reflexivity|].
    destruct (Hrecon "g" _ _ d' Hrow)
      as (number & total_s & total & Hnum & Htot & Hf & ->).
    vm_compute in Hnum, Htot. simplify_eq.
    vm_compute in Hf. simplify_eq. vm_compute. reflexivity.
Defined.

(** C8 as stated fails for the usa adapter: of two prices 10.0 and 15.0
    fetched for tracking 1Z999 the ledger keeps the later one, 15.0, and
    not their sum. *)
Lemma usa_ledger_replaces :
  cost_1Z999 (inr (usa_ledger read_float
                     [("1Z999", Some "10.0"); ("1Z999", Some "15.0")], ∅))
  = Some (NFloat 15)
  ∧ cost_1Z999 (inr (usa_ledger read_float
                       [("1Z999", Some "10.0"); ("1Z999", Some "15.0")], ∅))
    ≠ Some (NFloat 25).
Proof.
  split; [vm_compute; reflexivity|].
  vm_compute. intros [= H].
Qed.

End ledger_spec.

(** ** One order, one cluster *)

Module partition_spec.
Import clusters store_facts logic logic_facts merge_spec merge_with_spec
  update_spec examples.

Lemma keeps_bind {X Y} P (m : M X) (k : X → M Y) :
  keeps P m → (∀ a, keeps P (k a)) → keeps P (bind m k).
Proof.
  intros Hm Hk h HP. unfold bind. specialize (Hm h HP).
  destruct (m h) as [a h1]. by apply Hk.
Qed.

Lemma keeps_ret {X} P (a : X) : keeps P (ret a).
Proof. by intros h. Qed.

Lemma keeps_attr {X} P r (f : Cluster → X) : keeps P (attr r f).
Proof. by intros h. Qed.

Lemma keeps_if {X} P (b : bool) (m1 m2 : M X) :
  keeps P m1 → keeps P m2 → keeps P (if b then m1 else m2).
Proof. by destruct b. Qed.

Lemma keeps_if_dec {X} P `{Decision Q} (m1 m2 : M X) :
  keeps P m1 → keeps P m2 → keeps P (if decide Q then m1 else m2).
Proof. by destruct (decide Q). Qed.

Lemma keeps_cond {X} P (c : heap → bool) (m1 m2 : M X) :
  keeps P m1 → keeps P m2 → keeps P (λ h, if c h then m1 h else m2 h).
Proof. intros H1 H2 h HP. destruct (c h); [by apply H1|by apply H2]. Qed.

(** [next] and the objects other than [self] under the primitives. *)
Lemma keeps_next_modify n r g : keeps (λ h, next h = n) (modify r g).
Proof. by intros h. Qed.
Lemma keeps_next_set_update n a b : keeps (λ h, next h = n) (set_update a b).
Proof. by intros h. Qed.
Lemma keeps_next_set_update_list n a l :
  keeps (λ h, next h = n) (set_update_list a l).
Proof. by intros h. Qed.
Lemma keeps_next_set_add n a x : keeps (λ h, next h = n) (set_add a x).
Proof. by intros h. Qed.
Lemma keeps_next_list_extend n a b : keeps (λ h, next h = n) (list_extend a b).
Proof. by intros h. Qed.

Lemma keeps_obj_modify r c self g :
  r ≠ self → keeps (λ h, get_obj r h = c) (modify self g).
Proof. intros Hne h Hc. cbn. by rewrite get_obj_put_obj_ne. Qed.
Lemma keeps_obj_set_update r c a b : keeps (λ h, get_obj r h = c) (set_update a b).
Proof. by intros h. Qed.
Lemma keeps_obj_set_update_list r c a l :
  keeps (λ h, get_obj r h = c) (set_update_list a l).
Proof. by intros h. Qed.
Lemma keeps_obj_set_add r c a x : keeps (λ h, get_obj r h = c) (set_add a x).
Proof. by intros h. Qed.
Lemma keeps_obj_list_extend r c a b :
  keeps (λ h, get_obj r h = c) (list_extend a b).
Proof. by intros h. Qed.

Ltac keeps_tac :=
  repeat first
    [ apply keeps_bind; [|intros ?]
    | apply keeps_ret
    | apply keeps_attr
    | apply keeps_cond
    | apply keeps_if_dec
    | apply keeps_if
    | apply keeps_next_modify
    | apply keeps_next_set_update
    | apply keeps_next_set_update_list
    | apply keeps_next_set_add
    | apply keeps_next_list_extend
    | apply keeps_obj_modify; done
    | apply keeps_obj_set_update
    | apply keeps_obj_set_update_list
    | apply keeps_obj_set_add
    | apply keeps_obj_list_extend ].

Lemma attach_next cluster t h : next (attach cluster t h).2 = next h.
Proof.
  assert (keeps (λ h', next h' = next h) (attach cluster t)) as Hk.
  { unfold attach. keeps_tac. }
  by apply Hk.
Qed.

Lemma attach_other cluster t r h :
  r ≠ cluster → get_obj r (attach cluster t h).2 = get_obj r h.
Proof.
  intros Hne.
  assert (keeps (λ h', get_obj r h' = get_obj r h) (attach cluster t)) as Hk.
  { unfold attach. keeps_tac. }
  by apply Hk.
Qed.

Lemma merge_with_next self other h : next (merge_with self other h).2 = next h.
Proof.
  assert (keeps (λ h', next h' = next h) (merge_with self other)) as Hk.
  { unfold merge_with, update_attr, extend_attr. keeps_tac. }
  by apply Hk.
Qed.

Lemma merge_with_other self other r h :
  r ≠ self → get_obj r (merge_with self other h).2 = get_obj r h.
Proof.
  intros Hne.
  assert (keeps (λ h', get_obj r h' = get_obj r h) (merge_with self other)) as Hk.
  { unfold merge_with, update_attr, extend_attr. keeps_tac. }
  by apply Hk.
Qed.

(** What [attach] does to the cluster and to the sets. *)
Lemma attach_effect cluster t h :
  let A := get_obj cluster h in
  let h' := (attach cluster t h).2 in
  get_obj cluster h' = attached (adds_new cluster t h) t A
  ∧ ∀ r, get_set r h' = attached_sets t A (λ r, get_set r h) r.
Proof.
  intros A h'.
  assert (Hs : snap cluster cluster A A (λ r, get_set r h) (λ r, get_list r h) h).
  { split_and!; try done. unfold other_view. by rewrite decide_True. }
  pose proof (attach_snap cluster t A _ _ h _ Hs eq_refl) as Hwp.
  unfold wp in Hwp. by destruct Hwp as (HA & _ & HS & _).
Qed.

(** What [Cluster(group)] allocates. *)
Lemma init_effect g h :
  let c := next h in
  let h1 := (__init__ g h).2 in
  (__init__ g h).1 = c
  ∧ next h1 = c + 6
  ∧ orders (get_obj c h1) = c + 1 ∧ trackings (get_obj c h1) = c + 2
  ∧ (∀ r, r ≠ c → get_obj r h1 = get_obj r h)
  ∧ get_set (c + 1) h1 = ∅
  ∧ get_set (c + 2) h1 = ∅
  ∧ (∀ a, a < c → get_set a h1 = get_set a h).
Proof.
  cbv zeta. unfold __init__, bind, new_obj, new_set, new_list, _initiate, ret.
  cbn [fst snd next].
  split_and!; [done|cbn; lia|..].
  - rewrite get_obj_put_obj_eq. cbn. lia.
  - rewrite get_obj_put_obj_eq. cbn. lia.
  - intros r Hr. rewrite get_obj_put_obj_ne by done.
    unfold get_obj; cbn [objs]. by rewrite lookup_insert_ne.
  - unfold get_set, put_obj; cbn [sets].
    rewrite !lookup_insert_ne by lia.
    replace (next h + 1) with (S (next h)) by lia. by rewrite lookup_insert_eq.
  - unfold get_set, put_obj; cbn [sets].
    rewrite !lookup_insert_ne by lia.
    replace (next h + 2) with (S (S (next h))) by lia. by rewrite lookup_insert_eq.
  - intros a Ha. unfold get_set, put_obj; cbn [sets].
    by rewrite !lookup_insert_ne by lia.
Qed.

Lemma map_orders_lookup c ids (d : gmap string ref) o :
  map_orders c ids d !! o = if bool_decide (o ∈ ids) then Some c else d !! o.
Proof.
  unfold map_orders. rewrite (foldl_insert_lookup (λ x, x)).
  by rewrite list_fmap_id.
Qed.

Lemma one_owner_spec d t o1 o2 r1 r2 :
  one_owner d t = true →
  o1 ∈ tracking.order_ids t → o2 ∈ tracking.order_ids t →
  d !! o1 = Some r1 → d !! o2 = Some r2 → r1 = r2.
Proof.
  unfold one_owner. intros Hone Ho1 Ho2 H1 H2.
  assert (r1 ∈ owners_of d t) as Hr1 by (apply list_elem_of_omap; eauto).
  assert (r2 ∈ owners_of d t) as Hr2 by (apply list_elem_of_omap; eauto).
  destruct (owners_of d t) as [|r rs]; [by apply elem_of_nil in Hr1|].
  rewrite forallb_forall in Hone.
  assert (∀ x, x ∈ r :: rs → x = r) as Hall.
  { intros x [->|Hx]%elem_of_cons; [done|].
    apply list_elem_of_In, Hone, Nat.eqb_eq in Hx. done. }
  by rewrite (Hall r1 Hr1), (Hall r2 Hr2).
Qed.

(** One turn of the loop keeps its state in order, and puts the order IDs
    of the tracking in the working dict. *)
Lemma update_step_inv st t h :
  loop_inv st h → one_owner st.2 t = true →
  loop_inv (update_step st t h).1 (update_step st t h).2
  ∧ (∀ o, o ∈ tracking.order_ids t → is_Some ((update_step st t h).1.2 !! o))
  ∧ (∀ o, is_Some (st.2 !! o) → is_Some ((update_step st t h).1.2 !! o)).
Proof.
  destruct st as [all d]. intros (Hnd & Hobj & Hsp & Hd & Hown) Hone.
  cbn [fst snd] in *.
  pose proof (update_step_attach all d t h) as Hstep.
  destruct (find_cluster d t) as [c|] eqn:Hfind.
  - (* the tracking goes to a cluster of the dict *)
    rewrite Hstep. cbn [fst snd]. clear Hstep.
    apply first_match_Some in Hfind as (o0 & Ho0 & Hdo0).
    destruct (Hd _ _ Hdo0) as [Hc _].
    destruct (Hobj c Hc) as (Hcn & Hco & Hct).
    destruct (attach_effect c t h) as (HA & HS).
    set (h' := (attach c t h).2) in *.
    assert (Hset : ∀ r, r ∈ all → get_set (r + 1) h'
              = if decide (r = c)
                then get_set (c + 1) h ∪ list_to_set (tracking.order_ids t)
                else get_set (r + 1) h).
    { intros r Hr. rewrite HS. unfold attached_sets. rewrite Hco, Hct.
      destruct (decide (r = c)) as [->|Hne].
      - rewrite decide_False by lia. by rewrite decide_True.
      - destruct (Hsp r c Hr Hc Hne); rewrite !decide_False by lia; done. }
    split_and!.
    + split_and!; cbn [fst snd]; [done| | done | |].
      * intros r Hr. unfold h'. rewrite attach_next.
        destruct (decide (r = c)) as [->|Hne].
        -- fold h'. rewrite HA. destruct (adds_new c t h); cbn; auto.
        -- rewrite attach_other by done. auto.
      * intros o r. rewrite map_orders_lookup. case_bool_decide as Hin.
        -- intros [= <-]. split; [done|]. rewrite Hset by done.
           rewrite decide_True by done. set_solver.
        -- intros Hdo. destruct (Hd _ _ Hdo) as [Hr Ho]. split; [done|].
           rewrite Hset by done. destruct (decide (r = c)); set_solver.
      * intros r o Hr. rewrite Hset by done. rewrite map_orders_lookup.
        destruct (decide (r = c)) as [->|Hne].
        -- rewrite elem_of_union, elem_of_list_to_set.
           case_bool_decide; [done|]. intros [Ho|Ho]; [auto|done].
        -- intros Ho. pose proof (Hown r o Hr Ho) as Hdo.
           case_bool_decide as Hin; [|done].
           by rewrite (one_owner_spec d t o o0 r c Hone Hin Ho0 Hdo Hdo0) in Hne.
    + intros o Ho. rewrite map_orders_lookup. by rewrite bool_decide_eq_true_2.
    + intros o Hsome. rewrite map_orders_lookup. by case_bool_decide.
  - (* a new cluster *)
    cbv zeta in Hstep. rewrite Hstep. cbn [fst snd]. clear Hstep.
    unfold find_cluster in Hfind. rewrite first_match_None in Hfind.
    destruct (init_effect (tracking.group t) h)
      as (Hc & Hn1 & Hco & Hct & Hoth & Hso & Hst & Hlow).
    rewrite Hc. set (c := next h) in *. set (h1 := (__init__ _ h).2) in *.
    destruct (attach_effect c t h1) as (HA & HS).
    set (h' := (attach c t h1).2) in *.
    assert (Hfresh : ∀ r, r ∈ all → r + 6 ≤ c).
    { intros r Hr. by destruct (Hobj r Hr). }
    assert (Hcnew : c ∉ all).
    { intros Hin. specialize (Hfresh c Hin). lia. }
    assert (Hset : ∀ r, r ∈ all → get_set (r + 1) h' = get_set (r + 1) h).
    { intros r Hr. rewrite HS. unfold attached_sets. rewrite Hco, Hct.
      specialize (Hfresh r Hr). rewrite !decide_False by lia.
      apply Hlow. lia. }
    assert (Hsetc : get_set (c + 1) h'
              = list_to_set (tracking.order_ids t)).
    { rewrite HS. unfold attached_sets. rewrite Hco, Hct.
      rewrite decide_False by lia. rewrite decide_True by done.
      rewrite Hso. set_solver. }
    split_and!.
    + split_and!; cbn [fst snd].
      * apply NoDup_app. split_and!; [done| |apply NoDup_singleton].
        intros r Hr ->%list_elem_of_singleton. done.
      * intros r [Hr| ->%list_elem_of_singleton]%elem_of_app.
        -- unfold h'. rewrite attach_next, Hn1.
           assert (r ≠ c) by (intros ->; done).
           rewrite attach_other by done. rewrite Hoth by done.
           destruct (Hobj r Hr) as (? & ? & ?). split_and!; [lia|done..].
        -- unfold h'. rewrite attach_next, Hn1. fold h'. rewrite HA.
           split; [lia|]. destruct (adds_new c t h1); cbn; auto.
      * intros r r' [Hr| ->%list_elem_of_singleton]%elem_of_app
                    [Hr'| ->%list_elem_of_singleton]%elem_of_app Hne.
        -- by apply Hsp.
        -- left. by apply Hfresh.
        -- right. by apply Hfresh.
        -- done.
      * intros o r. rewrite map_orders_lookup. case_bool_decide as Hin.
        -- intros [= <-]. split; [apply elem_of_app; right; by left|].
           rewrite Hsetc. by apply elem_of_list_to_set.
        -- intros Hdo. destruct (Hd _ _ Hdo) as [Hr Ho].
           split; [apply elem_of_app; by left|]. by rewrite Hset.
      * intros r o [Hr| ->%list_elem_of_singleton]%elem_of_app.
        -- rewrite Hset by done. intros Ho. pose proof (Hown r o Hr Ho) as Hdo.
           rewrite map_orders_lookup. case_bool_decide as Hin; [|done].
           pose proof (Hfind o Hin) as Hnone. unfold ref in *. congruence.
        -- rewrite Hsetc, elem_of_list_to_set. intros Ho.
           rewrite map_orders_lookup. by rewrite bool_decide_eq_true_2.
    + intros o Ho. rewrite map_orders_lookup. by rewrite bool_decide_eq_true_2.
    + intros o Hsome. rewrite map_orders_lookup. by case_bool_decide.
Qed.

Lemma update_loop_cons st t rest h :
  update_loop st (t :: rest) h
  = update_loop (update_step st t h).1 rest (update_step st t h).2.
Proof. cbn [update_loop]. unfold bind. by destruct (update_step st t h). Qed.

Lemma update_loop_inv ts : ∀ st h,
  loop_inv st h → span_free st ts h = true →
  loop_inv (update_loop st ts h).1 (update_loop st ts h).2
  ∧ (∀ t o, t ∈ ts → o ∈ tracking.order_ids t →
       is_Some ((update_loop st ts h).1.2 !! o))
  ∧ (∀ o, is_Some (st.2 !! o) → is_Some ((update_loop st ts h).1.2 !! o)).
Proof.
  induction ts as [|t rest IH]; intros st h Hinv Hfree.
  - split_and!; [done| |done]. intros t o Ht. by apply elem_of_nil in Ht.
  - cbn [span_free] in Hfree. apply andb_true_iff in Hfree as [Hone Hfree].
    destruct (update_step_inv st t h Hinv Hone) as (Hinv' & Hids & Hmono).
    destruct (IH _ _ Hinv' Hfree) as (Hfin & Hcov & Hmono').
    rewrite update_loop_cons. split_and!; [done| |by auto].
    intros t' o [->|Ht']%elem_of_cons Ho; [by auto|by eauto].
Qed.

Lemma loop_inv_empty h : loop_inv ([], ∅) h.
Proof.
  split_and!; cbn [fst snd].
  - apply NoDup_nil_2.
  - intros r Hr. by apply elem_of_nil in Hr.
  - intros r r' Hr. by apply elem_of_nil in Hr.
  - intros o r Hd. by rewrite lookup_empty in Hd.
  - intros r o Hr. by apply elem_of_nil in Hr.
Qed.

Lemma loop_inv_partitioned st h : loop_inv st h → partitioned st.1 h.
Proof.
  intros (Hnd & Hobj & _ & _ & Hown). split; [done|].
  intros o r r' Hr Hr'. unfold orders_of.
  destruct (Hobj r Hr) as (_ & -> & _). destruct (Hobj r' Hr') as (_ & -> & _).
  intros Ho Ho'. pose proof (Hown r o Hr Ho). pose proof (Hown r' o Hr' Ho').
  unfold ref in *. congruence.
Qed.

(** What [update_clusters] does when no tracking spans two clusters. *)
Lemma update_clusters_from_empty ts h :
  span_free ([], ∅) ts h = true →
  partitioned (update_clusters [] ts h).1 (update_clusters [] ts h).2
  ∧ ∀ t o, t ∈ ts → o ∈ tracking.order_ids t →
      ∃ r, r ∈ (update_clusters [] ts h).1
           ∧ o ∈ orders_of r (update_clusters [] ts h).2.
Proof.
  intros Hfree.
  destruct (update_loop_inv ts ([], ∅) h (loop_inv_empty h) Hfree)
    as (Hinv & Hcov & _).
  unfold update_clusters, bind, ret.
  destruct (update_loop ([], ∅) ts h) as [[all d] h'] eqn:E. cbn [fst snd] in *.
  split; [apply (loop_inv_partitioned (all, d) h' Hinv)|].
  intros t o Ht Ho. destruct (Hcov t o Ht Ho) as [r Hr].
  destruct Hinv as (_ & Hobj & _ & Hd & _). cbn [fst snd] in *.
  destruct (Hd o r Hr) as [Hin Hset]. exists r. split; [done|].
  unfold orders_of. by destruct (Hobj r Hin) as (_ & -> & _).
Qed.

(** A tracking with an order ID that the dict gives to a cluster goes to
    that cluster, and no cluster is created. *)
Lemma update_step_owner st t h o r :
  one_owner st.2 t = true → o ∈ tracking.order_ids t → st.2 !! o = Some r →
  update_step st t h
  = ((st.1, map_orders r (tracking.order_ids t) st.2), (attach r t h).2).
Proof.
  destruct st as [all d]. cbn [fst snd]. intros Hone Ho Hd.
  pose proof (update_step_attach all d t h) as Hstep.
  destruct (find_cluster d t) as [c|] eqn:Hfind.
  - apply first_match_Some in Hfind as (o0 & Ho0 & Hdo0).
    by rewrite (one_owner_spec d t o o0 r c Hone Ho Ho0 Hd Hdo0).
  - unfold find_cluster in Hfind. rewrite first_match_None in Hfind.
    specialize (Hfind o Ho). unfold ref in *. congruence.
Qed.

Section frame.
Context (self : ref) (attrs0 : list ref) (a : ref) (X : gset string).

Lemma keeps_framed_modify g :
  (∀ c, set_attrs (g c) = set_attrs c) → keeps (framed self attrs0 a X) (modify self g).
Proof.
  intros Hg h [Hat Hs]. split; [|done]. cbn.
  by rewrite get_obj_put_obj_eq, Hg.
Qed.

Lemma keeps_framed_update_attr f other :
  (∀ c, f c ∈ set_attrs c) → a ∉ attrs0 →
  keeps (framed self attrs0 a X) (update_attr f self other).
Proof.
  intros Hf Ha h [Hat Hs]. split; [done|].
  unfold update_attr, bind, attr, set_update. cbn [fst snd].
  rewrite get_set_put_set_ne; [done|].
  intros Heq. apply Ha. rewrite <- Hat, <- Heq. apply Hf.
Qed.

Lemma keeps_framed_extend_attr f other :
  keeps (framed self attrs0 a X) (extend_attr f self other).
Proof. by intros h [Hat Hs]. Qed.

End frame.

Ltac framed_tac :=
  repeat first
    [ apply keeps_framed_update_attr;
        [intros ?; unfold set_attrs; set_solver | done]
    | apply keeps_framed_extend_attr
    | apply keeps_framed_modify; intros ?; reflexivity
    | apply keeps_bind; [|intros ?]
    | apply keeps_ret
    | apply keeps_attr
    | apply keeps_if_dec
    | apply keeps_if ].

Lemma merge_with_frame self other a h :
  a ∉ set_attrs (get_obj self h) →
  set_attrs (get_obj self (merge_with self other h).2)
  = set_attrs (get_obj self h)
  ∧ get_set a (merge_with self other h).2 = get_set a h.
Proof.
  intros Ha.
  assert (keeps (framed self (set_attrs (get_obj self h)) a (get_set a h))
            (merge_with self other)) as Hk.
  { unfold merge_with. framed_tac. }
  by apply Hk.
Qed.

Lemma merge_with_attrs self other h :
  set_attrs (get_obj self (merge_with self other h).2)
  = set_attrs (get_obj self h).
Proof.
  assert (keeps (λ h', set_attrs (get_obj self h') = set_attrs (get_obj self h))
            (merge_with self other)) as Hk.
  { assert (∀ g, (∀ c, set_attrs (g c) = set_attrs c) →
              keeps (λ h', set_attrs (get_obj self h')
                           = set_attrs (get_obj self h)) (modify self g)) as Hm.
    { intros g Hg h' Hat. cbn. by rewrite get_obj_put_obj_eq, Hg. }
    unfold merge_with, update_attr, extend_attr.
    repeat first
      [ apply Hm; intros ?; reflexivity
      | apply keeps_bind; [|intros ?]
      | apply keeps_ret
      | apply keeps_attr
      | apply keeps_if_dec
      | apply keeps_if
      | (by intros ? ?) ]. }
  by apply Hk.
Qed.

Lemma merge_with_orders self other h :
  apart (get_obj self h) (get_obj other h) →
  get_set (orders (get_obj self h)) (merge_with self other h).2
  = get_set (orders (get_obj self h)) h ∪ get_set (orders (get_obj other h)) h.
Proof.
  intros Hap.
  assert (Hs : snap self other (get_obj self h) (get_obj other h)
                 (λ r, get_set r h) (λ r, get_list r h) h).
  { split_and!; try done. unfold other_view.
    by destruct (decide (self = other)) as [->|]. }
  assert (Hsame : self = other → get_obj self h = get_obj other h)
    by (by intros ->).
  pose proof (merge_with_snap self other _ _ _ _ h Hs Hap Hsame) as Hwp.
  unfold wp in Hwp. cbv zeta in Hwp. by destruct Hwp as (_ & (Ho & _) & _).
Qed.

Lemma set_attrs_orders c c' :
  set_attrs c = set_attrs c' → orders c = orders c'.
Proof. by intros [= -> _]. Qed.

Lemma separate_attrs cs h h1 :
  (∀ r, r ∈ cs → set_attrs (get_obj r h1) = set_attrs (get_obj r h)) →
  separate cs h → separate cs h1.
Proof.
  intros Hat [Hap Hord]. split.
  - intros r r' Hr Hr'. specialize (Hap r r' Hr Hr'). unfold apart in *.
    by rewrite (Hat r Hr), (Hat r' Hr').
  - intros r r' Hr Hr' Hne.
    rewrite (set_attrs_orders _ _ (Hat r Hr)), (set_attrs_orders _ _ (Hat r' Hr')).
    by apply Hord.
Qed.

Lemma separate_subseteq cs cs' h :
  (∀ r, r ∈ cs' → r ∈ cs) → separate cs h → separate cs' h.
Proof. intros Hsub [Hap Hord]. split; intros r r' Hr Hr'; auto. Qed.

Lemma separate_orders_not_attr cs h r rep :
  separate cs h → r ∈ cs → rep ∈ cs → r ≠ rep →
  orders (get_obj r h) ∉ set_attrs (get_obj rep h).
Proof.
  intros [Hap Hord] Hr Hrep Hne Hin.
  apply list_elem_of_lookup in Hin as [i Hi].
  destruct (decide (i = 0)) as [->|Hi0].
  - injection Hi as Hi. by apply (Hord r rep Hr Hrep Hne).
  - by apply (apart_ne _ _ i 0 _ _ (Hap rep r Hrep Hr) Hi eq_refl Hi0).
Qed.

Section merge_partition.
Context `{SetOrder}.

Lemma find_by_shared_attr_value c em pm h rep :
  find_by_shared_attr c em pm h = Some rep →
  (∃ k, pm !! k = Some rep) ∨ (∃ k, em !! k = Some rep).
Proof.
  unfold find_by_shared_attr.
  destruct (first_match pm _) as [found|] eqn:E.
  - intros [= <-]. apply first_match_Some in E as (k & _ & Hk). eauto.
  - intros (k & _ & Hk)%first_match_Some. eauto.
Qed.

(** The effect of one merge on the order sets of a separate list. *)
Lemma merge_with_orders_of cs rep c h :
  separate cs h → rep ∈ cs → c ∈ cs →
  let h1 := (merge_with rep c h).2 in
  orders_of rep h1 = orders_of rep h ∪ orders_of c h
  ∧ (∀ r, r ∈ cs → r ≠ rep → orders_of r h1 = orders_of r h)
  ∧ (∀ r, r ∈ cs → set_attrs (get_obj r h1) = set_attrs (get_obj r h)).
Proof.
  intros Hsep Hrep Hc h1.
  assert (Hat : ∀ r, r ∈ cs → set_attrs (get_obj r h1) = set_attrs (get_obj r h)).
  { intros r Hr. destruct (decide (r = rep)) as [->|Hne].
    - apply merge_with_attrs.
    - unfold h1. by rewrite merge_with_other. }
  split_and!; [| |done].
  - unfold orders_of. rewrite (set_attrs_orders _ _ (Hat rep Hrep)).
    apply merge_with_orders. by apply Hsep.
  - intros r Hr Hne. unfold orders_of, h1. rewrite merge_with_other by done.
    apply merge_with_frame. by apply (separate_orders_not_attr cs).
Qed.

Lemma merge_loop_partition rest : ∀ result em pm h,
  partitioned (result ++ rest) h → separate (result ++ rest) h →
  (∀ k r, em !! k = Some r → r ∈ result) →
  (∀ k r, pm !! k = Some r → r ∈ result) →
  partitioned (merge_loop rest result em pm h).1 (merge_loop rest result em pm h).2
  ∧ separate (merge_loop rest result em pm h).1 (merge_loop rest result em pm h).2
  ∧ ∀ o, (∃ r, r ∈ (merge_loop rest result em pm h).1
               ∧ o ∈ orders_of r (merge_loop rest result em pm h).2)
         ↔ (∃ r, r ∈ result ++ rest ∧ o ∈ orders_of r h).
Proof.
  induction rest as [|c rest IH]; intros result em pm h Hpart Hsep Hem Hpm.
  - cbn [merge_loop ret fst snd]. rewrite app_nil_r in *. done.
  - rewrite merge_loop_cons.
    destruct (find_by_shared_attr c em pm h) as [rep|] eqn:Hfind; cbv zeta.
    + (* [c] is merged into [rep] *)
      assert (Hrep : rep ∈ result).
      { apply find_by_shared_attr_value in Hfind as [[k Hk]|[k Hk]]; eauto. }
      destruct Hpart as [Hnd Huniq].
      apply NoDup_app in Hnd as (Hnd1 & Hdisj & Hnd2).
      apply NoDup_cons in Hnd2 as [Hc Hnd2].
      assert (Hrep' : rep ∈ result ++ c :: rest) by (apply elem_of_app; by left).
      assert (Hc' : c ∈ result ++ c :: rest)
        by (apply elem_of_app; right; by left).
      assert (Hsub : ∀ r, r ∈ result ++ rest → r ∈ result ++ c :: rest).
      { intros r [?|?]%elem_of_app; apply elem_of_app; [by left|right; by right]. }
      assert (Hcout : c ∉ result ++ rest).
      { intros [Hin|Hin]%elem_of_app; [|done]. by apply (Hdisj c Hin); left. }
      destruct (merge_with_orders_of _ rep c h Hsep Hrep' Hc')
        as (Horep & Hoth & Hat).
      set (h1 := (merge_with rep c h).2) in *.
      destruct (fill_maps_lookup rep em pm h1) as [Hfe Hfp].
      destruct (IH result (fill_email_po_group_maps rep em pm h1).1
                  (fill_email_po_group_maps rep em pm h1).2 h1)
        as (IHp & IHs & IHu).
      * split.
        -- apply NoDup_app. split_and!; [done| |done].
           intros r Hr Hr'. apply (Hdisj r Hr). by right.
        -- intros o r r' Hr Hr' Ho Ho'.
           destruct (decide (r = rep)) as [->|Hne];
             destruct (decide (r' = rep)) as [->|Hne']; [done| | |].
           ++ rewrite Horep in Ho. rewrite Hoth in Ho' by auto.
              apply elem_of_union in Ho as [Ho|Ho].
              ** apply (Huniq o); auto.
              ** exfalso. apply Hcout. by rewrite <- (Huniq o r' c); auto.
           ++ rewrite Horep in Ho'. rewrite Hoth in Ho by auto.
              apply elem_of_union in Ho' as [Ho'|Ho'].
              ** apply (Huniq o); auto.
              ** exfalso. apply Hcout. by rewrite <- (Huniq o r c); auto.
           ++ rewrite Hoth in Ho, Ho' by auto. apply (Huniq o); auto.
      * apply (separate_subseteq (result ++ c :: rest)); [done|].
        by apply (separate_attrs _ h).
      * intros k r. rewrite Hfe. case_bool_decide; [by intros [= <-]|apply Hem].
      * intros [po g] r. rewrite Hfp. case_bool_decide; [by intros [= <-]|apply Hpm].
      * split_and!; [done..|]. intros o. rewrite IHu. split.
        -- intros (r & Hr & Ho). destruct (decide (r = rep)) as [->|Hne].
           ++ rewrite Horep in Ho. apply elem_of_union in Ho as [Ho|Ho]; eauto.
           ++ rewrite Hoth in Ho by auto. eauto.
        -- intros (r & Hr & Ho).
           destruct (decide (r = c)) as [->|Hnc].
           ++ exists rep. split; [apply elem_of_app; by left|].
              rewrite Horep. apply elem_of_union. by right.
           ++ assert (r ∈ result ++ rest) as Hr'.
              { apply elem_of_app in Hr as [?|[?|?]%elem_of_cons];
                  [apply elem_of_app; by left|done|apply elem_of_app; by right]. }
              exists r. split; [done|].
              destruct (decide (r = rep)) as [->|Hne].
              ** rewrite Horep. apply elem_of_union. by left.
              ** by rewrite Hoth by auto.
    + (* [c] is kept *)
      destruct (fill_maps_lookup c em pm h) as [Hfe Hfp].
      assert (Heq : (result ++ [c]) ++ rest = result ++ c :: rest)
        by (by rewrite <- app_assoc).
      destruct (IH (result ++ [c]) (fill_email_po_group_maps c em pm h).1
                  (fill_email_po_group_maps c em pm h).2 h)
        as (IHp & IHs & IHu).
      * by rewrite Heq.
      * by rewrite Heq.
      * intros k r. rewrite Hfe. case_bool_decide.
        -- intros [= <-]. apply elem_of_app. right. by left.
        -- intros Hk. apply elem_of_app. left. by apply (Hem k).
      * intros [po g] r. rewrite Hfp. case_bool_decide.
        -- intros [= <-]. apply elem_of_app. right. by left.
        -- intros Hk. apply elem_of_app. left. by apply (Hpm (po, g)).
      * split_and!; [done..|]. intros o. rewrite IHu. by rewrite Heq.
Qed.

Lemma run_merge_iteration_partition cs h :
  partitioned cs h → separate cs h →
  partitioned (run_merge_iteration cs h).1 (run_merge_iteration cs h).2
  ∧ separate (run_merge_iteration cs h).1 (run_merge_iteration cs h).2
  ∧ ∀ o, (∃ r, r ∈ (run_merge_iteration cs h).1
               ∧ o ∈ orders_of r (run_merge_iteration cs h).2)
         ↔ (∃ r, r ∈ cs ∧ o ∈ orders_of r h).
Proof.
  intros Hp Hs. apply (merge_loop_partition cs [] ∅ ∅ h); try done.
Qed.

Lemma merge_orders_loop_partition fuel : ∀ cs h cs' h',
  partitioned cs h → separate cs h →
  merge_orders_loop fuel cs h = Some (cs', h') →
  partitioned cs' h' ∧ separate cs' h'
  ∧ ∀ o, (∃ r, r ∈ cs' ∧ o ∈ orders_of r h')
         ↔ (∃ r, r ∈ cs ∧ o ∈ orders_of r h).
Proof.
  induction fuel as [|fuel IH]; intros cs h cs' h' Hp Hs Hrun; [done|].
  rewrite merge_orders_loop_S in Hrun.
  destruct (run_merge_iteration_partition cs h Hp Hs) as (Hp1 & Hs1 & Hu1).
  destruct (decide _) as [Hlen|Hlen].
  - injection Hrun as Hrun. rewrite Hrun in *. done.
  - destruct (IH _ _ _ _ Hp1 Hs1 Hrun) as (Hp2 & Hs2 & Hu2).
    split_and!; [done..|]. intros o. by rewrite Hu2, Hu1.
Qed.

End merge_partition.

Lemma apart_self A : NoDup (set_attrs A) → apart A A.
Proof. intros Hnd. split; [done|]. intros i j a b. by apply NoDup_ne. Qed.

Lemma apart_disjoint A B : NoDup (set_attrs A ++ set_attrs B) → apart A B.
Proof.
  intros (Hnd & Hdisj & _)%NoDup_app. split; [done|].
  intros i j a b Ha Hb _ ->. apply (Hdisj b).
  - by apply list_elem_of_lookup_2 in Ha.
  - by apply list_elem_of_lookup_2 in Hb.
Qed.

Section partition.
Context `{SetOrder}.

(** C1, as the code has it.  When [update_clusters] starts from an empty
    list of clusters and no tracking, at its turn, carries order IDs that
    the working dict gives to two different clusters, the resulting
    clusters are different objects no two of which hold a common order ID,
    and every order ID of every tracking is held by one of them.  A
    tracking with an order ID that the working dict gives to a cluster is
    attached to that cluster, and no cluster is created for it.
    [merge_orders] keeps one cluster per order: from clusters no two of
    which hold a common order ID (and whose sets are separate objects) it
    returns such clusters again, holding the same order IDs. *)
Theorem one_order_one_cluster :
  (∀ ts h,
     span_free ([], ∅) ts h = true →
     partitioned (update_clusters [] ts h).1 (update_clusters [] ts h).2
     ∧ ∀ t o, t ∈ ts → o ∈ tracking.order_ids t →
         ∃ r, r ∈ (update_clusters [] ts h).1
              ∧ o ∈ orders_of r (update_clusters [] ts h).2)
  ∧ (∀ st t h o r,
       one_owner st.2 t = true → o ∈ tracking.order_ids t →
       st.2 !! o = Some r →
       update_step st t h
       = ((st.1, map_orders r (tracking.order_ids t) st.2), (attach r t h).2))
  ∧ (∀ cs h,
       partitioned cs h → separate cs h →
       ∃ cs' h', merge_orders cs h = Some (cs', h')
         ∧ partitioned cs' h' ∧ separate cs' h'
         ∧ ∀ o, (∃ r, r ∈ cs' ∧ o ∈ orders_of r h')
                ↔ (∃ r, r ∈ cs ∧ o ∈ orders_of r h)).
Proof.
  split_and!.
  - apply update_clusters_from_empty.
  - apply update_step_owner.
  - intros cs h Hp Hs.
    destruct (merge_orders_loop_reaches (length cs) cs h)
      as (k & Hk & _ & _ & Hloop & _); [done|].
    destruct (passes k cs h) as [cs' h'] eqn:E.
    assert (merge_orders cs h = Some (cs', h')) as Hrun.
    { unfold merge_orders. apply Hloop. lia. }
    exists cs', h'. split; [done|].
    by apply (merge_orders_loop_partition (S (length cs)) cs h).
Qed.

End partition.

(** Two clusters with purchase order P1 and the same group: one pass leaves
    the first, holding the orders of both, and a second pass changes
    nothing. *)
Example merge_shared_purchase_order :
  (run_merge_iteration [20; 30] same_group).1 = [20]
  ∧ orders_of 20 (run_merge_iteration [20; 30] same_group).2 = {["O1"; "O2"]}
  ∧ merge_orders [20; 30] same_group
    = Some (run_merge_iteration [20; 30] same_group).
Proof. split_and!; vm_compute; reflexivity. Qed.

Lemma one_order_one_cluster_witness :
  partitioned (update_clusters [] plain_trackings module_heap).1
    (update_clusters [] plain_trackings module_heap).2
  ∧ ∃ cs' h', merge_orders [20; 30] same_group = Some (cs', h')
      ∧ partitioned cs' h'
      ∧ ∃ r, r ∈ cs' ∧ "O2" ∈ orders_of r h'.
Proof.
  destruct (one_order_one_cluster (H := elements_order)) as (Hupd & _ & Hmerge).
  split.
  - apply Hupd. vm_compute. reflexivity.
  - assert (Ho20 : orders_of 20 same_group = {["O1"]})
      by (vm_compute; reflexivity).
    assert (Ho30 : orders_of 30 same_group = {["O2"]})
      by (vm_compute; reflexivity).
    assert (Hcases : ∀ r, r ∈ [20; 30] → r = 20 ∨ r = 30).
    { intros r Hr. apply elem_of_cons in Hr as [->|Hr]; [by left|].
      apply list_elem_of_singleton in Hr as ->. by right. }
    destruct (Hmerge [20; 30] same_group) as (cs' & h' & Hrun & Hp & _ & Hu).
    + split; [compute_done|].
      intros o r r' Hr Hr' Ho Ho'.
      destruct (Hcases r Hr) as [->| ->]; destruct (Hcases r' Hr') as [->| ->];
        [reflexivity| | |reflexivity]; exfalso.
      * rewrite Ho20 in Ho. rewrite Ho30 in Ho'.
        apply elem_of_singleton in Ho. apply elem_of_singleton in Ho'.
        rewrite Ho in Ho'. discriminate Ho'.
      * rewrite Ho30 in Ho. rewrite Ho20 in Ho'.
        apply elem_of_singleton in Ho. apply elem_of_singleton in Ho'.
        rewrite Ho in Ho'. discriminate Ho'.
    + split.
      * intros r r' Hr Hr'.
        destruct (Hcases r Hr) as [->| ->]; destruct (Hcases r' Hr') as [->| ->].
        -- apply apart_self. compute_done.
        -- apply apart_disjoint. compute_done.
        -- apply apart_disjoint. compute_done.
        -- apply apart_self. compute_done.
      * intros r r' Hr Hr' Hne.
        destruct (Hcases r Hr) as [->| ->]; destruct (Hcases r' Hr') as [->| ->];
          [by destruct Hne| | |by destruct Hne]; vm_compute; discriminate.
    + exists cs', h'. split; [exact Hrun|]. split; [exact Hp|]. apply Hu.
      exists 30. split; [by right; left|]. rewrite Ho30. by apply elem_of_singleton.
Defined.

(** C1 as stated fails.  On a cluster that holds order O1 and on four
    trackings, [update_clusters] leaves four clusters: order B is held by
    two of them (the third tracking carried A and B, held by two clusters,
    and went to the first), and order O1 by two of them (the cluster that
    held it was never entered in the working dict, so the fourth tracking
    got a cluster of its own). *)
Lemma update_clusters_splits_orders :
  existing_run.1 = [10; 16; 22; 28]
  ∧ "B" ∈ orders_of 16 existing_run.2 ∧ "B" ∈ orders_of 22 existing_run.2
  ∧ "O1" ∈ orders_of 10 existing_run.2 ∧ "O1" ∈ orders_of 28 existing_run.2
  ∧ ¬ partitioned existing_run.1 existing_run.2.
Proof.
  assert (Hcs : existing_run.1 = [10; 16; 22; 28]) by (vm_compute; reflexivity).
  assert (HB1 : "B" ∈ orders_of 16 existing_run.2) by compute_done.
  assert (HB2 : "B" ∈ orders_of 22 existing_run.2) by compute_done.
  assert (HO1 : "O1" ∈ orders_of 10 existing_run.2) by compute_done.
  assert (HO2 : "O1" ∈ orders_of 28 existing_run.2) by compute_done.
  split; [exact Hcs|]. split; [exact HB1|]. split; [exact HB2|].
  split; [exact HO1|]. split; [exact HO2|].
  intros [_ Huniq]. rewrite Hcs in Huniq.
  assert (16 = 22) as Heq; [|discriminate Heq].
  apply (Huniq "B"); [|  |exact HB1|exact HB2].
  - right. left.
  - right. right. left.
Qed.

End partition_spec.

(** ** Rows written by [to_row] and read back by [from_row] *)

Module sheet_spec.
Import clusters store_facts logic sheet from_row_spec.

Lemma split_cons_not_nil sep s : split sep s ≠ [].
Proof.
  destruct s as [|c s]; cbn; [done|].
  destruct (Ascii.eqb c sep); [done|]. by destruct (split sep s).
Qed.

Lemma split_no_sep sep x : has_char sep x = false → split sep x = [x].
Proof.
  induction x as [|c x IH]; cbn -[Ascii.eqb]; [done|].
  intros [Hc Hx]%orb_false_iff. rewrite Hc, (IH Hx). done.
Qed.

Lemma split_app_sep sep x s :
  has_char sep x = false →
  split sep (x +:+ String sep s) = x :: split sep s.
Proof.
  induction x as [|c x IH].
  - intros _. change ("" +:+ String sep s) with (String sep s).
    cbn -[Ascii.eqb]. by rewrite Ascii.eqb_refl.
  - change (String c x +:+ String sep s) with (String c (x +:+ String sep s)).
    cbn -[Ascii.eqb]. intros [Hc Hx]%orb_false_iff. rewrite Hc, (IH Hx). done.
Qed.

Lemma split_join l :
  (∀ x, x ∈ l → has_char comma x = false) →
  split comma (join ", " l)
  = match l with
    | [] => [""]
    | x :: rest => x :: (String " " <$> rest)
    end.
Proof.
  induction l as [|x l IH]; intros Hl; [done|].
  destruct l as [|y l].
  - cbn [join fmap list_fmap]. apply split_no_sep, Hl. left.
  - change (join ", " (x :: y :: l))
      with (x +:+ String comma (String " " (join ", " (y :: l)))).
    rewrite split_app_sep by (apply Hl; left).
    change (split comma (String " " (join ", " (y :: l))))
      with (match split comma (join ", " (y :: l)) with
            | [] => [String " " ""]
            | w :: ws => String " " w :: ws
            end).
    rewrite IH by (intros z Hz; apply Hl; by right). done.
Qed.

Lemma length_lstrip s : String.length (lstrip s) ≤ String.length s.
Proof. induction s as [|c s IH]; cbn; [done|]. destruct (is_space c); cbn; lia. Qed.

Lemma length_rstrip s : String.length (rstrip s) ≤ String.length s.
Proof.
  induction s as [|c s IH]; cbn; [done|].
  destruct (rstrip s); [destruct (is_space c)|]; cbn in *; lia.
Qed.

Lemma strip_fixed x : strip x = x → lstrip x = x ∧ rstrip x = x.
Proof.
  unfold strip. intros Hx.
  assert (lstrip x = x) as Hl.
  { destruct x as [|c x]; [done|]. cbn in *. destruct (is_space c); [|done].
    pose proof (length_rstrip (lstrip x)). pose proof (length_lstrip x).
    rewrite Hx in *. cbn in *. lia. }
  split; [done|]. by rewrite Hl in Hx.
Qed.

Lemma strip_space x : strip (String " " x) = strip x.
Proof. done. Qed.

Lemma split_strip_join l :
  l ≠ [] → (∀ x, x ∈ l → clean x) → split_strip (join ", " l) = l.
Proof.
  intros Hne Hl. unfold split_strip.
  rewrite split_join by (intros x Hx; by destruct (Hl x Hx) as (_ & ? & _)).
  destruct l as [|x rest]; [done|]. cbn [fmap list_fmap].
  f_equal.
  - destruct (Hl x) as (_ & _ & ?); [left|done].
  - rewrite <- list_fmap_compose.
    rewrite <- (list_fmap_id rest) at 2. apply list_fmap_ext.
    intros i y Hy. change (strip y = y).
    destruct (Hl y) as (_ & _ & ?); [right; by eapply list_elem_of_lookup_2|done].
Qed.

Lemma join_truthy l :
  l ≠ [] → (∀ x, x ∈ l → clean x) → str_truthy (join ", " l) = true.
Proof.
  intros Hne Hl. destruct l as [|x rest]; [done|].
  destruct (Hl x) as (Hx & _); [left|].
  destruct x as [|c x]; [done|]. by destruct rest.
Qed.

Section round_trip.
Context `{SetOrder}.
Context (fos : string → option float).

Lemma list_to_set_set_iter (X : gset string) : list_to_set (set_iter X) = X.
Proof.
  apply set_eq. intros x. by rewrite elem_of_list_to_set, set_iter_elem_of.
Qed.

Lemma set_iter_nil (X : gset string) : set_iter X = [] ↔ X = ∅.
Proof.
  split.
  - intros Hnil. apply set_eq. intros x.
    rewrite <- set_iter_elem_of, Hnil. set_solver.
  - intros ->. destruct (set_iter ∅) as [|x l] eqn:E; [done|].
    assert (x ∈ (∅ : gset string)) as Hx by (apply set_iter_elem_of; rewrite E; left).
    set_solver.
Qed.

Lemma set_cell (X : gset string) :
  X ≠ ∅ → (∀ x, x ∈ X → clean x) →
  list_to_set (split_strip (join ", " (set_iter X))) = X
  ∧ str_truthy (join ", " (set_iter X)) = true.
Proof.
  intros Hne Hcl.
  assert (set_iter X ≠ []) as Hl by (by rewrite set_iter_nil).
  assert (∀ x, x ∈ set_iter X → clean x) as Hcl'.
  { intros x Hx. by apply Hcl, set_iter_elem_of. }
  rewrite split_strip_join, join_truthy by done.
  by rewrite list_to_set_set_iter.
Qed.

Lemma texts_row self h srow :
  texts (to_row self h) srow →
  let A := get_obj self h in
  ∃ e b r a m d, srow =
    [join ", " (set_iter (get_set (orders A) h));
     join ", " (set_iter (get_set (trackings A) h)); e; b; r;
     join ", " (set_iter (get_set (non_reimbursed_trackings A) h));
     last_ship_date A; last_delivery_date A;
     "'" +:+ join ", " (set_iter (get_set (purchase_orders A) h));
     group A; a; m; d; notes A;
     join ", " (get_list (cancelled_items A) h)].
Proof.
  intros Ht A. unfold texts, to_row in Ht. cbv zeta in Ht. fold A in Ht.
  repeat match goal with
         | Ht : Forall2 _ (_ :: _) _ |- _ =>
             apply Forall2_cons_inv_l in Ht as (? & ? & ? & Ht & ->)
         | Ht : Forall2 _ [] _ |- _ => apply Forall2_nil_inv_l in Ht as ->
         end.
  repeat match goal with
         | Hs : ∀ s', VStr ?s = VStr s' → _ = s' |- _ =>
             specialize (Hs _ eq_refl); subst
         end.
  by do 6 eexists.
Qed.

Lemma header_columns s0 s1 s2 s3 s4 s5 s6 s7 s8 s9 s10 s11 s12 s13 s14 :
  let srow := [s0; s1; s2; s3; s4; s5; s6; s7; s8; s9; s10; s11; s12; s13; s14] in
  column get_header srow "Orders" = inr (Some s0)
  ∧ column get_header srow "Trackings" = inr (Some s1)
  ∧ column get_header srow "Non-Reimbursed Trackings" = inr (Some s5)
  ∧ column get_header srow "Last Ship Date" = inr (Some s6)
  ∧ column get_header srow "Last Delivery Date (Est.)" = inr (Some s7)
  ∧ column get_header srow "POs" = inr (Some s8)
  ∧ column get_header srow "Group" = inr (Some s9)
  ∧ column get_header srow "Notes" = inr (Some s13)
  ∧ column get_header srow "Cancelled Items" = inr (Some s14).
Proof. cbv zeta. split_and!; vm_compute; reflexivity. Qed.

(** X1: a row written by [to_row] and read back by [from_row] under the
    header of [get_header] gives a cluster with the same order IDs, tracking
    numbers, non-reimbursed trackings, cancelled items, group, notes and
    dates, when the items are clean (not empty, no comma, no white space
    around) and the amounts read as numbers.  An empty set of orders or of
    trackings comes back as the set of the empty string, and the email IDs
    come back empty. *)
Theorem sheet_round_trip self h srow h0 :
  let A := get_obj self h in
  texts (to_row self h) srow →
  (∀ name, name ∈ numeric_columns →
     ∀ s, column get_header srow name = inr (Some s) → s ≠ "" → is_Some (fos s)) →
  (∀ x, x ∈ get_set (orders A) h ∪ get_set (trackings A) h
            ∪ get_set (non_reimbursed_trackings A) h → clean x) →
  (∀ x, x ∈ get_list (cancelled_items A) h → clean x) →
  ∃ c h', from_row fos get_header srow h0 = inr (c, h')
    ∧ let C := get_obj c h' in
      get_set (orders C) h'
      = (if decide (get_set (orders A) h = ∅) then {[""]}
         else get_set (orders A) h)
      ∧ get_set (trackings C) h'
        = (if decide (get_set (trackings A) h = ∅) then {[""]}
           else get_set (trackings A) h)
      ∧ get_set (non_reimbursed_trackings C) h'
        = get_set (non_reimbursed_trackings A) h
      ∧ get_list (cancelled_items C) h' = get_list (cancelled_items A) h
      ∧ group C = group A ∧ notes C = notes A
      ∧ last_ship_date C = last_ship_date A
      ∧ last_delivery_date C = last_delivery_date A
      ∧ get_set (email_ids C) h' = ∅.
Proof.
  intros A Ht Hnum Hsets Hlist.
  destruct (texts_row self h srow Ht) as (e & b & r & a & m & d & Hrow).
  fold A in Hrow.
  destruct (from_row_returns fos get_header srow h0) as (c & h' & Hrun).
  { intros name Hin. rewrite Hrow. unfold columns in Hin.
    repeat (apply elem_of_cons in Hin as [->|Hin]; [vm_compute; eauto|]).
    by apply elem_of_nil in Hin. }
  { exact Hnum. }
  exists c, h'. split; [exact Hrun|].
  destruct (from_row_result fos get_header srow h0 c h' Hrun)
    as (o & t & b' & r' & n & ls & ld & p & g & a' & m' & e' & no & ci & eb & er
        & ea & Ho & Ht' & _ & _ & Hn & Hls & Hld & _ & Hg & _ & _ & _ & Hno
        & Hci & _ & _ & _ & HC & So & St & Sn & _ & Se & Lc).
  rewrite Hrow in Ho, Ht', Hn, Hls, Hld, Hg, Hno, Hci.
  match type of Ho with
  | column _ [?s0; ?s1; ?s2; ?s3; ?s4; ?s5; ?s6; ?s7; ?s8; ?s9; ?s10; ?s11;
              ?s12; ?s13; ?s14] _ = _ =>
      destruct (header_columns s0 s1 s2 s3 s4 s5 s6 s7 s8 s9 s10 s11 s12 s13 s14)
        as (Co & Ct & Cn & Cls & Cld & _ & Cg & Cno & Cci)
  end.
  cbv zeta in Co, Ct, Cn, Cls, Cld, Cg, Cno, Cci.
  rewrite Co in Ho. rewrite Ct in Ht'. rewrite Cn in Hn. rewrite Cls in Hls.
  rewrite Cld in Hld. rewrite Cg in Hg. rewrite Cno in Hno. rewrite Cci in Hci.
  injection Ho as <-. injection Ht' as <-. injection Hn as <-.
  injection Hls as <-. injection Hld as <-. injection Hg as <-.
  injection Hno as <-. injection Hci as <-.
  cbv zeta. rewrite HC.
  cbn [orders trackings group notes last_ship_date last_delivery_date
       email_ids non_reimbursed_trackings cancelled_items from_option default
       id].
  rewrite So, St, Sn, Se, Lc. cbn [from_option default id].
  split_and!; try done.
  - destruct (decide (get_set (orders A) h = ∅)) as [He|Hne].
    + apply set_iter_nil in He. rewrite He. done.
    + apply set_cell; [done|]. intros x Hx. apply Hsets. set_solver.
  - destruct (decide (get_set (trackings A) h = ∅)) as [He|Hne].
    + apply set_iter_nil in He. rewrite He. done.
    + apply set_cell; [done|]. intros x Hx. apply Hsets. set_solver.
  - destruct (decide (get_set (non_reimbursed_trackings A) h = ∅)) as [He|Hne].
    + pose proof He as He'. apply set_iter_nil in He'. rewrite He', He. done.
    + destruct (set_cell (get_set (non_reimbursed_trackings A) h)) as [E1 E2];
        [done| |].
      * intros x Hx. apply Hsets. set_solver.
      * by rewrite E2, E1.
  - destruct (get_list (cancelled_items A) h) as [|x l] eqn:El; [done|].
    rewrite join_truthy, split_strip_join; done.
Qed.

Lemma clean_quoted x : clean x → clean ("'" +:+ x).
Proof.
  intros (Hne & Hc & Hs). destruct (strip_fixed x Hs) as [Hl Hr].
  split_and!; [done|by cbn -[has_char]; cbn|].
  unfold strip. change (lstrip ("'" +:+ x)) with ("'" +:+ x).
  change (rstrip ("'" +:+ x))
    with (match rstrip x with
          | "" => "'"
          | r => String "'" r
          end).
  rewrite Hr. by destruct x.
Qed.

Lemma quoted_cell l :
  (∀ x, x ∈ l → clean x) →
  str_truthy ("'" +:+ join ", " l) = true
  ∧ split_strip ("'" +:+ join ", " l)
    = match l with
      | [] => ["'"]
      | x :: rest => ("'" +:+ x) :: rest
      end.
Proof.
  intros Hl. split; [done|]. destruct l as [|x rest]; [done|].
  assert ("'" +:+ join ", " (x :: rest) = join ", " (("'" +:+ x) :: rest)) as ->.
  { by destruct rest. }
  apply split_strip_join; [done|].
  intros y [->|Hy]%elem_of_cons.
  - apply clean_quoted, Hl. left.
  - apply Hl. by right.
Qed.

(** X2: the purchase orders do not come back from the row that [to_row]
    writes: the cell starts with an apostrophe, which [from_row] takes for
    a part of the first purchase order; no purchase orders come back as the
    one purchase order ['].  So the purchase orders read back are never the
    ones written. *)
Theorem sheet_purchase_orders self h srow h0 c h' :
  let P := get_set (purchase_orders (get_obj self h)) h in
  texts (to_row self h) srow →
  from_row fos get_header srow h0 = inr (c, h') →
  (∀ x, x ∈ P → clean x) →
  get_set (purchase_orders (get_obj c h')) h'
  = list_to_set (match set_iter P with
                 | [] => ["'"]
                 | x :: rest => ("'" +:+ x) :: rest
                 end)
  ∧ get_set (purchase_orders (get_obj c h')) h' ≠ P.
Proof.
  intros P Ht Hrun Hcl.
  destruct (texts_row self h srow Ht) as (e & b & r & a & m & d & Hrow).
  destruct (from_row_result fos get_header srow h0 c h' Hrun)
    as (o & t & b' & r' & n & ls & ld & p & g & a' & m' & e' & no & ci & eb & er
        & ea & Ho & _ & _ & _ & _ & _ & _ & Hp & _ & _ & _ & _ & _
        & _ & _ & _ & _ & HC & _ & _ & _ & Sp & _ & _).
  rewrite Hrow in Ho, Hp.
  match type of Ho with
  | column _ [?s0; ?s1; ?s2; ?s3; ?s4; ?s5; ?s6; ?s7; ?s8; ?s9; ?s10; ?s11;
              ?s12; ?s13; ?s14] _ = _ =>
      destruct (header_columns s0 s1 s2 s3 s4 s5 s6 s7 s8 s9 s10 s11 s12 s13 s14)
        as (_ & _ & _ & _ & _ & Cp & _)
  end.
  cbv zeta in Cp. rewrite Cp in Hp. injection Hp as <-. clear Cp Ho.
  rewrite HC. cbn [purchase_orders]. rewrite Sp. cbn [default from_option id].
  fold P.
  assert (∀ x, x ∈ set_iter P → clean x) as Hcl'.
  { intros x Hx. by apply Hcl, set_iter_elem_of. }
  destruct (quoted_cell (set_iter P) Hcl') as [-> ->].
  split; [done|].
  pose proof (set_iter_NoDup P) as Hnd.
  pose proof (set_iter_elem_of P) as Hel.
  destruct (set_iter P) as [|x rest].
  - intros Heq. assert ("'" ∈ P) as Hin by (rewrite <- Heq; set_solver).
    apply Hel in Hin. by apply elem_of_nil in Hin.
  - intros Heq. apply NoDup_cons in Hnd as [Hx _].
    assert (x ∈ P) as Hin by (apply Hel; left).
    rewrite <- Heq in Hin. rewrite list_to_set_cons in Hin.
    apply elem_of_union in Hin as [Hin%elem_of_singleton|Hin%elem_of_list_to_set];
      [|done].
    apply (f_equal String.length) in Hin.
    change ("'" +:+ x) with (String "'" x) in Hin. cbn [String.length] in Hin. lia.
Qed.

End round_trip.

Import examples sheet_examples.

(** The row of texts of cluster 20 of [two_clusters], with the amounts as a
    sheet would show them. *)
Lemma sheet_round_trip_witness :
  ∃ c h',
    from_row read_float get_header row_20 module_heap = inr (c, h')
    ∧ get_set (orders (get_obj c h')) h' = {["O1"]}
    ∧ get_set (trackings (get_obj c h')) h' = {[""]}
    ∧ get_list (cancelled_items (get_obj c h')) h' = ["tv"].
Proof.
  destruct (sheet_round_trip read_float 20 two_clusters row_20 module_heap)
    as (c & h' & Hrun & Ho & Ht & _ & Hc & _).
  - unfold texts. vm_compute to_row.
    repeat constructor; intros s' [= <-]; reflexivity.
  - intros name Hin s. unfold numeric_columns in Hin.
    repeat (apply elem_of_cons in Hin as [->|Hin];
            [vm_compute; intros [= <-]; try done; eauto|]).
    by apply elem_of_nil in Hin.
  - change (get_obj 20 two_clusters)
      with (mkCluster 21 22 "g " (NFloat 10) (NFloat 1) "2020-01-02" 23 24
              (NFloat 0) (EmailStr "a@x") "first" (FlagBool true) 25 26 "").
    cbn [orders trackings non_reimbursed_trackings].
    assert (get_set 21 two_clusters = {["O1"]}) as -> by (vm_compute; reflexivity).
    assert (get_set 22 two_clusters = ∅) as -> by (vm_compute; reflexivity).
    assert (get_set 25 two_clusters = ∅) as -> by (vm_compute; reflexivity).
    intros x Hx. assert (x = "O1") as -> by set_solver.
    split_and!; [done|reflexivity|reflexivity].
  - assert (get_list (cancelled_items (get_obj 20 two_clusters)) two_clusters
            = ["tv"]) as -> by (vm_compute; reflexivity).
    intros x ->%list_elem_of_singleton. split_and!; [done|reflexivity|reflexivity].
  - exists c, h'. split; [exact Hrun|].
    revert Ho Ht Hc.
    assert (get_set (orders (get_obj 20 two_clusters)) two_clusters = {["O1"]})
      as -> by (vm_compute; reflexivity).
    assert (get_set (trackings (get_obj 20 two_clusters)) two_clusters = ∅)
      as -> by (vm_compute; reflexivity).
    assert (get_list (cancelled_items (get_obj 20 two_clusters)) two_clusters
            = ["tv"]) as -> by (vm_compute; reflexivity).
    intros Ho Ht Hc. rewrite Ho, Ht, Hc.
    split_and!; [|done|done].
    by rewrite decide_False by (intros Heq; by apply (f_equal size) in Heq).
Defined.

Lemma sheet_purchase_orders_witness :
  ∃ c h',
    from_row read_float get_header row_20 module_heap = inr (c, h')
    ∧ get_set (purchase_orders (get_obj c h')) h' = {["'P1"]}
    ∧ get_set (purchase_orders (get_obj c h')) h' ≠ {["P1"]}.
Proof.
  destruct (from_row read_float get_header row_20 module_heap)
    as [e|[c h']] eqn:Hrun; [by vm_compute in Hrun|].
  exists c, h'. split; [done|].
  destruct (sheet_purchase_orders read_float 20 two_clusters row_20 module_heap c h')
    as [Heq Hne].
  - unfold texts. vm_compute to_row.
    repeat constructor; intros s' [= <-]; reflexivity.
  - exact Hrun.
  - assert (get_set (purchase_orders (get_obj 20 two_clusters)) two_clusters
            = {["P1"]}) as -> by (vm_compute; reflexivity).
    intros x ->%elem_of_singleton. split_and!; [done|reflexivity|reflexivity].
  - revert Heq Hne.
    assert (get_set (purchase_orders (get_obj 20 two_clusters)) two_clusters
            = {["P1"]}) as -> by (vm_compute; reflexivity).
    assert (set_iter ({["P1"]} : gset string) = ["P1"]) as ->
      by (vm_compute; reflexivity).
    intros Heq Hne. split; [|exact Hne].
    rewrite Heq. vm_compute. reflexivity.
Defined.

End sheet_spec.

(** ** [update_clusters] on any clusters and trackings *)

Module update_more.
Import clusters store_facts logic logic_facts merge_spec merge_with_spec
  update_spec partition_spec invariants examples sheet_examples.

Lemma update_step_prefix cs0 l d t h :
  update_step (cs0 ++ l, d) t h
  = ((cs0 ++ (update_step (l, d) t h).1.1, (update_step (l, d) t h).1.2),
     (update_step (l, d) t h).2).
Proof.
  pose proof (update_step_attach (cs0 ++ l) d t h) as H1.
  pose proof (update_step_attach l d t h) as H2.
  destruct (find_cluster d t) as [c|].
  - by rewrite H1, H2.
  - cbv zeta in H1, H2. rewrite H1, H2. cbn [fst snd]. by rewrite app_assoc.
Qed.

Lemma update_loop_prefix cs0 ts : ∀ l d h,
  update_loop (cs0 ++ l, d) ts h
  = ((cs0 ++ (update_loop (l, d) ts h).1.1, (update_loop (l, d) ts h).1.2),
     (update_loop (l, d) ts h).2).
Proof.
  induction ts as [|t rest IH]; intros l d h; [done|].
  rewrite !update_loop_cons, update_step_prefix.
  destruct (update_step (l, d) t h) as [[l' d'] h']. cbn [fst snd].
  apply IH.
Qed.

Lemma update_step_length l d t h :
  length (update_step (l, d) t h).1.1 ≤ S (length l).
Proof.
  pose proof (update_step_attach l d t h) as H1.
  destruct (find_cluster d t) as [c|].
  - rewrite H1. cbn. lia.
  - cbv zeta in H1. rewrite H1. cbn [fst snd]. rewrite length_app. cbn. lia.
Qed.

Lemma update_loop_length ts : ∀ l d h,
  length (update_loop (l, d) ts h).1.1 ≤ length l + length ts.
Proof.
  induction ts as [|t rest IH]; intros l d h; [cbn; lia|].
  rewrite update_loop_cons.
  pose proof (update_step_length l d t h) as Hs.
  destruct (update_step (l, d) t h) as [[l' d'] h']. cbn [fst snd] in *.
  specialize (IH l' d' h'). cbn [length]. lia.
Qed.

Lemma update_clusters_loop cs ts h :
  update_clusters cs ts h
  = ((update_loop (cs, ∅) ts h).1.1, (update_loop (cs, ∅) ts h).2).
Proof.
  unfold update_clusters, bind, ret. by destruct (update_loop (cs, ∅) ts h).
Qed.

Lemma update_clusters_prefix cs ts h :
  (update_clusters cs ts h).1 = cs ++ (update_loop ([], ∅) ts h).1.1
  ∧ (update_clusters cs ts h).2 = (update_loop ([], ∅) ts h).2.
Proof.
  rewrite update_clusters_loop. cbn [fst snd].
  pose proof (update_loop_prefix cs ts [] ∅ h) as Hp.
  rewrite app_nil_r in Hp. by rewrite Hp.
Qed.

(** X3: [update_clusters] never looks at the clusters it is given: it appends
    to them the clusters it would build from no clusters at all, at most
    one for each tracking, and leaves the same store. *)
Theorem update_clusters_appends cs ts h :
  (update_clusters cs ts h).1 = cs ++ (update_clusters [] ts h).1
  ∧ (update_clusters cs ts h).2 = (update_clusters [] ts h).2
  ∧ length (update_clusters [] ts h).1 ≤ length ts.
Proof.
  rewrite !update_clusters_loop. cbn [fst snd].
  pose proof (update_loop_prefix cs ts [] ∅ h) as Hp.
  rewrite app_nil_r in Hp. rewrite Hp. cbn [fst snd].
  split_and!; [done..|]. apply (update_loop_length ts [] ∅ h).
Qed.

(** What [attach] and [Cluster(group)] do to the lists. *)
Lemma attach_lists cluster t h r :
  get_list r (attach cluster t h).2 = get_list r h.
Proof.
  assert (Hs : snap cluster cluster (get_obj cluster h) (get_obj cluster h)
                 (λ r, get_set r h) (λ r, get_list r h) h).
  { split_and!; try done. unfold other_view. by rewrite decide_True. }
  pose proof (attach_snap cluster t _ _ _ h _ Hs eq_refl) as Hwp.
  unfold wp in Hwp. by destruct Hwp as (_ & _ & _ & HL).
Qed.

Lemma init_lists g h a :
  a < next h → get_list a (__init__ g h).2 = get_list a h.
Proof.
  intros Ha. unfold __init__, bind, new_obj, new_set, new_list, _initiate, ret.
  cbn [fst snd next]. unfold get_list, put_obj; cbn [lists].
  by rewrite lookup_insert_ne by lia.
Qed.

Lemma same_below_refl n h : same_below n h h.
Proof. by intros r _. Qed.

Lemma same_below_trans n h1 h2 h3 :
  same_below n h1 h2 → same_below n h2 h3 → same_below n h1 h3.
Proof.
  intros H12 H23 r Hr. destruct (H12 r Hr) as (? & ? & ?).
  destruct (H23 r Hr) as (? & ? & ?). split_and!; congruence.
Qed.

Lemma attached_sets_mono t A S r :
  orders A ≠ trackings A → S r ⊆ attached_sets t A S r.
Proof.
  intros Hne. unfold attached_sets.
  destruct (decide (r = trackings A)) as [->|].
  - rewrite decide_False by done. apply union_subseteq_l.
  - destruct (decide (r = orders A)) as [->|]; [apply union_subseteq_l|done].
Qed.

(** One turn of the loop, whatever the tracking. *)
Lemma update_step_created n0 st t h :
  created_inv n0 st h →
  let st' := (update_step st t h).1 in
  let h' := (update_step st t h).2 in
  created_inv n0 st' h'
  ∧ same_below n0 h h'
  ∧ (∀ r, r ∈ st.1 → r ∈ st'.1)
  ∧ (∀ r, r ∈ st.1 →
       get_set (r + 1) h ⊆ get_set (r + 1) h'
       ∧ get_set (r + 2) h ⊆ get_set (r + 2) h')
  ∧ ∃ c, c ∈ st'.1 ∧ holds c t h'.
Proof.
  destruct st as [all d]. intros (Hnd & Hobj & Hsp & Hd & Hn0).
  cbn [fst snd] in *.
  pose proof (update_step_attach all d t h) as Hstep.
  destruct (find_cluster d t) as [c|] eqn:Hfind.
  - rewrite Hstep. cbn [fst snd]. clear Hstep.
    apply first_match_Some in Hfind as (o0 & Ho0 & Hdo0).
    pose proof (Hd _ _ Hdo0) as Hc.
    destruct (Hobj c Hc) as (Hc0 & Hcn & Hco & Hct).
    destruct (attach_effect c t h) as (HA & HS).
    set (h' := (attach c t h).2) in *.
    assert (Hkeep : orders (get_obj c h') = c + 1
                    ∧ trackings (get_obj c h') = c + 2).
    { rewrite HA. destruct (adds_new c t h); cbn; auto. }
    assert (Hset1 : ∀ r, get_set r h ⊆ get_set r h').
    { intros r. rewrite HS.
      apply (attached_sets_mono t (get_obj c h) (λ r, get_set r h) r). lia. }
    split_and!.
    + split_and!; cbn [fst snd]; [done| |done| |].
      * intros r Hr. unfold h'. rewrite attach_next.
        destruct (decide (r = c)) as [->|Hne].
        -- fold h'. destruct Hkeep. auto.
        -- rewrite attach_other by done. auto.
      * intros o r. rewrite map_orders_lookup. case_bool_decide.
        -- by intros [= <-].
        -- apply Hd.
      * unfold h'. by rewrite attach_next.
    + intros r Hr. split_and!.
      * apply attach_other. lia.
      * rewrite HS. unfold attached_sets. rewrite Hco, Hct.
        by rewrite !decide_False by lia.
      * apply attach_lists.
    + done.
    + intros r _. split; apply Hset1.
    + exists c. split; [done|]. unfold holds. destruct Hkeep as [-> ->].
      rewrite !HS. unfold attached_sets. rewrite Hco, Hct. split.
      * rewrite decide_True by done. apply elem_of_union. right.
        by apply elem_of_singleton.
      * intros o Ho. rewrite decide_False by lia. rewrite decide_True by done.
        apply elem_of_union. right. by apply elem_of_list_to_set.
  - cbv zeta in Hstep. rewrite Hstep. cbn [fst snd]. clear Hstep.
    destruct (init_effect (tracking.group t) h)
      as (Hc & Hn1 & Hco & Hct & Hoth & Hso & Hst & Hlow).
    pose proof (init_lists (tracking.group t) h) as Hll.
    rewrite Hc. set (c := next h) in *. set (h1 := (__init__ _ h).2) in *.
    destruct (attach_effect c t h1) as (HA & HS).
    set (h' := (attach c t h1).2) in *.
    assert (Hfresh : ∀ r, r ∈ all → r + 6 ≤ c).
    { intros r Hr. by destruct (Hobj r Hr) as (_ & ? & _). }
    assert (Hcnew : c ∉ all).
    { intros Hin. specialize (Hfresh c Hin). lia. }
    assert (Hkeep : orders (get_obj c h') = c + 1
                    ∧ trackings (get_obj c h') = c + 2).
    { rewrite HA. destruct (adds_new c t h1); cbn; auto. }
    assert (Hset : ∀ r, r < c → get_set r h' = get_set r h).
    { intros r Hr. rewrite HS. unfold attached_sets. rewrite Hco, Hct.
      rewrite !decide_False by lia. by apply Hlow. }
    split_and!.
    + split_and!; cbn [fst snd].
      * apply NoDup_app. split_and!; [done| |apply NoDup_singleton].
        intros r Hr ->%list_elem_of_singleton. done.
      * intros r [Hr| ->%list_elem_of_singleton]%elem_of_app.
        -- unfold h'. rewrite attach_next, Hn1.
           assert (r ≠ c) by (intros ->; done).
           rewrite attach_other by done. rewrite Hoth by done.
           destruct (Hobj r Hr) as (? & ? & ? & ?). split_and!; [done|lia|done..].
        -- unfold h'. rewrite attach_next, Hn1. fold h'.
           destruct Hkeep. split_and!; [done|lia|done..].
      * intros r r' [Hr| ->%list_elem_of_singleton]%elem_of_app
                    [Hr'| ->%list_elem_of_singleton]%elem_of_app Hne.
        -- by apply Hsp.
        -- left. by apply Hfresh.
        -- right. by apply Hfresh.
        -- done.
      * intros o r. rewrite map_orders_lookup. case_bool_decide.
        -- intros [= <-]. apply elem_of_app. right. by left.
        -- intros Hdo. apply elem_of_app. left. by eapply Hd.
      * unfold h'. rewrite attach_next, Hn1. lia.
    + intros r Hr. split_and!.
      * unfold h'. rewrite attach_other by lia. apply Hoth. lia.
      * apply Hset. lia.
      * unfold h'. rewrite attach_lists. apply Hll. lia.
    + intros r Hr. apply elem_of_app. by left.
    + intros r Hr. specialize (Hfresh r Hr).
      rewrite !Hset by lia. done.
    + exists c. split; [apply elem_of_app; right; by left|].
      unfold holds. destruct Hkeep as [-> ->].
      rewrite !HS. unfold attached_sets. rewrite Hco, Hct. split.
      * rewrite decide_True by done. apply elem_of_union. right.
        by apply elem_of_singleton.
      * intros o Ho. rewrite decide_False by lia. rewrite decide_True by done.
        apply elem_of_union. right. by apply elem_of_list_to_set.
Qed.

Lemma holds_mono r t h h' :
  orders (get_obj r h) = r + 1 → trackings (get_obj r h) = r + 2 →
  orders (get_obj r h') = r + 1 → trackings (get_obj r h') = r + 2 →
  get_set (r + 1) h ⊆ get_set (r + 1) h' →
  get_set (r + 2) h ⊆ get_set (r + 2) h' →
  holds r t h → holds r t h'.
Proof.
  unfold holds. intros -> -> -> -> H1 H2 [Ht Ho]. split; [by apply H2|].
  intros o Hin. by apply H1, Ho.
Qed.

Lemma update_loop_created n0 ts : ∀ st h,
  created_inv n0 st h →
  let st' := (update_loop st ts h).1 in
  let h' := (update_loop st ts h).2 in
  created_inv n0 st' h'
  ∧ same_below n0 h h'
  ∧ (∀ r, r ∈ st.1 → r ∈ st'.1)
  ∧ (∀ r, r ∈ st.1 →
       get_set (r + 1) h ⊆ get_set (r + 1) h'
       ∧ get_set (r + 2) h ⊆ get_set (r + 2) h')
  ∧ ∀ t, t ∈ ts → ∃ c, c ∈ st'.1 ∧ holds c t h'.
Proof.
  induction ts as [|t rest IH]; intros st h Hinv.
  - cbn. split_and!; [done|apply same_below_refl|done|done|].
    intros t Ht. by apply elem_of_nil in Ht.
  - cbv zeta. rewrite update_loop_cons.
    destruct (update_step_created n0 st t h Hinv)
      as (Hinv1 & Hsame1 & Hin1 & Hmono1 & c & Hc & Hholds).
    destruct (IH _ _ Hinv1) as (Hinv2 & Hsame2 & Hin2 & Hmono2 & Hrec).
    split_and!; [done|by eapply same_below_trans|by auto| |].
    + intros r Hr. destruct (Hmono1 r Hr) as [? ?].
      destruct (Hmono2 r (Hin1 r Hr)) as [? ?]. split; by etrans.
    + intros t' [->|Ht']%elem_of_cons; [|by apply Hrec].
      exists c. split; [by apply Hin2|].
      destruct Hinv1 as (_ & Hobj1 & _). destruct Hinv2 as (_ & Hobj2 & _).
      destruct (Hobj1 c Hc) as (_ & _ & ? & ?).
      destruct (Hobj2 c (Hin2 c Hc)) as (_ & _ & ? & ?).
      destruct (Hmono2 c Hc) as [? ?].
      by apply (holds_mono c t (update_step st t h).2).
Qed.

Lemma created_inv_empty h : created_inv (next h) ([], ∅) h.
Proof.
  split_and!; cbn [fst snd]; [apply NoDup_nil_2| | | |done].
  - intros r Hr. by apply elem_of_nil in Hr.
  - intros r r' Hr. by apply elem_of_nil in Hr.
  - intros o r Hd. by rewrite lookup_empty in Hd.
Qed.

(** X4: [update_clusters] changes no object of the store it starts from: the
    clusters, sets and lists allocated before the call are afterwards what
    they were, whatever clusters and trackings it is given. *)
Theorem update_clusters_frame cs ts h r :
  r < next h →
  let h' := (update_clusters cs ts h).2 in
  get_obj r h' = get_obj r h ∧ get_set r h' = get_set r h
  ∧ get_list r h' = get_list r h.
Proof.
  intros Hr. cbv zeta.
  destruct (update_clusters_prefix cs ts h) as (_ & ->).
  destruct (update_loop_created (next h) ts ([], ∅) h (created_inv_empty h))
    as (_ & Hsame & _).
  by apply Hsame.
Qed.

(** X5: no tracking is lost: after [update_clusters], every incoming tracking
    is held by a cluster of the list, with its number and all its order
    IDs. *)
Theorem update_clusters_records cs ts h t :
  t ∈ ts →
  ∃ r, r ∈ (update_clusters cs ts h).1
       ∧ holds r t (update_clusters cs ts h).2.
Proof.
  intros Ht.
  destruct (update_clusters_prefix cs ts h) as (-> & ->).
  destruct (update_loop_created (next h) ts ([], ∅) h (created_inv_empty h))
    as (_ & _ & _ & _ & Hrec).
  destruct (Hrec t Ht) as (c & Hc & Hh). exists c.
  split; [apply elem_of_app; by right|done].
Qed.

Lemma update_clusters_frame_witness :
  sheet_cluster.1 < next sheet_cluster.2
  ∧ get_obj sheet_cluster.1
      (update_clusters [sheet_cluster.1] spanning_trackings sheet_cluster.2).2
    = get_obj sheet_cluster.1 sheet_cluster.2.
Proof.
  assert (sheet_cluster.1 < next sheet_cluster.2) as Hlt by (vm_compute; lia).
  split; [exact Hlt|].
  destruct (update_clusters_frame [sheet_cluster.1] spanning_trackings
              sheet_cluster.2 sheet_cluster.1 Hlt) as (Hobj & _ & _).
  exact Hobj.
Defined.

Lemma update_clusters_records_witness :
  ∃ r, r ∈ (update_clusters [sheet_cluster.1] spanning_trackings
              sheet_cluster.2).1
       ∧ holds r (tracking.mkTracking "T3" "g" ["A"; "B"] "2020-01-03"
                    "2020-01-07" "m@x")
           (update_clusters [sheet_cluster.1] spanning_trackings
              sheet_cluster.2).2.
Proof.
  apply (update_clusters_records [sheet_cluster.1] spanning_trackings
           sheet_cluster.2).
  unfold spanning_trackings. do 2 right. left.
Defined.

End update_more.

(** ** Manual override under [update_clusters] *)

Module override_spec.
Import clusters store_facts logic logic_facts merge_spec merge_with_spec
  update_spec partition_spec invariants examples sheet_examples update_more.

Lemma init_manual_override g h :
  manual_override (get_obj (next h) (__init__ g h).2) = FlagBool false.
Proof.
  unfold __init__, bind, new_obj, new_set, new_list, _initiate, ret.
  cbn [fst snd next]. by rewrite get_obj_put_obj_eq.
Qed.

Lemma attached_manual_override b t A :
  manual_override A = FlagBool false →
  manual_override (attached b t A) = FlagBool false.
Proof. intros HA. unfold attached. by destruct b; cbn. Qed.

Lemma update_step_unset n0 st t h :
  created_inv n0 st h →
  (∀ r, r ∈ st.1 → manual_override (get_obj r h) = FlagBool false) →
  ∀ r, r ∈ (update_step st t h).1.1 →
    manual_override (get_obj r (update_step st t h).2) = FlagBool false.
Proof.
  destruct st as [all d]. intros (Hnd & Hobj & Hsp & Hd & Hn0) Hunset.
  cbn [fst snd] in *.
  pose proof (update_step_attach all d t h) as Hstep.
  destruct (find_cluster d t) as [c|] eqn:Hfind.
  - rewrite Hstep. cbn [fst snd]. clear Hstep.
    apply first_match_Some in Hfind as (o0 & Ho0 & Hdo0).
    pose proof (Hd _ _ Hdo0) as Hc.
    destruct (attach_effect c t h) as (HA & _).
    intros r Hr. destruct (decide (r = c)) as [->|Hne].
    + rewrite HA. apply attached_manual_override. by apply Hunset.
    + rewrite attach_other by done. by apply Hunset.
  - cbv zeta in Hstep. rewrite Hstep. cbn [fst snd]. clear Hstep.
    destruct (init_effect (tracking.group t) h)
      as (Hc & Hn1 & Hco & Hct & Hoth & Hso & Hst & Hlow).
    pose proof (init_manual_override (tracking.group t) h) as Hmo.
    rewrite Hc. set (c := next h) in *. set (h1 := (__init__ _ h).2) in *.
    destruct (attach_effect c t h1) as (HA & _).
    intros r [Hr| ->%list_elem_of_singleton]%elem_of_app.
    + assert (r ≠ c) as Hne.
      { intros ->. destruct (Hobj c Hr) as (_ & ? & _). unfold c in *. lia. }
      rewrite attach_other by done. rewrite Hoth by done. by apply Hunset.
    + rewrite HA. by apply attached_manual_override.
Qed.

Lemma update_loop_unset n0 ts : ∀ st h,
  created_inv n0 st h →
  (∀ r, r ∈ st.1 → manual_override (get_obj r h) = FlagBool false) →
  ∀ r, r ∈ (update_loop st ts h).1.1 →
    manual_override (get_obj r (update_loop st ts h).2) = FlagBool false.
Proof.
  induction ts as [|t rest IH]; intros st h Hinv Hunset; [done|].
  rewrite update_loop_cons.
  destruct (update_step_created n0 st t h Hinv) as (Hinv1 & _).
  apply IH; [done|]. by apply update_step_unset with n0.
Qed.

(** C3 fails on [update_clusters]: the dict [order_to_cluster] starts empty
    and is never filled from [all_clusters], so no tracking is ever folded
    into a cluster that the function was given.  Whatever the trackings
    bring, a cluster of the store the call starts from keeps its
    [manual_override], its orders and its trackings; every tracking goes to
    a cluster made during the call, whose [manual_override] is [False] from
    its construction on.  For the cluster read from the sheet row with order
    O1, tracking T1 and Manual Override TRUE, the tracking T2 of order O1
    brings a new tracking number; after [update_clusters] the cluster is
    still under manual override and holds T1 only, and a second cluster
    holds O1 and T2. *)
Theorem update_clusters_override :
  (∀ cs ts h,
     let run := update_clusters cs ts h in
     (∀ c, c < next h →
        let C := get_obj c h in
        orders C < next h → trackings C < next h →
        get_obj c run.2 = C
        ∧ get_set (orders C) run.2 = get_set (orders C) h
        ∧ get_set (trackings C) run.2 = get_set (trackings C) h)
     ∧ ∃ created,
         run.1 = cs ++ created
         ∧ (∀ c, c ∈ created →
              next h ≤ c ∧ manual_override (get_obj c run.2) = FlagBool false)
         ∧ ∀ t, t ∈ ts → ∃ c, c ∈ created ∧ holds c t run.2)
  ∧ (let c0 := override_cluster.1 in
     let h0 := override_cluster.2 in
     let run := update_clusters [c0] [second_shipment] h0 in
     (get_set (orders (get_obj c0 h0)) h0 = {["O1"]}
      ∧ get_set (trackings (get_obj c0 h0)) h0 = {["T1"]}
      ∧ flag_truthy (manual_override (get_obj c0 h0)) = true)
     ∧ tracking.tracking_number second_shipment
       ∉ get_set (trackings (get_obj c0 h0)) h0
     ∧ (manual_override (get_obj c0 run.2) = FlagCell "TRUE"
        ∧ flag_truthy (manual_override (get_obj c0 run.2)) = true
        ∧ get_set (orders (get_obj c0 run.2)) run.2 = {["O1"]}
        ∧ get_set (trackings (get_obj c0 run.2)) run.2 = {["T1"]})
     ∧ ∃ c1, run.1 = [c0; c1] ∧ c1 ≠ c0
             ∧ manual_override (get_obj c1 run.2) = FlagBool false
             ∧ get_set (orders (get_obj c1 run.2)) run.2 = {["O1"]}
             ∧ get_set (trackings (get_obj c1 run.2)) run.2 = {["T2"]}).
Proof.
  split.
  - intros cs ts h run.
    destruct (update_clusters_prefix cs ts h) as (Hl & Hh).
    destruct (update_loop_created (next h) ts ([], ∅) h (created_inv_empty h))
      as (Hinv & Hsame & _ & _ & Hrec).
    pose proof (update_loop_unset (next h) ts ([], ∅) h (created_inv_empty h))
      as Hunset.
    unfold run. rewrite Hl, Hh. cbn [fst snd]. split.
    + intros c Hc Ho Ht.
      destruct (Hsame c Hc) as (-> & _).
      destruct (Hsame _ Ho) as (_ & -> & _).
      by destruct (Hsame _ Ht) as (_ & -> & _).
    + exists (update_loop ([], ∅) ts h).1.1. split_and!; [done| |exact Hrec].
      intros c Hc. split.
      * destruct Hinv as (_ & Hobj & _). by destruct (Hobj c Hc) as (? & _).
      * apply Hunset; [|done]. intros r Hr. by apply elem_of_nil in Hr.
  - cbv zeta. split_and!; try (vm_compute; reflexivity).
    + intros Hin. vm_compute in Hin. discriminate Hin.
    + exists 16. split_and!; try (vm_compute; reflexivity). vm_compute. lia.
Qed.
Lemma update_clusters_override_witness :
  let c0 := override_cluster.1 in
  let h0 := override_cluster.2 in
  let run := update_clusters [c0] spanning_trackings h0 in
  (c0 < next h0 ∧ orders (get_obj c0 h0) < next h0
   ∧ trackings (get_obj c0 h0) < next h0)
  ∧ get_obj c0 run.2 = get_obj c0 h0
  ∧ get_set (trackings (get_obj c0 h0)) run.2 = {["T1"]}.
Proof.
  intros c0 h0 run.
  assert (c0 < next h0 ∧ orders (get_obj c0 h0) < next h0
          ∧ trackings (get_obj c0 h0) < next h0) as Hlt
    by (vm_compute; lia).
  split; [exact Hlt|]. destruct Hlt as (Hc & Ho & Ht).
  destruct (proj1 update_clusters_override [c0] spanning_trackings h0)
    as (Hgiven & _).
  destruct (Hgiven c0 Hc Ho Ht) as (Hobj & _ & Htr).
  split; [exact Hobj|]. fold run in Htr. rewrite Htr. vm_compute. reflexivity.
Defined.

End override_spec.

(** ** What [merge_orders] returns *)

Module merged_spec.
Import clusters store_facts logic merge_spec partition_spec merged examples.

#[local] Arguments fill_email_po_group_maps : simpl never.
#[local] Arguments find_by_shared_attr : simpl never.
#[local] Arguments merge_with : simpl never.

Lemma triple_bind {X Y} P Q R (m : M X) (k : X → M Y) :
  triple P m Q → (∀ a, triple Q (k a) R) → triple P (bind m k) R.
Proof.
  intros Hm Hk h HP. unfold bind. specialize (Hm h HP).
  destruct (m h) as [a h1]. by apply Hk.
Qed.

Lemma triple_ret {X} P (a : X) : triple P (ret a) P.
Proof. by intros h. Qed.

Lemma triple_attr {X} P r (f : Cluster → X) : triple P (attr r f) P.
Proof. by intros h. Qed.

Lemma triple_if {X} P Q (b : bool) (m1 m2 : M X) :
  triple P m1 Q → triple P m2 Q → triple P (if b then m1 else m2) Q.
Proof. by destruct b. Qed.

Lemma triple_if_dec {X} P Q `{Decision A} (m1 m2 : M X) :
  triple P m1 Q → triple P m2 Q → triple P (if decide A then m1 else m2) Q.
Proof. by destruct (decide A). Qed.

Section merge_with.
Context (self other : ref) (h : heap).

Lemma merging_modify D g :
  (∀ c, set_attrs (g c) = set_attrs c) →
  triple (merging h D) (modify self g) (merging h D).
Proof.
  intros Hg h1 (Hat & Hgrow & Hpairs). split_and!; [|done..].
  intros r. cbn. destruct (decide (r = self)) as [->|Hne].
  - by rewrite get_obj_put_obj_eq, Hg.
  - by rewrite get_obj_put_obj_ne.
Qed.

Lemma merging_extend_attr D f :
  triple (merging h D) (extend_attr f self other) (merging h D).
Proof. by intros h1 (Hat & Hgrow & Hpairs). Qed.

Lemma merging_update_attr D f :
  (∀ c c', set_attrs c = set_attrs c' → f c = f c') →
  triple (merging h D) (update_attr f self other)
    (merging h ((f (get_obj self h), f (get_obj other h)) :: D)).
Proof.
  intros Hf h1 (Hat & Hgrow & Hpairs).
  unfold update_attr, bind, attr, set_update. cbn [fst snd].
  rewrite (Hf _ _ (Hat self)), (Hf _ _ (Hat other)).
  set (a := f (get_obj self h)). set (b := f (get_obj other h)).
  assert (∀ s, get_set s h1 ⊆ get_set s (put_set a (get_set a h1 ∪ get_set b h1) h1))
    as Hstep.
  { intros s. destruct (decide (s = a)) as [->|Hne].
    - rewrite get_set_put_set_eq. apply union_subseteq_l.
    - by rewrite get_set_put_set_ne. }
  split_and!.
  - done.
  - intros s. etrans; [apply Hgrow|apply Hstep].
  - intros a' b' [[= -> ->]|Hin]%elem_of_cons.
    + rewrite get_set_put_set_eq. etrans; [apply Hgrow|]. apply union_subseteq_r.
    + etrans; [by apply Hpairs|apply Hstep].
Qed.

Lemma merging_start : merging h [] h.
Proof. split_and!; [done..|]. intros a b Hin. by apply elem_of_nil in Hin. Qed.

Lemma merge_with_merging :
  let A := get_obj self h in
  let B := get_obj other h in
  merging h [(non_reimbursed_trackings A, non_reimbursed_trackings B);
             (email_ids A, email_ids B);
             (purchase_orders A, purchase_orders B);
             (trackings A, trackings B); (orders A, orders B)]
    (merge_with self other h).2.
Proof.
  cbv zeta.
  assert (triple (merging h []) (merge_with self other)
            (merging h [(non_reimbursed_trackings (get_obj self h),
                         non_reimbursed_trackings (get_obj other h));
                        (email_ids (get_obj self h), email_ids (get_obj other h));
                        (purchase_orders (get_obj self h),
                         purchase_orders (get_obj other h));
                        (trackings (get_obj self h), trackings (get_obj other h));
                        (orders (get_obj self h), orders (get_obj other h))]))
    as Ht.
  { unfold merge_with.
    repeat first
      [ apply merging_extend_attr
      | apply merging_update_attr; unfold set_attrs; intros ? ? [= ? ? ? ? ?]; done
      | apply merging_modify; intros ?; reflexivity
      | eapply triple_bind; [|intros ?]
      | apply triple_ret
      | apply triple_attr
      | apply triple_if_dec
      | apply triple_if ]. }
  apply Ht, merging_start.
Qed.

End merge_with.

Lemma absorbed_refl c h : absorbed c h c h.
Proof. by split_and!. Qed.

Lemma absorbed_trans c1 h1 c2 h2 c3 h3 :
  absorbed c1 h1 c2 h2 → absorbed c2 h2 c3 h3 → absorbed c1 h1 c3 h3.
Proof.
  intros (? & ? & ? & ? & ?) (? & ? & ? & ? & ?). split_and!; by etrans.
Qed.

Lemma set_attrs_fields c c' :
  set_attrs c = set_attrs c' →
  orders c = orders c' ∧ trackings c = trackings c'
  ∧ purchase_orders c = purchase_orders c' ∧ email_ids c = email_ids c'
  ∧ non_reimbursed_trackings c = non_reimbursed_trackings c'.
Proof. unfold set_attrs. by intros [= ? ? ? ? ?]. Qed.

(** After [to_merge.merge_with(c)], [to_merge] holds what [c] held, and
    every cluster what it held itself. *)
Lemma merge_with_absorbed to_merge c h :
  let h1 := (merge_with to_merge c h).2 in
  absorbed c h to_merge h1 ∧ ∀ r, absorbed r h r h1.
Proof.
  cbv zeta. destruct (merge_with_merging to_merge c h) as (Hat & Hgrow & Hpairs).
  split.
  - unfold absorbed. cbv zeta.
    destruct (set_attrs_fields _ _ (Hat to_merge)) as (-> & -> & -> & -> & ->).
    split_and!; apply Hpairs; rewrite !elem_of_cons; tauto.
  - intros r. unfold absorbed. cbv zeta.
    destruct (set_attrs_fields _ _ (Hat r)) as (-> & -> & -> & -> & ->).
    split_and!; apply Hgrow.
Qed.

Section merging.
Context `{SetOrder}.

Implicit Types (h : heap) (em : gmap string ref) (pm : gmap (string * string) ref).

Lemma merge_loop_keeps cs : ∀ result em pm h,
  ∃ kept, (merge_loop cs result em pm h).1 = result ++ kept ∧ sublist kept cs.
Proof.
  induction cs as [|c cs IH]; intros result em pm h.
  - exists []. by rewrite app_nil_r.
  - rewrite merge_loop_cons.
    destruct (find_by_shared_attr c em pm h) as [to_merge|]; cbv zeta.
    + match goal with
      | |- context [merge_loop cs ?r ?e ?p ?h'] =>
          destruct (IH r e p h') as (kept & -> & Hsub)
      end.
      exists kept. split; [done|]. by apply sublist_cons.
    + match goal with
      | |- context [merge_loop cs ?r ?e ?p ?h'] =>
          destruct (IH r e p h') as (kept & -> & Hsub)
      end.
      exists (c :: kept). rewrite <- app_assoc. split; [done|].
      by apply sublist_skip.
Qed.

Lemma find_empty c h : find_by_shared_attr c ∅ ∅ h = None.
Proof.
  unfold find_by_shared_attr.
  assert (∀ {K} `{Countable K} (keys : list K),
            first_match (∅ : gmap K ref) keys = None) as Hempty.
  { intros K ? ? keys. apply first_match_None. intros k _. apply lookup_empty. }
  by rewrite !Hempty.
Qed.

Lemma run_merge_iteration_keeps cs h :
  sublist (run_merge_iteration cs h).1 cs
  ∧ head (run_merge_iteration cs h).1 = head cs.
Proof.
  unfold run_merge_iteration. split.
  - by destruct (merge_loop_keeps cs [] ∅ ∅ h) as (kept & -> & Hsub).
  - destruct cs as [|c cs]; [done|].
    rewrite merge_loop_cons, find_empty. cbv zeta.
    match goal with
    | |- context [merge_loop cs ?r ?e ?p ?h'] =>
        destruct (merge_loop_keeps cs r e p h') as (kept & -> & _)
    end. done.
Qed.

Lemma passes_keeps k : ∀ cs h,
  sublist (passes k cs h).1 cs ∧ head (passes k cs h).1 = head cs.
Proof.
  induction k as [|k IH]; intros cs h; [done|].
  rewrite passes_S. destruct (run_merge_iteration_keeps cs h) as [Hsub Hhd].
  destruct (IH (run_merge_iteration cs h).1 (run_merge_iteration cs h).2)
    as [Hsub' Hhd'].
  split; [by etrans|congruence].
Qed.

Lemma fill_maps_values c em pm h (result : list ref) :
  c ∈ result →
  (∀ k r, em !! k = Some r → r ∈ result) →
  (∀ k r, pm !! k = Some r → r ∈ result) →
  let filled := fill_email_po_group_maps c em pm h in
  (∀ k r, filled.1 !! k = Some r → r ∈ result)
  ∧ (∀ k r, filled.2 !! k = Some r → r ∈ result).
Proof.
  intros Hc Hem Hpm. destruct (fill_maps_lookup c em pm h) as [Hl1 Hl2].
  cbv zeta in *. split.
  - intros k r. rewrite Hl1. case_bool_decide; [by intros [= <-]|apply Hem].
  - intros [po g] r. rewrite Hl2. case_bool_decide; [by intros [= <-]|apply Hpm].
Qed.

(** No pass loses what a cluster holds: every cluster of the list, and
    every cluster already kept, has a cluster in the result that holds what
    it held. *)
Lemma merge_loop_absorbed cs : ∀ result em pm h,
  (∀ k r, em !! k = Some r → r ∈ result) →
  (∀ k r, pm !! k = Some r → r ∈ result) →
  ∀ c, c ∈ result ++ cs →
    ∃ c', c' ∈ (merge_loop cs result em pm h).1
          ∧ absorbed c h c' (merge_loop cs result em pm h).2.
Proof.
  induction cs as [|c0 cs IH]; intros result em pm h Hem Hpm c Hc.
  - rewrite app_nil_r in Hc. exists c. split; [done|apply absorbed_refl].
  - rewrite merge_loop_cons.
    destruct (find_by_shared_attr c0 em pm h) as [to_merge|] eqn:Hfind;
      cbv zeta.
    + assert (to_merge ∈ result) as Hin.
      { apply find_by_shared_attr_value in Hfind as [[k Hk]|[k Hk]];
          [by eapply Hpm|by eapply Hem]. }
      destruct (merge_with_absorbed to_merge c0 h) as [Hmerged Hkept].
      cbv zeta in Hmerged, Hkept.
      set (h1 := (merge_with to_merge c0 h).2) in *.
      destruct (fill_maps_values to_merge em pm h1 result Hin Hem Hpm)
        as [Hem' Hpm']. cbv zeta in Hem', Hpm'.
      assert (∃ c1, c1 ∈ result ++ cs ∧ absorbed c h c1 h1) as (c1 & Hc1 & Habs).
      { apply elem_of_app in Hc as [Hc|[->|Hc]%elem_of_cons].
        - exists c. split; [apply elem_of_app; by left|apply Hkept].
        - exists to_merge. split; [apply elem_of_app; by left|done].
        - exists c. split; [apply elem_of_app; by right|apply Hkept]. }
      destruct (IH result _ _ h1 Hem' Hpm' c1 Hc1) as (c' & Hc' & Habs').
      exists c'. split; [done|]. by eapply absorbed_trans.
    + assert (c0 ∈ result ++ [c0]) as Hin by (apply elem_of_app; right; left).
      destruct (fill_maps_values c0 em pm h (result ++ [c0]) Hin) as [Hem' Hpm'].
      { intros k r Hk. apply elem_of_app. left. by eapply Hem. }
      { intros k r Hk. apply elem_of_app. left. by eapply Hpm. }
      cbv zeta in Hem', Hpm'.
      apply (IH (result ++ [c0]) _ _ h Hem' Hpm' c).
      by rewrite <- app_assoc.
Qed.

Lemma run_merge_iteration_absorbed cs h c :
  c ∈ cs →
  ∃ c', c' ∈ (run_merge_iteration cs h).1
        ∧ absorbed c h c' (run_merge_iteration cs h).2.
Proof.
  intros Hc. apply (merge_loop_absorbed cs [] ∅ ∅ h); [| |done].
  - intros k r Hk. by rewrite lookup_empty in Hk.
  - intros k r Hk. by rewrite lookup_empty in Hk.
Qed.

Lemma passes_absorbed k : ∀ cs h c,
  c ∈ cs → ∃ c', c' ∈ (passes k cs h).1 ∧ absorbed c h c' (passes k cs h).2.
Proof.
  induction k as [|k IH]; intros cs h c Hc.
  - exists c. split; [done|apply absorbed_refl].
  - rewrite passes_S.
    destruct (run_merge_iteration_absorbed cs h c Hc) as (c1 & Hc1 & Habs1).
    destruct (IH _ (run_merge_iteration cs h).2 c1 Hc1) as (c' & Hc' & Habs').
    exists c'. split; [done|]. by eapply absorbed_trans.
Qed.

(** X6: [merge_orders] returns some of the clusters it is given, in the
    order in which they came, the first of them always the first; and no
    pass loses what a cluster holds: for every cluster of the list there is
    a cluster in the result (the cluster itself, or the one it was merged
    into) whose orders, trackings, purchase orders, email IDs and
    non-reimbursed trackings include those that the cluster held before. *)
Theorem merge_orders_keeps cs h :
  ∃ cs' h', merge_orders cs h = Some (cs', h')
    ∧ sublist cs' cs ∧ head cs' = head cs
    ∧ ∀ c, c ∈ cs →
        ∃ c', c' ∈ cs'
          ∧ get_set (orders (get_obj c h)) h
            ⊆ get_set (orders (get_obj c' h')) h'
          ∧ get_set (trackings (get_obj c h)) h
            ⊆ get_set (trackings (get_obj c' h')) h'
          ∧ get_set (purchase_orders (get_obj c h)) h
            ⊆ get_set (purchase_orders (get_obj c' h')) h'
          ∧ get_set (email_ids (get_obj c h)) h
            ⊆ get_set (email_ids (get_obj c' h')) h'
          ∧ get_set (non_reimbursed_trackings (get_obj c h)) h
            ⊆ get_set (non_reimbursed_trackings (get_obj c' h')) h'.
Proof.
  destruct (merge_orders_loop_reaches (length cs) cs h)
    as (k & Hk & _ & _ & Hloop & _); [done|].
  destruct (passes_keeps k cs h) as [Hsub Hhd].
  pose proof (passes_absorbed k cs h) as Habs.
  destruct (passes k cs h) as [cs' h'] eqn:E. cbn [fst snd] in *.
  exists cs', h'. split_and!; [|done|done|exact Habs].
  unfold merge_orders. apply Hloop. lia.
Qed.

Lemma find_none c em pm h :
  find_by_shared_attr c em pm h = None →
  (∀ e, e ∈ get_set (email_ids (get_obj c h)) h → em !! e = None)
  ∧ (∀ po, po ∈ get_set (purchase_orders (get_obj c h)) h →
       pm !! (po, group (get_obj c h)) = None).
Proof.
  unfold find_by_shared_attr. cbv zeta.
  destruct (first_match pm _) eqn:Hpm; [done|]. intros Hem.
  rewrite first_match_None in Hpm. rewrite first_match_None in Hem. split.
  - intros e He. apply Hem. by apply set_iter_elem_of.
  - intros po Hpo. apply Hpm. apply list_elem_of_fmap. exists po.
    split; [done|]. by apply set_iter_elem_of.
Qed.

Lemma covers_fill c em pm h :
  let filled := fill_email_po_group_maps c em pm h in
  covers filled.1 filled.2 c h
  ∧ ∀ a, covers em pm a h → covers filled.1 filled.2 a h.
Proof.
  destruct (fill_maps_lookup c em pm h) as [Hem Hpm]. cbv zeta in *.
  split.
  - split.
    + intros e He. rewrite Hem. by rewrite bool_decide_eq_true_2.
    + intros po Hpo. rewrite Hpm. by rewrite bool_decide_eq_true_2.
  - intros a [Ha1 Ha2]. split.
    + intros e He. rewrite Hem. case_bool_decide; [done|by apply Ha1].
    + intros po Hpo. rewrite Hpm. case_bool_decide; [done|by apply Ha2].
Qed.

Lemma covered_not_shared c em pm h a :
  find_by_shared_attr c em pm h = None → covers em pm a h → ¬ shares a c h.
Proof.
  intros [Hem Hpm]%find_none [Ha1 Ha2] [(Hg & po & Hpa & Hpc)|(e & Hea & Hec)].
  - specialize (Hpm po Hpc). destruct (Ha2 po Hpa) as [r Hr].
    rewrite Hg in Hr. unfold ref in *. congruence.
  - specialize (Hem e Hec). destruct (Ha1 e Hea) as [r Hr].
    unfold ref in *. congruence.
Qed.

(** A pass that merges nothing has found nothing to merge. *)
Lemma merge_loop_nothing_shared cs : ∀ result em pm h,
  length (merge_loop cs result em pm h).1 = length result + length cs →
  ∀ j b, cs !! j = Some b →
    (∀ a, covers em pm a h → ¬ shares a b h)
    ∧ ∀ i a, i < j → cs !! i = Some a → ¬ shares a b h.
Proof.
  induction cs as [|c cs IH]; intros result em pm h Hlen j b Hj; [done|].
  rewrite merge_loop_cons in Hlen. cbn [length] in Hlen.
  destruct (find_by_shared_attr c em pm h) as [to_merge|] eqn:Hfind;
    cbv zeta in Hlen.
  { match type of Hlen with
    | context [merge_loop cs ?r ?e ?p ?h'] =>
        pose proof (merge_loop_length cs r e p h')
    end. lia. }
  destruct (covers_fill c em pm h) as [Hc Hmono]. cbv zeta in Hc, Hmono.
  match type of Hlen with
  | context [merge_loop cs ?r ?e ?p ?h'] => specialize (IH r e p h')
  end.
  rewrite length_app in IH. cbn [length] in IH.
  destruct j as [|j].
  - injection Hj as <-. split; [|intros i a Hi; lia].
    intros a Ha. by eapply covered_not_shared.
  - cbn in Hj. destruct (IH ltac:(lia) j b Hj) as [Hcov Hearlier]. split.
    + intros a Ha. apply Hcov. by apply Hmono.
    + intros [|i] a Hi Ha.
      * injection Ha as <-. by apply Hcov.
      * cbn in Ha. apply (Hearlier i a); [lia|done].
Qed.

(** X7: [merge_orders] merges all there is to merge: in the list it returns
    no two clusters have a purchase order in common under the same group,
    and no two have an email ID in common. *)
Theorem merge_orders_complete cs h :
  ∃ cs' h', merge_orders cs h = Some (cs', h')
    ∧ ∀ i j a b, i < j → cs' !! i = Some a → cs' !! j = Some b →
        ¬ shares a b h'.
Proof.
  destruct (merge_orders_loop_reaches (length cs) cs h)
    as (k & Hk & Hfix & _ & Hloop & _); [done|].
  destruct (passes k cs h) as [cs' h'] eqn:E. cbn [fst snd] in *.
  exists cs', h'. split; [unfold merge_orders; apply Hloop; lia|].
  intros i j a b Hij Ha Hb.
  assert (length (merge_loop cs' [] ∅ ∅ h').1 = length (@nil ref) + length cs')
    as Hlen.
  { fold (run_merge_iteration cs' h'). by rewrite Hfix. }
  destruct (merge_loop_nothing_shared cs' [] ∅ ∅ h' Hlen j b Hb) as [_ Hearlier].
  by apply (Hearlier i a).
Qed.

End merging.

(** The two clusters of [same_group] share a purchase order: the second is
    merged into the first, which then holds its order O2. *)
Lemma merge_orders_keeps_witness :
  ∃ cs' h', merge_orders [20; 30] same_group = Some (cs', h')
    ∧ head cs' = Some 20
    ∧ ∃ c', c' ∈ cs' ∧ "O2" ∈ get_set (orders (get_obj c' h')) h'.
Proof.
  destruct (merge_orders_keeps [20; 30] same_group)
    as (cs' & h' & Hrun & _ & Hhd & Hkept).
  exists cs', h'. split_and!; [exact Hrun|exact Hhd|].
  destruct (Hkept 30) as (c' & Hc' & Ho & _); [right; left|].
  exists c'. split; [exact Hc'|]. apply Ho. vm_compute. reflexivity.
Defined.

End merged_spec.

(** ** The cluster that [from_row] builds *)

Module from_row_more.
Import clusters store_facts logic invariants from_row_spec partition_spec
  examples sheet_examples.

Ltac steps H :=
  repeat (first
    [ rewrite set_column_stmt in H
    | rewrite flag_column_stmt in H
    | rewrite lift_if_set in H
    | rewrite lift_if_list in H
    | rewrite bindE_lift in H
    | rewrite bindE_value in H
    | rewrite cell_or_column in H
    | match type of H with
      | context [match column ?hd ?rw ?name with _ => _ end] =>
          destruct (column hd rw name) as [?|?] eqn:?; [discriminate H|]
      | context [match float_or_zero ?f ?x with _ => _ end] =>
          destruct (float_or_zero f x) as [?|?] eqn:?; [discriminate H|]
      end ];
    cbn [fst snd next new_set new_list sets lists objs __init__ _initiate
         bind ret new_obj put_obj] in H).

(** X8: [from_row] builds its cluster from new objects only: the cluster,
    its five sets and its list of cancelled items are allocated by the
    call (so none of them is a container of another cluster or one of the
    shared default containers of [_initiate]), the five sets are five
    different objects, and nothing that existed before the call is
    changed. *)
Theorem from_row_fresh fos header row h c h' :
  from_row fos header row h = inr (c, h') →
  let C := get_obj c h' in
  c = next h + 6 ∧ next h' = next h + 12
  ∧ set_attrs C = [next h; next h + 1; next h + 3; next h + 4; next h + 2]
  ∧ cancelled_items C = next h + 5
  ∧ apart C C
  ∧ same_below (next h) h h'.
Proof.
  intros Hrun C.
  destruct (from_row_result fos header row h c h' Hrun)
    as (o & t & b & r & n & ls & ld & p & g & a & m & e & no & ci & eb & er & ea
        & _ & _ & _ & _ & _ & _ & _ & _ & _ & _ & _ & _ & _ & _
        & _ & _ & _ & HC & _).
  fold C in HC.
  unfold from_row in Hrun. steps Hrun. unfold value in Hrun.
  injection Hrun as Hc Hh'.
  assert (set_attrs C
          = [next h; next h + 1; next h + 3; next h + 4; next h + 2]) as Hattrs.
  { rewrite HC. reflexivity. }
  split_and!.
  - rewrite <- Hc. lia.
  - rewrite <- Hh'. cbn. lia.
  - exact Hattrs.
  - by rewrite HC.
  - apply apart_self. rewrite Hattrs.
    repeat (apply NoDup_cons; split;
            [rewrite ?elem_of_cons, elem_of_nil; lia|]).
    apply NoDup_nil_2.
  - intros x Hx. rewrite <- Hh'.
    unfold get_obj, get_set, get_list, put_obj; cbn [objs sets lists].
    rewrite !lookup_insert_ne by lia. done.
Qed.

Lemma from_row_fresh_witness :
  sheet_cluster.1 = 10 ∧ next sheet_cluster.2 = 16
  ∧ set_attrs (get_obj sheet_cluster.1 sheet_cluster.2) = [4; 5; 7; 8; 6].
Proof.
  destruct (from_row_fresh read_float ["Orders"] ["O1"] module_heap
              sheet_cluster.1 sheet_cluster.2) as (Hc & Hn & Hs & _).
  - vm_compute. reflexivity.
  - exact (conj Hc (conj Hn Hs)).
Defined.

End from_row_more.

(** ** More on the cost ledgers *)

Module ledger_more.
Import group_site_manager logic ledgers examples.

Lemma upper_char_fixed c : tracking_char c = true → upper_char c = String c "".
Proof.
  destruct c as [[] [] [] [] [] [] [] []]; vm_compute;
    first [reflexivity | discriminate].
Qed.

Lemma upper_fixed s : all_chars tracking_char s = true → upper s = s.
Proof.
  induction s as [|c s IH]; [done|]. cbn [all_chars upper].
  intros [Hc Hs]%andb_true_iff. by rewrite (upper_char_fixed c Hc), (IH Hs).
Qed.

Lemma filter_chars_all p s : all_chars p (filter_chars p s) = true.
Proof.
  induction s as [|c s IH]; [done|]. cbn [filter_chars].
  destruct (p c) eqn:Hc; [|done]. cbn [all_chars]. by rewrite Hc, IH.
Qed.

Lemma filter_chars_fixed p s : all_chars p s = true → filter_chars p s = s.
Proof.
  induction s as [|c s IH]; [done|]. cbn [all_chars filter_chars].
  intros [Hc Hs]%andb_true_iff. by rewrite Hc, (IH Hs).
Qed.

(** X9: [clean_csv_tracking] leaves digits, capital letters and commas only,
    and cleaning a cleaned text changes nothing. *)
Theorem clean_csv_tracking_idempotent s :
  all_chars tracking_char (clean_csv_tracking s) = true
  ∧ clean_csv_tracking (clean_csv_tracking s) = clean_csv_tracking s.
Proof.
  assert (all_chars tracking_char (clean_csv_tracking s) = true) as Hall.
  { apply (filter_chars_all tracking_char). }
  split; [exact Hall|].
  unfold clean_csv_tracking at 1. rewrite (upper_fixed _ Hall).
  by apply (filter_chars_fixed tracking_char).
Qed.

(** A property that every turn of a loop keeps holds when the loop ends
    without an exception. *)
Lemma for_rows_inv {S R} (P : S → Prop) (body : S → R → pyerror + S) rows :
  ∀ st st', P st →
    (∀ st r st', P st → r ∈ rows → body st r = inr st' → P st') →
    for_rows body st rows = inr st' → P st'.
Proof.
  induction rows as [|r rows IH]; intros st st' HP Hbody; cbn [for_rows].
  - by intros [= <-].
  - unfold bindR. destruct (body st r) as [e|st1] eqn:E; [done|].
    apply IH.
    + apply (Hbody st r); [done|left|done].
    + intros st2 r2 st3 HP2 Hin. apply Hbody; [done|by right].
Qed.

Section adapters.
Context (fos : string → option float) (sp : string → option string).

(** X10: in the result of the YRCW adapter the map of purchase-order costs
    repeats the ledger: it has an amount under a tracking number exactly
    when the ledger has an entry for that number, and it is the same
    amount; every key of the ledger is a single tracking number, with
    source [yrcw] and no date. *)
Theorem yrcw_po_costs_mirror rows d pm :
  _get_yrcw_tracking_pos_prices fos rows = inr (d, pm) →
  (∀ t, pm !! t = cost_of <$> d !! [t])
  ∧ ∀ k info, d !! k = Some info →
      ∃ t, k = [t] ∧ info = ("yrcw", cost_of info, "").
Proof.
  unfold _get_yrcw_tracking_pos_prices.
  apply (for_rows_inv
           (λ st : ReconResult,
              (∀ t, st.2 !! t = cost_of <$> st.1 !! [t])
              ∧ ∀ k info, st.1 !! k = Some info →
                  ∃ t, k = [t] ∧ info = ("yrcw", cost_of info, ""))).
  - cbn. split; [intros t; by rewrite !lookup_empty|].
    intros k info Hk. by rewrite lookup_empty in Hk.
  - intros [d0 pm0] row [d1 pm1] [Hm Hk] _ Hrow. cbn [fst snd] in *.
    unfold yrcw_row, bindR in Hrow.
    destruct (field row "Tracking #") as [?|number]; [done|].
    destruct (field row "Value") as [?|value_str]; [done|].
    destruct (negb (str_truthy value_str)); [by injection Hrow as <- <-|].
    destruct (float_ fos _) as [?|value]; [done|].
    injection Hrow as <- <-.
    assert (previous_cost d0 [clean_csv_tracking number]
            = default (NFloat 0) (pm0 !! clean_csv_tracking number)) as Hprev.
    { unfold previous_cost. rewrite Hm.
      by destruct (d0 !! [clean_csv_tracking number]). }
    split.
    + intros t. destruct (decide (t = clean_csv_tracking number)) as [->|Hne].
      * rewrite !lookup_insert_eq. cbn. by rewrite Hprev.
      * rewrite !lookup_insert_ne by congruence. apply Hm.
    + intros k info.
      destruct (decide (k = [clean_csv_tracking number])) as [->|Hne].
      * rewrite lookup_insert_eq. intros [= <-]. eauto.
      * rewrite lookup_insert_ne by done. apply Hk.
Qed.

Lemma field_same_but_flags row void verified name :
  name ≠ "VOID" → name ≠ "VERIFIED" →
  field (<["VOID" := void]> (<["VERIFIED" := verified]> row)) name
  = field row name.
Proof.
  intros H1 H2. unfold field. by rewrite !lookup_insert_ne by done.
Qed.

Lemma melul_row_po_costs group d d' pm row row' :
  same_but_flags row row' →
  po_costs (melul_row fos sp group (d, pm) row)
  = po_costs (melul_row fos sp group (d', pm) row')
  ∧ ∀ d1 pm1 d2 pm2,
      melul_row fos sp group (d, pm) row = inr (d1, pm1) →
      melul_row fos sp group (d', pm) row' = inr (d2, pm2) → pm1 = pm2.
Proof.
  intros ([v0 Hv0] & [w0 Hw0] & void & verified & ->).
  unfold melul_row.
  assert (field (<["VOID" := void]> (<["VERIFIED" := verified]> row)) "VOID"
          = inr void) as ->.
  { unfold field. by rewrite lookup_insert_eq. }
  assert (field (<["VOID" := void]> (<["VERIFIED" := verified]> row)) "VERIFIED"
          = inr verified) as ->.
  { unfold field. rewrite lookup_insert_ne by done. by rewrite lookup_insert_eq. }
  assert (field row "VOID" = inr v0) as -> by (unfold field; by rewrite Hv0).
  assert (field row "VERIFIED" = inr w0) as -> by (unfold field; by rewrite Hw0).
  rewrite !field_same_but_flags by done.
  cbv beta iota delta [bindR].
  destruct (field row "ID") as [?|po]; [done|].
  destruct (field row "TOTAL") as [?|total]; [done|].
  destruct (float_ fos total) as [?|cost]; [done|].
  destruct (field row "CREATED DATE") as [?|date_str]; [done|].
  destruct (to_date sp date_str) as [?|date]; [done|].
  destruct (field row "TRACKING NUMBERS") as [?|numbers]; [done|].
  cbn [po_costs]. split; [done|]. by intros ? ? ? ? [= _ <-] [= _ <-].
Qed.

Lemma melul_loop_po_costs group rows : ∀ rows' d d' pm,
  Forall2 same_but_flags rows rows' →
  po_costs (for_rows (melul_row fos sp group) (d, pm) rows)
  = po_costs (for_rows (melul_row fos sp group) (d', pm) rows').
Proof.
  induction rows as [|row rows IH]; intros rows' d d' pm Hall.
  - by apply Forall2_nil_inv_l in Hall as ->.
  - apply Forall2_cons_inv_l in Hall as (row' & rest' & Hrow & Hrest & ->).
    cbn [for_rows]. unfold bindR.
    destruct (melul_row_po_costs group d d' pm row row' Hrow) as [Hpo Hsame].
    destruct (melul_row fos sp group (d, pm) row) as [e|[d1 pm1]];
      destruct (melul_row fos sp group (d', pm) row') as [e'|[d2 pm2]];
      cbn [po_costs] in Hpo; try done.
    rewrite (Hsame d1 pm1 d2 pm2 eq_refl eq_refl). by apply IH.
Qed.

(** X11: what the Melul adapter returns as purchase-order costs does not
    depend on the VOID and VERIFIED columns: the TOTAL of a void or
    unverified row is added to the cost of its purchase order all the
    same (while the ledger of trackings counts such a row as zero). *)
Theorem melul_po_costs_ignore_flags group rows rows' :
  Forall2 same_but_flags rows rows' →
  po_costs (_melul_get_tracking_pos_costs_maps fos sp group rows)
  = po_costs (_melul_get_tracking_pos_costs_maps fos sp group rows').
Proof. apply melul_loop_po_costs. Qed.

(** X12: the EMB adapter has an entry for the tracking of every row of the
    export and for nothing else, whether the row is verified or not and
    whether it has a total or not; the entries have source [embdeals] and
    no date, and no purchase-order costs are returned. *)
Theorem emb_ledger_keys rows d pm :
  _get_emb_tracking_pos_prices fos rows = inr (d, pm) →
  pm = ∅
  ∧ (∀ k, is_Some (d !! k) ↔
       ∃ row number, row ∈ rows ∧ row !! "tracking" = Some number
                     ∧ k = [clean_csv_tracking number])
  ∧ ∀ k info, d !! k = Some info → info = ("embdeals", cost_of info, "").
Proof.
  unfold _get_emb_tracking_pos_prices, bindR.
  destruct (for_rows (emb_row fos) ∅ rows) as [e|d0] eqn:Hloop; [done|].
  intros [= <- <-]. split; [done|].
  assert (∀ seen d1,
            ((∀ k, is_Some (d1 !! k) ↔
                ∃ row number, row ∈ seen ∧ row !! "tracking" = Some number
                              ∧ k = [clean_csv_tracking number])
             ∧ ∀ k info, d1 !! k = Some info →
                 info = ("embdeals", cost_of info, "")) →
            ∀ d2, for_rows (emb_row fos) d1 rows = inr d2 →
            (∀ k, is_Some (d2 !! k) ↔
                ∃ row number, row ∈ seen ++ rows ∧ row !! "tracking" = Some number
                              ∧ k = [clean_csv_tracking number])
            ∧ ∀ k info, d2 !! k = Some info →
                info = ("embdeals", cost_of info, "")) as Hgen.
  { clear. induction rows as [|row rows IH]; intros seen d1 [Hk Hi] d2;
      cbn [for_rows].
    - intros [= <-]. by rewrite app_nil_r.
    - unfold bindR. destruct (emb_row fos d1 row) as [e|d1'] eqn:Hrow; [done|].
      intros Hrest.
      replace (seen ++ row :: rows) with ((seen ++ [row]) ++ rows)
        by (by rewrite <- app_assoc).
      apply (IH (seen ++ [row]) d1'); [|done].
      unfold emb_row, bindR, field in Hrow.
      destruct (row !! "tracking") as [number|] eqn:Hnum; [|done].
      destruct (row !! "is_verified") as [verified_s|]; [|done].
      destruct (row !! "total") as [total_s|]; [|done].
      destruct (if str_truthy total_s && bool_decide (verified_s = "True")
                then float_ fos total_s else inr (NInt 0)) as [?|total];
        [done|].
      injection Hrow as <-. split.
      + intros k. destruct (decide (k = [clean_csv_tracking number])) as [->|Hne].
        * rewrite lookup_insert_eq. split; [|by eauto]. intros _.
          exists row, number. split; [|done]. apply elem_of_app. right. by left.
        * rewrite lookup_insert_ne by done. rewrite Hk. split.
          -- intros (r & n & Hr & ? & ?). exists r, n.
             split; [apply elem_of_app; by left|done].
          -- intros (r & n & [Hr| ->%list_elem_of_singleton]%elem_of_app & Hn & ->).
             ++ by exists r, n.
             ++ rewrite Hnum in Hn. by injection Hn as <-.
      + intros k info.
        destruct (decide (k = [clean_csv_tracking number])) as [->|Hne].
        * rewrite lookup_insert_eq. by intros [= <-].
        * rewrite lookup_insert_ne by done. apply Hi. }
  apply (Hgen [] ∅); [|done]. split.
  - intros k. rewrite lookup_empty. split; [by intros [? ?]|].
    intros (r & n & Hr & _). by apply elem_of_nil in Hr.
  - intros k info Hk. by rewrite lookup_empty in Hk.
Qed.

End adapters.

Lemma yrcw_po_costs_mirror_witness :
  ∃ d pm,
    _get_yrcw_tracking_pos_prices read_float [yrcw_csv "10.0"; yrcw_csv "15.0"]
    = inr (d, pm)
    ∧ pm !! "1Z999" = cost_of <$> d !! ["1Z999"].
Proof.
  assert (∃ d pm, _get_yrcw_tracking_pos_prices read_float
                    [yrcw_csv "10.0"; yrcw_csv "15.0"] = inr (d, pm))
    as (d & pm & Hrun) by (vm_compute; eauto).
  exists d, pm. split; [exact Hrun|].
  by destruct (yrcw_po_costs_mirror read_float _ d pm Hrun) as [Hm _].
Defined.

Lemma melul_po_costs_ignore_flags_witness :
  po_costs (_melul_get_tracking_pos_costs_maps read_float day_of "g"
              [melul_csv "10.0" "1" "0"])
  = po_costs (_melul_get_tracking_pos_costs_maps read_float day_of "g"
                [<["VOID" := "1"]> (<["VERIFIED" := "0"]> (melul_csv "10.0" "1" "0"))]).
Proof.
  apply (melul_po_costs_ignore_flags read_float day_of "g").
  constructor; [|constructor].
  split_and!; [by vm_compute; eauto..|]. by exists "1", "0".
Defined.

Lemma emb_ledger_keys_witness :
  ∃ d pm,
    _get_emb_tracking_pos_prices read_float [emb_csv "10.0" "False"] = inr (d, pm)
    ∧ pm = ∅ ∧ is_Some (d !! ["1Z999"]).
Proof.
  assert (∃ d pm, _get_emb_tracking_pos_prices read_float
                    [emb_csv "10.0" "False"] = inr (d, pm))
    as (d & pm & Hrun) by (vm_compute; eauto).
  exists d, pm. split; [exact Hrun|].
  destruct (emb_ledger_keys read_float _ d pm Hrun) as (Hpm & Hkeys & _).
  split; [exact Hpm|]. apply Hkeys.
  exists (emb_csv "10.0" "False"), "1z999".
  split_and!; [left|reflexivity|reflexivity].
Defined.

End ledger_more.

(** ** Uploads to a group that no branch knows *)

Module upload_spec.
Import group_site_manager examples.

Section executor.
Context {World : Type}.
Context (melul_portal_groups : list string).
Context (credentials : string → option (string * string)).
Context (_upload_melul : list string → string → string → string → @action World unit).
Context (_upload_usa _upload_yrcw _upload_bfmr _upload_oaks _upload_emb
           : list string → @action World unit).
Context (_upload_gibstrat : string → list string → @action World unit).

Lemma attempts_all_raise {A} n (op : @action World A) e w :
  op w = (Raises e, w) → ∀ lst,
  attempts n op lst w = (inr (if n is 0 then lst else Some e), w).
Proof.
  intros Hop. induction n as [|n IH]; intros lst; [done|].
  cbn [attempts]. rewrite Hop, IH. by destruct n.
Qed.

(** X13: an upload to a group that is neither a Melul portal of the
    configuration nor one of usa, yrcw, bfmr, oaks, dtmd, gibstrat and
    embdeals touches no portal: all ten attempts raise "Unknown group", and
    [_upload_to_group] raises "Exceeded retry limit" with that exception as
    its cause, the world being as it was. *)
Theorem upload_unknown_group numbers group w :
  group ∉ melul_portal_groups →
  group ∉ ["usa"; "yrcw"; "bfmr"; "oaks"; "dtmd"; "gibstrat"; "embdeals"] →
  _upload_to_group melul_portal_groups credentials _upload_melul _upload_usa
    _upload_yrcw _upload_bfmr _upload_oaks _upload_emb _upload_gibstrat
    numbers group w
  = (Raises (Exception "Exceeded retry limit" None
               (Some (Exception ("Unknown group: " +:+ group) None None))), w).
Proof.
  intros Hmelul Hnames.
  assert (upload_once melul_portal_groups credentials _upload_melul _upload_usa
            _upload_yrcw _upload_bfmr _upload_oaks _upload_emb _upload_gibstrat
            numbers group w
          = (Raises (Exception ("Unknown group: " +:+ group) None None), w))
    as Honce.
  { unfold upload_once, contains. rewrite bool_decide_eq_false_2 by done.
    repeat (rewrite decide_False;
            [|rewrite ?not_elem_of_cons in Hnames; naive_solver]).
    done. }
  unfold _upload_to_group, MAX_UPLOAD_ATTEMPTS.
  by rewrite (attempts_all_raise 10 _ _ _ Honce).
Qed.

End executor.

Lemma upload_unknown_group_witness :
  _upload_to_group ["melul"] (λ _, None) (λ _ _ _ _, no_upload []) no_upload
    no_upload no_upload no_upload no_upload (λ _, no_upload) ["T1"] "pointsmaker" 0
  = (Raises (Exception "Exceeded retry limit" None
               (Some (Exception "Unknown group: pointsmaker" None None))), 0).
Proof.
  apply (upload_unknown_group ["melul"] (λ _, None) (λ _ _ _ _, no_upload [])
           no_upload no_upload no_upload no_upload no_upload (λ _, no_upload)
           ["T1"] "pointsmaker" 0).
  - rewrite not_elem_of_cons. split; [done|]. apply not_elem_of_nil.
  - rewrite !not_elem_of_cons. split_and!; try done. apply not_elem_of_nil.
Defined.

End upload_spec.

(** ** The portals: waiting for an export, paging, grouping, archives *)

Module portals_spec.
Import group_site_manager portals examples.

Section wait_for_csv.
Context {World : Type}.
Context (folder : string).
Context (listdir : @action World (list string)).
Context (read_csv : string → @action World (list (gmap string string))).
Context (sleep : @action World unit).

Lemma wait_loop_polls n : ∀ k w w1,
  empty_polls listdir sleep k w = Some w1 →
  wait_loop folder listdir read_csv sleep (k + n) w
  = wait_loop folder listdir read_csv sleep n w1.
Proof.
  intros k. induction k as [|k IH]; intros w w1; cbn [empty_polls].
  - by intros [= <-].
  - destruct (listdir w) as [[[|? ?]|?] w2] eqn:Hl; try done.
    destruct (sleep w2) as [[[]|?] w3] eqn:Hs; try done.
    intros Hk. cbn [Nat.add wait_loop]. unfold abind at 1. rewrite Hl.
    unfold abind at 1. rewrite Hs. by apply IH.
Qed.

(** X14: [_wait_for_csv] lists the export folder at most 60 times, a second
    apart.  As soon as a listing is not empty it reads the first file
    listed, whatever else is there, and that is its result (or its
    exception); after 60 empty listings it returns no rows. *)
Theorem wait_for_csv_polls :
  (∀ k w w1 first others w2,
     k < 60 → empty_polls listdir sleep k w = Some w1 →
     listdir w1 = (Returns (first :: others), w2) →
     _wait_for_csv folder listdir read_csv sleep w
     = read_csv (folder +:+ "/" +:+ first) w2)
  ∧ (∀ w w1,
     empty_polls listdir sleep 60 w = Some w1 →
     _wait_for_csv folder listdir read_csv sleep w = (Returns [], w1)).
Proof.
  unfold _wait_for_csv, EXPORT_WAIT_TIMEOUT_SECONDS. split.
  - intros k w w1 first others w2 Hk Hpolls Hlist.
    replace 60 with (k + S (59 - k)) by lia.
    rewrite (wait_loop_polls _ k w w1 Hpolls).
    cbn [wait_loop]. unfold abind. by rewrite Hlist.
  - intros w w1 Hpolls.
    change 60 with (60 + 0). by rewrite (wait_loop_polls 0 60 w w1 Hpolls).
Qed.

End wait_for_csv.

Section usa_entries.
Context {World Entry : Type}.
Context (get_page : nat → @action World (Z * list Entry)).
Context (total_items : Z) (data : nat → list Entry).

(** Every request is answered, with the same count of items and with the
    items of the page asked for. *)
Hypothesis answers :
  ∀ start w, ∃ w', get_page start w = (Returns (total_items, data start), w').

Lemma entries_loop_pages m : ∀ i fuel result w,
  (total_items ≤ Z.of_nat (100 * (i + m)))%Z →
  (∀ j, i ≤ j → j < i + m - 1 → (Z.of_nat (100 * (j + 1)) < total_items)%Z) →
  1 ≤ m →
  (m ≤ fuel →
   ∃ w', entries_loop get_page fuel (100 * i) result w
         = (Returns (Some (result ++ concat (data <$> ((λ j, 100 * j) <$> seq i m)))),
            w'))
  ∧ (fuel < m →
     ∃ w', entries_loop get_page fuel (100 * i) result w = (Returns None, w')).
Proof.
  induction m as [|m IH]; intros i fuel result w Hstop Hgo Hm; [lia|].
  split.
  - intros Hfuel. destruct fuel as [|fuel]; [lia|].
    cbn [entries_loop]. unfold abind at 1.
    destruct (answers (100 * i) w) as [w1 ->]. cbn [fst snd].
    destruct (decide (m = 0)) as [->|Hm0].
    + rewrite (proj2 (Z.leb_le _ _)) by lia.
      exists w1. cbn. by rewrite app_nil_r.
    + rewrite (proj2 (Z.leb_gt _ _)).
      2:{ specialize (Hgo i). lia. }
      replace (100 * i + 100) with (100 * (S i)) by lia.
      destruct (IH (S i) fuel (result ++ data (100 * i)) w1) as [Hret _];
        [lia| |lia|].
      { intros j Hj1 Hj2. apply Hgo; lia. }
      destruct (Hret ltac:(lia)) as [w' ->]. exists w'.
      cbn [seq fmap list_fmap concat]. by rewrite <- app_assoc.
  - intros Hfuel. destruct fuel as [|fuel]; [by exists w|].
    cbn [entries_loop]. unfold abind at 1.
    destruct (answers (100 * i) w) as [w1 ->]. cbn [fst snd].
    assert (m ≠ 0) as Hm0 by lia.
    rewrite (proj2 (Z.leb_gt _ _)).
    2:{ specialize (Hgo i). lia. }
    replace (100 * i + 100) with (100 * (S i)) by lia.
    destruct (IH (S i) fuel (result ++ data (100 * i)) w1) as [_ Hnone];
      [lia| |lia|].
    { intros j Hj1 Hj2. apply Hgo; lia. }
    apply Hnone. lia.
Qed.

(** X15: when the server answers every request with the same count of
    items, [_get_usa_tracking_entries] asks for the pages that start at 0,
    100, 200, ... below that count, and for the page at 0 in any case, and
    returns their items in that order: one request for a count up to 100,
    the count divided by 100 and rounded up otherwise.  It ends after that
    many requests, and not before. *)
Theorem usa_entries_pages fuel w :
  let pages := Z.to_nat (Z.max 1 ((total_items + 99) / 100)) in
  (pages ≤ fuel →
   ∃ w', _get_usa_tracking_entries get_page fuel w
         = (Returns (Some (concat (data <$> ((λ j, 100 * j) <$> seq 0 pages)))),
            w'))
  ∧ (fuel < pages →
     ∃ w', _get_usa_tracking_entries get_page fuel w = (Returns None, w')).
Proof.
  intros pages. unfold _get_usa_tracking_entries.
  assert (1 ≤ pages) as Hpos by (unfold pages; lia).
  assert (total_items ≤ Z.of_nat (100 * pages))%Z as Hstop.
  { unfold pages.
    pose proof (Z.div_mod (total_items + 99) 100 ltac:(lia)) as Hdm.
    pose proof (Z.mod_pos_bound (total_items + 99) 100 ltac:(lia)). lia. }
  assert (∀ j, j < pages - 1 → (Z.of_nat (100 * (j + 1)) < total_items)%Z)
    as Hgo.
  { intros j Hj. unfold pages in Hj.
    pose proof (Z.div_mod (total_items + 99) 100 ltac:(lia)) as Hdm.
    pose proof (Z.mod_pos_bound (total_items + 99) 100 ltac:(lia)). lia. }
  destruct (entries_loop_pages pages 0 fuel [] w) as [Hret Hnone];
    [by rewrite Nat.add_0_l| |done|].
  { intros j _ Hj. apply Hgo. lia. }
  split; [|exact Hnone].
  intros Hfuel. destruct (Hret Hfuel) as [w' Hw']. exists w'.
  exact Hw'.
Qed.

End usa_entries.

Section grouping.
Context {T : Type} (group : T → string).

Lemma append_to_keys (d : list (string * list T)) key x :
  (append_to d key x).*1
  = if decide (key ∈ d.*1) then d.*1 else d.*1 ++ [key].
Proof.
  induction d as [|[k l] d IH]; cbn [append_to fmap list_fmap fst].
  - by rewrite decide_False by apply not_elem_of_nil.
  - destruct (decide (k = key)) as [->|Hne]; cbn [fmap list_fmap fst].
    + rewrite decide_True; [done|left].
    + fold (fmap (M:=list) (@fst string (list T))). rewrite IH.
      destruct (decide (key ∈ d.*1)) as [Hin|Hnin].
      * rewrite decide_True; [done|by right].
      * rewrite decide_False; [done|].
        intros [?|?]%elem_of_cons; congruence.
Qed.

Lemma append_to_elem (d : list (string * list T)) key x g l :
  NoDup d.*1 →
  (g, l) ∈ append_to d key x ↔
    (g ≠ key ∧ (g, l) ∈ d)
    ∨ (g = key ∧ ((∃ l0, (key, l0) ∈ d ∧ l = l0 ++ [x])
                   ∨ (key ∉ d.*1 ∧ l = [x]))).
Proof.
  induction d as [|[k l1] d IH]; cbn [append_to fmap list_fmap fst]; intros Hnd.
  - rewrite list_elem_of_singleton. split.
    + intros [= -> ->]. right. split; [done|]. right. split; [|done].
      apply not_elem_of_nil.
    + intros [[_ []%elem_of_nil]|[-> [(l0 & []%elem_of_nil & _)|[_ ->]]]]. done.
  - apply NoDup_cons in Hnd as [Hk Hnd]. specialize (IH Hnd).
    assert (∀ l', (k, l') ∈ d → False) as Hk'.
    { intros l' Hin. apply Hk. apply list_elem_of_fmap. by exists (k, l'). }
    destruct (decide (k = key)) as [->|Hne].
    + split.
      * intros [[= -> ->]|Hin]%elem_of_cons.
        -- right. split; [done|]. left. exists l1. split; [by left|done].
        -- left. split; [|by right]. intros ->. by apply (Hk' l).
      * intros [[Hg [[= -> ->]|Hin]%elem_of_cons]
               |[-> [(l0 & [[= <-]|Hin]%elem_of_cons & ->)|[Hnin ->]]]].
        -- done.
        -- by right.
        -- by left.
        -- exfalso. by apply (Hk' l0).
        -- exfalso. apply Hnin. by left.
    + split.
      * intros [[= -> ->]|Hin]%elem_of_cons.
        -- left. split; [done|by left].
        -- apply IH in Hin as [[Hg Hin]|[-> [(l0 & Hin & ->)|[Hnin ->]]]].
           ++ left. split; [done|by right].
           ++ right. split; [done|]. left. exists l0. split; [by right|done].
           ++ right. split; [done|]. right. split; [|done].
              intros [?|?]%elem_of_cons; [congruence|done].
      * intros [[Hg [[= -> ->]|Hin]%elem_of_cons]
               |[-> [(l0 & [[= -> ->]|Hin]%elem_of_cons & ->)|[Hnin ->]]]].
        -- by left.
        -- right. apply IH. by left.
        -- done.
        -- right. apply IH. right. split; [done|]. left. by exists l0.
        -- right. apply IH. right. split; [done|]. right. split; [|done].
           intros Hin. apply Hnin. by right.
Qed.

Lemma group_by_inv (xs : list T) : ∀ seen d,
  (NoDup d.*1
   ∧ ∀ g l, (g, l) ∈ d ↔ l = filter (λ x, group x = g) seen ∧ l ≠ []) →
  let d' := foldl (λ d x, append_to d (group x) x) d xs in
  NoDup d'.*1
  ∧ ∀ g l, (g, l) ∈ d' ↔ l = filter (λ x, group x = g) (seen ++ xs) ∧ l ≠ [].
Proof.
  induction xs as [|x xs IH]; intros seen d [Hnd Hd]; cbn [foldl].
  - by rewrite app_nil_r.
  - replace (seen ++ x :: xs) with ((seen ++ [x]) ++ xs)
      by (by rewrite <- app_assoc).
    apply IH. split.
    + rewrite append_to_keys. destruct (decide _) as [Hin|Hnin]; [done|].
      apply NoDup_app. split_and!; [done| |apply NoDup_singleton].
      intros k Hk ->%list_elem_of_singleton. done.
    + intros g l. rewrite append_to_elem by done.
      rewrite filter_app, filter_cons, filter_nil.
      destruct (decide (group x = g)) as [<-|Hne].
      * split.
        -- intros [[? _]|[_ [(l0 & Hin & ->)|[Hnin ->]]]]; [done| |].
           ++ apply Hd in Hin as [-> _]. split; [done|].
              intros [? ?]%app_eq_nil. done.
           ++ split; [|done].
              destruct (filter (λ y, group y = group x) seen) as [|y l0] eqn:E;
                [done|].
              exfalso. apply Hnin. apply list_elem_of_fmap.
              exists (group x, y :: l0). split; [done|]. apply Hd. by rewrite E.
        -- intros [-> _]. right. split; [done|].
           destruct (filter (λ y, group y = group x) seen) as [|y l0] eqn:E.
           ++ right. split; [|done].
              intros ([g l1] & Hg & Hin)%list_elem_of_fmap. cbn [fst] in Hg.
              apply Hd in Hin as [-> Hne]. rewrite <- Hg in Hne.
              by rewrite E in Hne.
           ++ left. exists (y :: l0). split; [|done]. apply Hd. by rewrite E.
      * rewrite app_nil_r, Hd. split.
        -- by intros [[_ ?]|[? _]].
        -- intros ?. left. split; [congruence|done].
Qed.

Lemma group_by_entry (xs : list T) g l :
  (g, l) ∈ group_by group xs → l = filter (λ x, group x = g) xs ∧ l ≠ [].
Proof.
  intros Hin. apply (group_by_inv xs [] []); [|exact Hin].
  split; [apply NoDup_nil_2|].
  intros g' l'. split; [by intros []%elem_of_nil|]. by intros [-> ?].
Qed.

(** X16: grouping by group, as [GroupSiteManager.upload] and
    [TrackingRetriever.get_trackings] do it, makes one entry for each group
    that occurs, and the entry of a group lists exactly the trackings of
    that group, in the order in which they came: every tracking is in one
    entry, once. *)
Theorem group_by_groups (xs : list T) :
  NoDup (group_by group xs).*1
  ∧ ∀ g l, (g, l) ∈ group_by group xs
           ↔ l = filter (λ x, group x = g) xs ∧ l ≠ [].
Proof.
  apply (group_by_inv xs [] []). split; [apply NoDup_nil_2|].
  intros g l. split; [by intros []%elem_of_nil|]. by intros [-> ?].
Qed.

End grouping.

Lemma abind_returns {World A B} (m : @action World A) (k : A → @action World B)
    w b w' :
  abind m k w = (Returns b, w') →
  ∃ a w1, m w = (Returns a, w1) ∧ k a w1 = (Returns b, w').
Proof.
  unfold abind. destruct (m w) as [[a|e] w1]; [|done]. eauto.
Qed.

Section manager.
Context {World : Type}.
Context (config_groups : gmap string group_config).
Context (melul_portal_groups : list string).
Context (_get_bfmr_costs : @action World TrackingInfoDict).
Context (_melul_get_tracking_pos_costs_maps
           : string → string → string → @action World ReconResult).
Context (_get_usa_tracking_pos_prices _get_yrcw_tracking_pos_prices
         _get_oaks_tracking_pos_prices _get_emb_tracking_pos_prices
           : @action World ReconResult).
Context (_get_gibstrat_tracking_pos_prices : string → @action World ReconResult).
Context (has_archive : string → @action World bool).
Context (put_archive : string → PoCostDict → TrackingInfoDict → @action World unit).
Context (get_archive : string → @action World (PoCostDict * TrackingInfoDict)).
Context (recon_folder_exists : @action World bool).
Context (recon_folder_listdir : @action World (list string)).
Context (_recon_via_csvs : string → @action World ReconResult).

Local Abbreviation loop :=
  (archive_loop _melul_get_tracking_pos_costs_maps has_archive put_archive
     get_archive).
Local Abbreviation costs :=
  (get_new_tracking_pos_costs_maps config_groups melul_portal_groups
     _get_bfmr_costs _melul_get_tracking_pos_costs_maps
     _get_usa_tracking_pos_prices _get_yrcw_tracking_pos_prices
     _get_oaks_tracking_pos_prices _get_emb_tracking_pos_prices
     _get_gibstrat_tracking_pos_prices has_archive put_archive get_archive
     recon_folder_exists recon_folder_listdir _recon_via_csvs).

Lemma archive_loop_replaces username password archives :
  ∀ trackings_info po_cost w trackings_info' po_cost' w',
  loop username password archives (trackings_info, po_cost) w
  = (Returns (trackings_info', po_cost'), w') →
  ∃ contents,
    Forall2 (archive_read get_archive) archives contents
    ∧ trackings_info' = foldl (λ d c, dict_update d c.2) trackings_info contents
    ∧ po_cost' = foldl (λ d c, dict_update d c.1) po_cost contents
    ∧ ∀ c key info, last contents = Some c → c.2 !! key = Some info →
        trackings_info' !! key = Some info.
Proof.
  induction archives as [|a rest IH];
    intros ti po w ti' po' w'; cbn [archive_loop].
  - intros [= <- <- <-]. exists []. split_and!; [constructor|done|done|done].
  - intros Hrun.
    apply abind_returns in Hrun as (has & w1 & Hhas & Hrun).
    apply abind_returns in Hrun as ([] & w2 & Hput & Hrun).
    apply abind_returns in Hrun as (c & w3 & Hget & Hrest).
    destruct (IH _ _ _ _ _ _ Hrest) as (cs & Hall & -> & -> & Hlast).
    exists (c :: cs). split_and!; [|done|done|].
    + constructor; [by exists w2, w3|done].
    + intros c' key info. destruct cs as [|c1 cs'] eqn:Ecs.
      * cbn. intros [= <-] Hkey. unfold dict_update.
        by apply lookup_union_Some_l.
      * intros Hl. apply Hlast. by rewrite <- Hl.
Qed.

(** X17: the archives of a Melul group replace what the portal reports.
    When [get_new_tracking_pos_costs_maps] returns for a Melul group with
    archives, its ledgers are those fetched for the group, updated with the
    content of each archive in turn, as [get_archive] gave it; so an entry
    that the last archive has for a key is the entry of the result, the
    amount fetched for that key not being added to it. *)
Theorem costs_archives_replace group group_config user pass archives w
    trackings_info' po_cost' w' :
  group ≠ "bfmr" → group ∈ melul_portal_groups →
  config_groups !! group = Some group_config →
  username group_config = Some user → password group_config = Some pass →
  portals.archives group_config = Some archives →
  costs group w = (Returns (trackings_info', po_cost'), w') →
  ∃ fetched contents,
    (∃ w1 w2, _melul_get_tracking_pos_costs_maps group user pass w1
              = (Returns fetched, w2))
    ∧ Forall2 (archive_read get_archive) archives contents
    ∧ trackings_info' = foldl (λ d c, dict_update d c.2) fetched.1 contents
    ∧ po_cost' = foldl (λ d c, dict_update d c.1) fetched.2 contents
    ∧ ∀ c key info, last contents = Some c → c.2 !! key = Some info →
        trackings_info' !! key = Some info.
Proof.
  intros Hbfmr Hmelul Hconfig Huser Hpass Harch.
  unfold get_new_tracking_pos_costs_maps, contains.
  rewrite decide_False by done. rewrite bool_decide_eq_true_2 by done.
  rewrite Hconfig, Huser, Hpass, Harch. intros Hrun.
  apply abind_returns in Hrun as ([ti po] & w1 & Hfetch & Hloop).
  destruct (archive_loop_replaces _ _ _ _ _ _ _ _ _ Hloop)
    as (contents & Hall & Hti & Hpo & Hlast).
  exists (ti, po), contents. split_and!; [by exists w, w1|done..].
Qed.

(** X18: asking for the costs of a group that no branch knows is no
    error: when the group is not bfmr, not a Melul portal, none of usa,
    yrcw, oaks, dtmd, gibstrat and embdeals, and the folder of reports does
    not exist or has no entry for it, the first attempt of
    [get_new_tracking_pos_costs_maps_with_retry] returns two empty ledgers,
    having looked at nothing but that folder. *)
Theorem costs_unknown_group group w :
  group ∉ melul_portal_groups →
  group ∉ ["bfmr"; "usa"; "yrcw"; "oaks"; "dtmd"; "gibstrat"; "embdeals"] →
  (∀ w1, recon_folder_exists w = (Returns false, w1) →
     get_new_tracking_pos_costs_maps_with_retry costs group w
     = (Returns (∅, ∅), w1))
  ∧ (∀ w1 names w2, recon_folder_exists w = (Returns true, w1) →
     recon_folder_listdir w1 = (Returns names, w2) → group ∉ names →
     get_new_tracking_pos_costs_maps_with_retry costs group w
     = (Returns (∅, ∅), w2)).
Proof.
  intros Hmelul Hnames.
  assert (costs group
          = abind recon_folder_exists
              (λ folder, if folder
                         then abind recon_folder_listdir
                                (λ names, if contains names group
                                          then _recon_via_csvs group
                                          else areturn (∅, ∅))
                         else areturn (∅, ∅))) as Hcosts.
  { unfold get_new_tracking_pos_costs_maps, contains.
    rewrite (bool_decide_eq_false_2 _ Hmelul).
    repeat (rewrite decide_False;
            [|rewrite ?not_elem_of_cons in Hnames; naive_solver]).
    done. }
  unfold get_new_tracking_pos_costs_maps_with_retry. cbn [attempts].
  rewrite Hcosts. split.
  - intros w1 Hex. unfold abind. by rewrite Hex.
  - intros w1 names w2 Hex Hls Hnot. unfold abind, contains.
    rewrite Hex, Hls. by rewrite bool_decide_eq_false_2.
Qed.

End manager.

Section upload.
Context {World : Type}.
Context (config_groups : gmap string group_config).
Context (melul_portal_groups : list string).
Context (_upload_melul : list string → string → string → string → @action World unit).
Context (_upload_usa _upload_yrcw _upload_bfmr _upload_oaks _upload_emb
           : list string → @action World unit).
Context (_upload_gibstrat : string → list string → @action World unit).

Local Abbreviation upload_all :=
  (upload config_groups melul_portal_groups _upload_melul _upload_usa
     _upload_yrcw _upload_bfmr _upload_oaks _upload_emb _upload_gibstrat).
Local Abbreviation upload_items :=
  (upload_loop config_groups melul_portal_groups _upload_melul _upload_usa
     _upload_yrcw _upload_bfmr _upload_oaks _upload_emb _upload_gibstrat).

(** X19: [upload] touches no portal for groups that are configured
    without a user name or without a password: when that is so for the
    group of every tracking, it returns with the world as it was. *)
Theorem upload_without_credentials trackings w :
  (∀ t, t ∈ trackings →
     ∃ group_config, config_groups !! tracking.group t = Some group_config
       ∧ get_truthy (password group_config)
         && get_truthy (username group_config) = false) →
  upload_all trackings w = (Returns tt, w).
Proof.
  intros Hall. unfold upload.
  assert (∀ g l, (g, l) ∈ group_by tracking.group trackings →
            ∃ group_config, config_groups !! g = Some group_config
              ∧ get_truthy (password group_config)
                && get_truthy (username group_config) = false) as Hitems.
  { intros g l [-> Hne]%group_by_entry.
    destruct (filter (λ x, tracking.group x = g) trackings) as [|t l] eqn:E;
      [done|].
    assert (t ∈ filter (λ x, tracking.group x = g) trackings) as Ht
      by (rewrite E; left).
    apply list_elem_of_filter in Ht as [<- Ht]. by apply Hall. }
  clear Hall. induction (group_by tracking.group trackings) as [|[g l] items IH].
  - done.
  - cbn [upload_loop].
    destruct (Hitems g l) as (gc & -> & ->); [left|].
    apply IH. intros g' l' Hin. apply (Hitems g' l'). by right.
Qed.

End upload.

(** Two trackings of a group that is configured with a user name only. *)
Lemma upload_without_credentials_witness :
  upload {[ "g" := mkGroupConfig (Some "u") None None ]} [] (λ _ _ _ _, no_upload [])
    no_upload no_upload no_upload no_upload no_upload (λ _, no_upload)
    [tracking.mkTracking "T1" "g" ["A"] "" "" "";
     tracking.mkTracking "T2" "g" ["B"] "" "" ""] 0
  = (Returns tt, 0).
Proof.
  apply upload_without_credentials.
  intros t Ht. exists (mkGroupConfig (Some "u") None None).
  apply elem_of_cons in Ht as [->|Ht]; [done|].
  apply list_elem_of_singleton in Ht as ->. done.
Defined.

(** A folder that is empty at the first four looks and then holds two
    files; the world counts the looks. *)
Lemma wait_for_csv_polls_witness :
  _wait_for_csv "exports"
    (λ w, (Returns (if w <? 4 then [] else ["a.csv"; "b.csv"]), S w))
    (λ name w, (Returns [{[ "file" := name ]}], w))
    (λ w, (Returns tt, w)) 0
  = (Returns [{[ "file" := "exports/a.csv" ]}], 5).
Proof.
  destruct (wait_for_csv_polls "exports"
              (λ w, (Returns (if w <? 4 then [] else ["a.csv"; "b.csv"]), S w))
              (λ name w, (Returns [{[ "file" := name ]}], w))
              (λ w : nat, (Returns tt, w))) as [Hread _].
  apply (Hread 4 0 4 "a.csv" ["b.csv"] 5); [lia|reflexivity|reflexivity].
Defined.

(** A server with 250 items, the page at [start] being the one item
    [start]. *)
Lemma usa_entries_pages_witness :
  ∃ w', _get_usa_tracking_entries
          (λ start w, (Returns (250%Z, [start]), S w)) 3 0
        = (Returns (Some [0; 100; 200]), w').
Proof.
  destruct (usa_entries_pages (λ start w, (Returns (250%Z, [start]), S w))
              250%Z (λ start, [start])
              (λ start w, ex_intro _ (S w) eq_refl) 3 0) as [Hret _].
  apply Hret. vm_compute. lia.
Defined.

(** An archive that holds 3.0 for a tracking for which the portal reports
    5.0: the result has 3.0. *)
Lemma costs_archives_replace_witness :
  ∃ (fetched : ReconResult) contents,
    Forall2 (archive_read
               (λ _ (w : nat), (Returns (∅, {[ ["T1"] := ("g", NFloat 3, "") ]}), w)))
      ["old"] contents
    ∧ ({[ ["T1"] := ("g", NFloat 3, "") ]} : TrackingInfoDict)
      = foldl (λ d c, dict_update d c.2) fetched.1 contents.
Proof.
  destruct (costs_archives_replace
              {[ "g" := mkGroupConfig (Some "u") (Some "p") (Some ["old"]) ]}
              ["g"]
              (λ w : nat, (Returns ∅, w))
              (λ _ _ _ (w : nat),
                 (Returns ({[ ["T1"] := ("g", NFloat 5, "") ]}, ∅), w))
              (λ w : nat, (Returns (∅, ∅), w)) (λ w : nat, (Returns (∅, ∅), w))
              (λ w : nat, (Returns (∅, ∅), w)) (λ w : nat, (Returns (∅, ∅), w))
              (λ _ (w : nat), (Returns (∅, ∅), w))
              (λ _ (w : nat), (Returns true, w))
              (λ _ _ _ (w : nat), (Returns tt, w))
              (λ _ (w : nat), (Returns (∅, {[ ["T1"] := ("g", NFloat 3, "") ]}), w))
              (λ w : nat, (Returns false, w))
              (λ w : nat, (Returns [], w))
              (λ _ (w : nat), (Returns (∅, ∅), w))
              "g" (mkGroupConfig (Some "u") (Some "p") (Some ["old"]))
              "u" "p" ["old"] 0 {[ ["T1"] := ("g", NFloat 3, "") ]} ∅ 0)
    as (fetched & contents & _ & Hall & Hti & _).
  - done.
  - left.
  - reflexivity.
  - reflexivity.
  - reflexivity.
  - reflexivity.
  - vm_compute. reflexivity.
  - exists fetched, contents. split; [exact Hall|exact Hti].
Defined.

Lemma costs_unknown_group_witness :
  get_new_tracking_pos_costs_maps_with_retry
    (get_new_tracking_pos_costs_maps ∅ ["melul"]
       (λ w : nat, (Raises (Foreign "mail"), w))
       (λ _ _ _ (w : nat), (Raises (Foreign "portal"), w))
       (λ w : nat, (Raises (Foreign "usa"), w))
       (λ w : nat, (Raises (Foreign "yrcw"), w))
       (λ w : nat, (Raises (Foreign "oaks"), w))
       (λ w : nat, (Raises (Foreign "emb"), w))
       (λ _ (w : nat), (Raises (Foreign "gibstrat"), w))
       (λ _ (w : nat), (Returns true, w))
       (λ _ _ _ (w : nat), (Returns tt, w))
       (λ _ (w : nat), (Returns (∅, ∅), w))
       (λ w : nat, (Returns false, S w))
       (λ w : nat, (Returns [], w))
       (λ _ (w : nat), (Raises (Foreign "csv"), w)))
    "pointsmaker" 0
  = (Returns (∅, ∅), 1).
Proof.
  refine (proj1 (costs_unknown_group _ _ _ _ _ _ _ _ _ _ _ _ _ _ _
                   "pointsmaker" 0 _ _) 1 _).
  - rewrite not_elem_of_cons. split; [done|]. apply not_elem_of_nil.
  - rewrite !not_elem_of_cons. split_and!; try done. apply not_elem_of_nil.
  - reflexivity.
Defined.

End portals_spec.

(** ** Reading a mail: the buying group and the order ID *)

Module retriever_spec.
Import group_site_manager portals ledgers tracking_retriever.

Lemma append_assoc (a b c : string) : (a +:+ b) +:+ c = a +:+ (b +:+ c).
Proof.
  induction a as [|x a IH]; [done|].
  change ((String x a +:+ b) +:+ c) with (String x ((a +:+ b) +:+ c)).
  by rewrite IH.
Qed.

Lemma upper_app a b : upper (a +:+ b) = upper a +:+ upper b.
Proof.
  induction a as [|c a IH]; [done|].
  change (String c a +:+ b) with (String c (a +:+ b)). cbn [upper].
  by rewrite IH, append_assoc.
Qed.

Lemma upper_upper_char c : upper (upper_char c) = upper_char c.
Proof. destruct c as [[] [] [] [] [] [] [] []]; vm_compute; reflexivity. Qed.

Lemma upper_idempotent s : upper (upper s) = upper s.
Proof.
  induction s as [|c s IH]; [done|]. cbn [upper].
  by rewrite upper_app, upper_upper_char, IH.
Qed.

Lemma buying_group_loop_spec groups raw :
  match buying_group_loop groups raw with
  | inr g =>
      ∃ before keys after,
        groups = before ++ (g, Some keys) :: after
        ∧ (∃ key, key ∈ keys ∧ is_infix (upper key) raw = true)
        ∧ ∀ g' entry, (g', entry) ∈ before →
            ∃ keys', entry = Some keys'
              ∧ ∀ key, key ∈ keys' → is_infix (upper key) raw = false
  | inl e =>
      (e = OtherError "Unknown buying group"
       ∧ ∀ g' entry, (g', entry) ∈ groups →
           ∃ keys', entry = Some keys'
             ∧ ∀ key, key ∈ keys' → is_infix (upper key) raw = false)
      ∨ (e = KeyError ∧ ∃ g', (g', None) ∈ groups)
  end.
Proof.
  induction groups as [|[g [keys|]] rest IH]; cbn [buying_group_loop].
  - left. split; [done|]. by intros ? ? []%elem_of_nil.
  - destruct (existsb _ keys) eqn:Hex.
    + exists [], keys, rest. split_and!; [done| |by intros ? ? []%elem_of_nil].
      apply existsb_exists in Hex as (key & Hin & Hkey).
      exists key. split; [by apply list_elem_of_In|done].
    + assert (∀ key, key ∈ keys → is_infix (upper key) raw = false) as Hno.
      { intros key Hin. destruct (is_infix (upper key) raw) eqn:E; [|done].
        assert (existsb (λ k, is_infix (upper k) raw) keys = true) as Ht.
        { apply existsb_exists. exists key. split; [by apply list_elem_of_In|done]. }
        congruence. }
      destruct (buying_group_loop rest raw) as [e|g0].
      * destruct IH as [[-> Hall]|[-> (g' & Hin)]].
        -- left. split; [done|]. intros g' entry [[= -> ->]|Hin]%elem_of_cons.
           ++ by exists keys.
           ++ by apply (Hall g').
        -- right. split; [done|]. exists g'. by right.
      * destruct IH as (before & keys0 & after & -> & Hkey & Hbefore).
        exists ((g, Some keys) :: before), keys0, after.
        split_and!; [done|done|].
        intros g' entry [[= -> ->]|Hin]%elem_of_cons.
        -- by exists keys.
        -- by apply (Hbefore g').
  - right. split; [done|]. exists g. left.
Qed.

(** X20: [get_buying_group] does not tell capitals from small letters in
    the mail and in the keys.  When it returns a group, that is the first
    group of the configuration one of whose keys, in capitals, occurs in
    the mail in capitals, no key of an earlier group occurring there; it
    raises "Unknown buying group" when the keys of all groups were tried
    and none occurs. *)
Theorem get_buying_group_first groups raw_email :
  get_buying_group groups (upper raw_email) = get_buying_group groups raw_email
  ∧ match get_buying_group groups raw_email with
    | inr g =>
        ∃ before keys after,
          groups = before ++ (g, Some keys) :: after
          ∧ (∃ key, key ∈ keys ∧ is_infix (upper key) (upper raw_email) = true)
          ∧ ∀ g' entry, (g', entry) ∈ before →
              ∃ keys', entry = Some keys'
                ∧ ∀ key, key ∈ keys' →
                    is_infix (upper key) (upper raw_email) = false
    | inl e =>
        (e = OtherError "Unknown buying group"
         ∧ ∀ g' entry, (g', entry) ∈ groups →
             ∃ keys', entry = Some keys'
               ∧ ∀ key, key ∈ keys' →
                   is_infix (upper key) (upper raw_email) = false)
        ∨ (e = KeyError ∧ ∃ g', (g', None) ∈ groups)
    end.
Proof.
  unfold get_buying_group. split; [by rewrite upper_idempotent|].
  apply buying_group_loop_spec.
Qed.

Lemma prefix_app p r : String.prefix p (p +:+ r) = true.
Proof.
  induction p as [|c p IH]; [by destruct r|].
  change (String c p +:+ r) with (String c (p +:+ r)). cbn [String.prefix].
  by destruct (ascii_dec c c).
Qed.

Lemma is_infix_app pre p r : is_infix p (pre +:+ p +:+ r) = true.
Proof.
  induction pre as [|c pre IH].
  - change ("" +:+ p +:+ r) with (p +:+ r).
    destruct (p +:+ r) eqn:E; cbn [is_infix]; rewrite <- E, prefix_app; done.
  - change (String c pre +:+ p +:+ r) with (String c (pre +:+ p +:+ r)).
    cbn [is_infix]. rewrite IH. apply orb_true_r.
Qed.

Lemma strip_prefix_app p s : strip_prefix p (p +:+ s) = Some s.
Proof.
  induction p as [|c p IH]; [by destruct s|].
  change (String c p +:+ s) with (String c (p +:+ s)). cbn [strip_prefix].
  by rewrite Ascii.eqb_refl.
Qed.

Lemma strip_prefix_Some p : ∀ s r, strip_prefix p s = Some r → s = p +:+ r.
Proof.
  induction p as [|a p IH]; intros s r.
  - cbn [strip_prefix]. intros [= <-]. reflexivity.
  - destruct s as [|b s]; [done|]. cbn [strip_prefix].
    destruct (Ascii.eqb a b) eqn:E; [|done]. apply Ascii.eqb_eq in E as ->.
    intros ->%IH. reflexivity.
Qed.

Lemma take_chars_all p s : all_chars p (take_chars p s) = true.
Proof.
  induction s as [|c s IH]; [done|]. cbn [take_chars].
  destruct (p c) eqn:E; [|done]. cbn [all_chars]. by rewrite E.
Qed.

Lemma take_chars_rest p s : ∃ r, s = take_chars p s +:+ r.
Proof.
  induction s as [|c s [r IH]]; [by exists ""|]. cbn [take_chars].
  destruct (p c).
  - exists r. change (String c (take_chars p s) +:+ r)
      with (String c (take_chars p s +:+ r)). by rewrite <- IH.
  - by exists (String c s).
Qed.

Lemma take_chars_app p a b :
  all_chars p a = true →
  match b with
  | EmptyString => true
  | String c _ => negb (p c)
  end = true →
  take_chars p (a +:+ b) = a.
Proof.
  intros Ha Hb. induction a as [|c a IH].
  - change ("" +:+ b) with b. destruct b as [|c b]; [done|].
    cbn [take_chars]. by apply negb_true_iff in Hb as ->.
  - change (String c a +:+ b) with (String c (a +:+ b)). cbn [take_chars].
    cbn [all_chars] in Ha. apply andb_true_iff in Ha as [-> Ha].
    by rewrite IH.
Qed.

Lemma order_id_here_sound s order_id :
  order_id_here s = Some order_id →
  order_id ≠ "" ∧ all_chars id_char order_id = true
  ∧ ∃ r, s = "orderId%3D" +:+ order_id +:+ r.
Proof.
  unfold order_id_here.
  destruct (strip_prefix "orderId%3D" s) as [rest|] eqn:Hs; [|done].
  apply strip_prefix_Some in Hs as ->.
  pose proof (take_chars_all id_char rest) as Hall.
  destruct (take_chars_rest id_char rest) as [r Hr].
  destruct (take_chars id_char rest) as [|c t] eqn:E; [done|].
  intros [= <-]. split_and!; [done|done|]. exists r. by rewrite <- Hr.
Qed.

Lemma order_from_url_sound s : ∀ order_id,
  order_from_url s = Some order_id →
  order_id ≠ "" ∧ all_chars id_char order_id = true
  ∧ ∃ pre r, s = pre +:+ "orderId%3D" +:+ order_id +:+ r.
Proof.
  assert (∀ s order_id, order_id_here s = Some order_id →
            order_id ≠ "" ∧ all_chars id_char order_id = true
            ∧ ∃ pre r, s = pre +:+ "orderId%3D" +:+ order_id +:+ r) as Hhere.
  { intros s0 id (? & ? & r & ->)%order_id_here_sound.
    split_and!; [done..|]. by exists "", r. }
  induction s as [|c s IH]; intros order_id; cbn [order_from_url].
  - apply Hhere.
  - destruct (Ascii.eqb c newline); [apply Hhere|].
    destruct (order_from_url s) as [found|]; [|apply Hhere].
    intros [= <-]. destruct (IH found eq_refl) as (? & ? & pre & r & ->).
    split_and!; [done..|]. by exists (String c pre), r.
Qed.

Lemma order_from_url_skip pre : ∀ s order_id,
  one_line pre = true → order_from_url s = Some order_id →
  order_from_url (pre +:+ s) = Some order_id.
Proof.
  induction pre as [|c pre IH]; intros s order_id Hline Hs; [done|].
  change (String c pre +:+ s) with (String c (pre +:+ s)).
  unfold one_line in Hline. cbn [all_chars] in Hline.
  apply andb_true_iff in Hline as [Hc Hline]. apply negb_true_iff in Hc.
  cbn [order_from_url]. rewrite Hc. by rewrite (IH s order_id Hline Hs).
Qed.

Lemma order_from_url_none s :
  is_infix "orderId%3D" s = false → order_from_url s = None.
Proof.
  intros Hno. destruct (order_from_url s) as [order_id|] eqn:E; [|done].
  apply order_from_url_sound in E as (_ & _ & pre & r & ->).
  by rewrite (is_infix_app pre "orderId%3D" (order_id +:+ r)) in Hno.
Qed.

Lemma is_infix_literal_tail x :
  is_infix "orderId%3D" ("rderId%3D" +:+ x) = is_infix "orderId%3D" x.
Proof. reflexivity. Qed.

(** X21: [get_order_id_from_url] returns a non-empty run of digits and
    dashes that stands in the URL right after [orderId%3D]; it raises
    [AttributeError] for a URL without [orderId%3D]; and for a URL that
    has, on its first line, [orderId%3D] followed by such a run, that run
    ending at a character that is neither digit nor dash or at the end,
    with no further [orderId%3D] after it, it returns that run. *)
Theorem get_order_id_from_url_spec :
  (∀ url order_id,
     get_order_id_from_url url = inr order_id →
     order_id ≠ "" ∧ all_chars id_char order_id = true
     ∧ is_infix ("orderId%3D" +:+ order_id) url = true)
  ∧ (∀ url,
     is_infix "orderId%3D" url = false →
     get_order_id_from_url url = inl (OtherError "AttributeError"))
  ∧ (∀ pre order_id post,
     one_line pre = true → order_id ≠ "" →
     all_chars id_char order_id = true →
     match post with
     | EmptyString => true
     | String c _ => negb (id_char c)
     end = true →
     is_infix "orderId%3D" (order_id +:+ post) = false →
     get_order_id_from_url (pre +:+ "orderId%3D" +:+ order_id +:+ post)
     = inr order_id).
Proof.
  unfold get_order_id_from_url. split_and!.
  - intros url order_id.
    destruct (order_from_url url) as [found|] eqn:E; [|done]. intros [= <-].
    apply order_from_url_sound in E as (? & ? & pre & r & ->).
    split_and!; [done..|].
    rewrite <- (append_assoc "orderId%3D" found r). apply is_infix_app.
  - intros url Hno. by rewrite order_from_url_none.
  - intros pre order_id post Hline Hne Hall Hpost Hlater.
    rewrite (order_from_url_skip pre ("orderId%3D" +:+ order_id +:+ post) order_id);
      [done|done|].
    change ("orderId%3D" +:+ order_id +:+ post)
      with (String "o" ("rderId%3D" +:+ order_id +:+ post)).
    cbn [order_from_url]. change (Ascii.eqb "o" newline) with false. cbv iota.
    rewrite order_from_url_none by (by rewrite is_infix_literal_tail).
    unfold order_id_here.
    change (String "o" ("rderId%3D" +:+ order_id +:+ post))
      with ("orderId%3D" +:+ (order_id +:+ post)).
    rewrite strip_prefix_app, take_chars_app by done.
    by destruct order_id.
Qed.

(** The keys of two groups, the mail naming the second in small letters. *)
Lemma get_buying_group_first_witness :
  get_buying_group [("mysbuyinggroup", Some ["MYS"; "Mystic"]);
                    ("usa", Some ["usabuying"])]
    (upper "Ship to: UsaBuying Group, 1 Main St")
  = get_buying_group [("mysbuyinggroup", Some ["MYS"; "Mystic"]);
                      ("usa", Some ["usabuying"])]
      "Ship to: UsaBuying Group, 1 Main St"
  ∧ get_buying_group [("mysbuyinggroup", Some ["MYS"; "Mystic"]);
                      ("usa", Some ["usabuying"])]
      "Ship to: UsaBuying Group, 1 Main St" = inr "usa".
Proof.
  split; [|vm_compute; reflexivity].
  exact (proj1 (get_buying_group_first
                  [("mysbuyinggroup", Some ["MYS"; "Mystic"]);
                   ("usa", Some ["usabuying"])]
                  "Ship to: UsaBuying Group, 1 Main St")).
Defined.

Lemma get_order_id_from_url_spec_witness :
  get_order_id_from_url
    ("https://www.amazon.com/progress-tracker/package?_encoding=UTF8&"
     +:+ "orderId%3D" +:+ "112-1234567-7654321" +:+ "&packageIndex=0")
  = inr "112-1234567-7654321".
Proof.
  destruct get_order_id_from_url_spec as (_ & _ & Hreads).
  apply Hreads; [reflexivity|done|reflexivity|reflexivity|reflexivity].
Defined.

End retriever_spec.

(** ** [fill_expected_costs] *)

Module expected_costs_spec.
Import clusters store_facts group_site_manager portals tracking_retriever
  get_tracking_numbers examples.

Section fill_expected_costs.
Context `{SetOrder}.
Context {World : Type}.
Context (get_expected_cost : string → @action World number).
Context (price : string → number).

(** Every order ID has its expected cost. *)
Hypothesis priced :
  ∀ order_id w, ∃ w', get_expected_cost order_id w = (Returns (price order_id), w').

Lemma for_each_priced l : ∀ w,
  ∃ w', for_each get_expected_cost l w = (Returns (price <$> l), w').
Proof.
  induction l as [|o l IH]; intros w; [by exists w|].
  cbn [for_each]. unfold abind at 1. destruct (priced o w) as [w1 ->].
  unfold abind at 1. destruct (IH w1) as [w2 ->]. by exists w2.
Qed.

(** X22: [fill_expected_costs] gives every cluster of the list, as its
    expected cost, the sum of the expected costs of its order IDs (the int
    0 for a cluster without orders), whatever its expected cost was before;
    it changes no other attribute, no cluster outside the list, and no set
    or list. *)
Theorem fill_expected_costs_overwrites all_clusters : ∀ h w,
  ∃ h' w',
    fill_expected_costs get_expected_cost all_clusters (h, w)
    = (Returns tt, (h', w'))
    ∧ (∀ r, get_obj r h'
          = if decide (r ∈ all_clusters)
            then set_expected_cost
                   (py_sum (price <$> set_iter (get_set (orders (get_obj r h)) h)))
                   (get_obj r h)
            else get_obj r h)
    ∧ (∀ r, get_set r h' = get_set r h)
    ∧ (∀ r, get_list r h' = get_list r h).
Proof.
  unfold fill_expected_costs.
  induction all_clusters as [|c rest IH]; intros h w.
  - exists h, w. split_and!; done.
  - cbn [fill_loop]. unfold abind at 1. unfold on_store at 1.
    cbn [fst snd bind attr].
    unfold abind at 1. unfold beside at 1. cbn [fst snd].
    destruct (for_each_priced (set_iter (get_set (orders (get_obj c h)) h)) w)
      as [w1 ->].
    unfold abind at 1. unfold on_store at 1. cbn [fst snd modify].
    set (V := py_sum (price <$> set_iter (get_set (orders (get_obj c h)) h))).
    destruct (IH (put_obj c (set_expected_cost V (get_obj c h)) h) w1)
      as (h' & w' & -> & Hobj & Hset & Hlist).
    exists h', w'. split_and!; [done| |done|done].
    intros r. rewrite Hobj. rewrite !get_set_put_obj.
    destruct (decide (r = c)) as [->|Hne].
    + rewrite get_obj_put_obj_eq. rewrite (decide_True (P := c ∈ c :: rest))
        by left.
      destruct (decide (c ∈ rest)); done.
    + rewrite get_obj_put_obj_ne by done.
      destruct (decide (r ∈ rest)) as [Hin|Hnin].
      * rewrite decide_True by (by right). done.
      * rewrite decide_False; [done|].
        intros [?|?]%elem_of_cons; done.
Qed.

End fill_expected_costs.

(** Cluster 20 of [two_clusters], billed 10.0 so far, holds the one order
    O1, which costs 12.5. *)
Lemma fill_expected_costs_overwrites_witness :
  ∃ h' w',
    fill_expected_costs (λ _ (w : nat), (Returns (NFloat 12.5), S w)) [20]
      (two_clusters, 0) = (Returns tt, (h', w'))
    ∧ expected_cost (get_obj 20 h') = NFloat 12.5.
Proof.
  destruct (fill_expected_costs_overwrites
              (λ _ (w : nat), (Returns (NFloat 12.5), S w)) (λ _, NFloat 12.5)
              (λ o w, ex_intro _ (S w) eq_refl) [20] two_clusters 0)
    as (h' & w' & Hrun & Hobj & _).
  exists h', w'. split; [exact Hrun|].
  rewrite Hobj. rewrite decide_True by left.
  vm_compute. reflexivity.
Defined.

End expected_costs_spec.

(** ** The BFMR mails *)

Module bfmr_spec.
Import group_site_manager logic ledgers examples.

(** [d'] has an entry wherever [d] has one, and only entries of BFMR under
    single tracking numbers if [d] has only such. *)
Local Abbreviation bfmr_entries d :=
  (∀ k (info : TrackingInfo), d !! k = Some info →
     info.1.1 = "bfmr" ∧ ∃ t : string, k = [t]).
Local Abbreviation grows d d' :=
  ((∀ k : list string, is_Some ((d : TrackingInfoDict) !! k) →
      is_Some ((d' : TrackingInfoDict) !! k))
   ∧ (bfmr_entries d → bfmr_entries d')).

Lemma grows_refl d : grows d d.
Proof. done. Qed.

Lemma grows_trans d1 d2 d3 : grows d1 d2 → grows d2 d3 → grows d1 d3.
Proof. intros [H1 H2] [H3 H4]. split; auto. Qed.

Lemma bfmr_store_grows d tracking total date :
  grows d (bfmr_store d tracking total date).
Proof.
  unfold bfmr_store. split.
  - intros k Hk. destruct (decide (k = [tracking])) as [->|Hne].
    + by rewrite lookup_insert_eq.
    + by rewrite lookup_insert_ne.
  - intros Hd k info. destruct (decide (k = [tracking])) as [->|Hne].
    + rewrite lookup_insert_eq. intros [= <-]. split; [done|by exists tracking].
    + rewrite lookup_insert_ne by done. apply Hd.
Qed.

Section readers.
Context (fos : string → option float) (rfc : string → option string).

Lemma busted_cell_grows date cells d i d' :
  busted_cell fos date cells d i = inr d' → grows d d'.
Proof.
  unfold busted_cell, bindR.
  destruct (item cells (i * 5)) as [?|t]; [done|].
  destruct (item cells (i * 5 + 4)) as [?|total_text]; [done|].
  destruct (float_ fos _) as [?|total]; [done|].
  intros [= <-]. apply bfmr_store_grows.
Qed.

Lemma standard_row_grows date d row d' :
  standard_row fos date d row = inr d' → grows d d'.
Proof.
  unfold standard_row, bindR.
  destruct (negb _); [by intros [= <-]|].
  destruct (item (tds row) 0) as [?|t]; [done|].
  destruct (item (tds row) 4) as [?|total_text]; [done|].
  destruct (float_ fos _) as [?|total]; [done|].
  intros [= <-]. apply bfmr_store_grows.
Qed.

Lemma add_bfmr_cost_if_nonempty_grows d tracking cost date :
  grows d (add_bfmr_cost_if_nonempty d tracking cost date).
Proof.
  unfold add_bfmr_cost_if_nonempty. destruct (num_truthy cost); [|done].
  apply bfmr_store_grows.
Qed.

Lemma for_keep_grows {R} (body : TrackingInfoDict → R → pyerror + TrackingInfoDict)
    rows :
  (∀ d r d', body d r = inr d' → grows d d') →
  ∀ d, grows d (for_keep body d rows).2.
Proof.
  intros Hbody. induction rows as [|r rows IH]; intros d; cbn [for_keep].
  - done.
  - destruct (body d r) as [e|d1] eqn:E; [done|].
    apply (grows_trans d d1); [by eapply Hbody|apply IH].
Qed.

Lemma loop_2020_grows date rows : ∀ tracking cost d,
  grows d (loop_2020 fos date rows tracking cost d).2.2.
Proof.
  induction rows as [|row rows IH]; intros tracking cost d; cbn [loop_2020].
  - done.
  - destruct (has_char dollar (text row)).
    + destruct (search_amount (text row)) as [amount|]; [|done].
      destruct (float_ fos amount) as [?|f]; [done|]. apply IH.
    + eapply grows_trans; [|apply IH].
      apply add_bfmr_cost_if_nonempty_grows.
Qed.

Lemma fill_2020_grows d table date :
  grows d (fill_2020_12_22_bfmr_costs fos d table date).2.
Proof.
  unfold fill_2020_12_22_bfmr_costs.
  destruct (drop 1 table) as [|first rest]; [done|].
  destruct (has_char dollar _); [done|].
  match goal with
  | |- context [loop_2020 fos date ?rows ?t ?c d] =>
      pose proof (loop_2020_grows date rows t c d) as Hloop;
      destruct (loop_2020 fos date rows t c d) as [[e|] [[t' c'] d']]
  end; cbn [fst snd] in *; [done|].
  eapply grows_trans; [exact Hloop|]. apply add_bfmr_cost_if_nonempty_grows.
Qed.

Lemma bfmr_readers_grows d table date :
  grows d (bfmr_readers fos d table date).
Proof.
  unfold bfmr_readers.
  assert (grows d (fill_busted_bfmr_costs fos d table date).2) as H1.
  { unfold fill_busted_bfmr_costs. destruct (table !! 1) as [row|]; [|done].
    apply for_keep_grows. intros ? ? ?. apply busted_cell_grows. }
  destruct (fill_busted_bfmr_costs fos d table date) as [[e|] r1];
    cbn [snd] in H1; [done|].
  assert (grows r1 (fill_standard_bfmr_costs fos r1 table date).2) as H2.
  { unfold fill_standard_bfmr_costs. apply for_keep_grows.
    intros ? ? ?. apply standard_row_grows. }
  destruct (fill_standard_bfmr_costs fos r1 table date) as [[e|] r2];
    cbn [snd] in H2; [by eapply grows_trans|].
  eapply grows_trans; [exact H1|]. eapply grows_trans; [exact H2|].
  apply fill_2020_grows.
Qed.

Lemma bfmr_try_grows d content date : grows d (bfmr_try fos d content date).
Proof.
  unfold bfmr_try. destruct content as [e|[tables|]]; [done| |done].
  destruct (negb _ || _); [done|].
  destruct (tables !! 1) as [table|]; [|done]. apply bfmr_readers_grows.
Qed.

Lemma for_rows_app {S R} (body : S → R → pyerror + S) l1 l2 : ∀ st,
  for_rows body st (l1 ++ l2)
  = get* st' := for_rows body st l1 in for_rows body st' l2.
Proof.
  induction l1 as [|r l1 IH]; intros st; cbn [for_rows app bindR]; [done|].
  destruct (body st r) as [e|st1]; cbn [bindR]; [done|apply IH].
Qed.

Lemma mail_date_returns header :
  header = None ∨ header = Some ""
  ∨ (∃ s day, header = Some s ∧ rfc s = Some day) →
  ∃ date, mail_date rfc header = inr date.
Proof.
  unfold mail_date. intros [->|[->|(s & day & -> & Hday)]]; [by eexists..|].
  rewrite Hday. destruct (str_truthy s); by eexists.
Qed.

Lemma bfmr_loop_entries mails : ∀ d d',
  bfmr_entries d → for_rows (bfmr_mail fos rfc) d mails = inr d' →
  bfmr_entries d'.
Proof.
  induction mails as [|m ms IH]; intros d d' Hd; cbn [for_rows].
  - by intros [= <-].
  - unfold bfmr_mail at 1. destruct m as [e|msg]; cbn [bindR]; [done|].
    destruct (mail_date rfc (date_header msg)) as [e|date]; cbn [bindR];
      [done|].
    apply IH. by apply bfmr_try_grows.
Qed.

(** X23: [_get_bfmr_costs] reads the [Date] header of a mail before its
    [try] block: a mail with a non-empty [Date] header that does not parse
    makes the whole function raise [ValueError], and a mail that cannot be
    fetched makes it raise too, whatever ledger the mails before it gave.
    A mail without a [Date] header, with an empty one or with one that
    parses never makes the function raise and never takes an entry from the
    ledger, whether its content parses or not and whether the readers raise
    on it or not: every tracking number that has a cost after the mails
    before it still has one.  All entries of a ledger that the function
    returns have the source [bfmr] and a single tracking number as key. *)
Theorem bfmr_ledger_grows mails :
  (∀ d msg s rest,
     _get_bfmr_costs fos rfc mails = inr d →
     date_header msg = Some s → s ≠ "" → rfc s = None →
     _get_bfmr_costs fos rfc (mails ++ inr msg :: rest) = inl ValueError)
  ∧ (∀ d e rest,
       _get_bfmr_costs fos rfc mails = inr d →
       _get_bfmr_costs fos rfc (mails ++ inl e :: rest) = inl e)
  ∧ (∀ d msg,
       _get_bfmr_costs fos rfc mails = inr d →
       date_header msg = None ∨ date_header msg = Some ""
       ∨ (∃ s day, date_header msg = Some s ∧ rfc s = Some day) →
       ∃ d', _get_bfmr_costs fos rfc (mails ++ [inr msg]) = inr d'
             ∧ ∀ k, is_Some (d !! k) → is_Some (d' !! k))
  ∧ ∀ d k info,
      _get_bfmr_costs fos rfc mails = inr d → d !! k = Some info →
      info.1.1 = "bfmr" ∧ ∃ t, k = [t].
Proof.
  unfold _get_bfmr_costs. split_and!.
  - intros d msg s rest Hd Hs Hne Hrfc. rewrite for_rows_app, Hd.
    cbn [bindR for_rows]. unfold bfmr_mail, mail_date. cbn [bindR].
    rewrite Hs, Hrfc. by destruct s.
  - intros d e rest Hd. by rewrite for_rows_app, Hd.
  - intros d msg Hd Hheader. rewrite for_rows_app, Hd.
    cbn [bindR for_rows]. unfold bfmr_mail. cbn [bindR].
    destruct (mail_date_returns _ Hheader) as (date & ->). cbn [bindR].
    eexists. split; [reflexivity|]. apply bfmr_try_grows.
  - intros d k info Hd. apply (bfmr_loop_entries mails ∅ d); [|done].
    intros k' info' Hk. by rewrite lookup_empty in Hk.
Qed.

End readers.

(** One payment mail, then a mail whose content could not be parsed: the
    ledger keeps its entry; then a mail with a [Date] header in another
    format: the function raises. *)
Lemma bfmr_ledger_grows_witness :
  (∃ d', _get_bfmr_costs read_float read_date
           [inr payment_mail; inr broken_mail] = inr d'
         ∧ is_Some (d' !! ["1Z999"]))
  ∧ _get_bfmr_costs read_float read_date
      [inr payment_mail; inr misdated_mail; inr payment_mail]
    = inl ValueError.
Proof.
  destruct (bfmr_ledger_grows read_float read_date [inr payment_mail])
    as (Hraise & _ & Hgrow & _).
  assert (∃ d, _get_bfmr_costs read_float read_date [inr payment_mail] = inr d
               ∧ is_Some (d !! ["1Z999"])) as (d & Hd & Hk).
  { eexists. split; [vm_compute; reflexivity|]. vm_compute. eauto. }
  split.
  - destruct (Hgrow d broken_mail Hd) as (d' & Hd' & Hkeys).
    { right. right. eexists _, _. split; [reflexivity|].
      vm_compute. reflexivity. }
    exists d'. split; [exact Hd'|]. by apply Hkeys.
  - apply (Hraise d misdated_mail "4 May 2020" [inr payment_mail] Hd);
      [reflexivity|done|vm_compute; reflexivity].
Defined.

End bfmr_spec.

(** ** Amounts with a minus sign *)

Module reports_spec.
Import group_site_manager reports examples.

Lemma filter_chars_comm p q s :
  filter_chars p (filter_chars q s) = filter_chars q (filter_chars p s).
Proof.
  induction s as [|c s IH]; [done|]. cbn [filter_chars].
  destruct (q c) eqn:Hq, (p c) eqn:Hp; cbn [filter_chars];
    rewrite ?Hq, ?Hp, IH; done.
Qed.

Lemma filter_chars_twice p s :
  filter_chars p (filter_chars p s) = filter_chars p s.
Proof.
  induction s as [|c s IH]; [done|]. cbn [filter_chars].
  destruct (p c) eqn:Hp; cbn [filter_chars]; rewrite ?Hp, IH; done.
Qed.

Lemma unsigned_amount s :
  remove_char dash (remove_char comma (remove_char dollar (remove_char dash s)))
  = remove_char dash (remove_char comma (remove_char dollar s)).
Proof.
  unfold remove_char.
  set (no_dash := λ x, negb (Ascii.eqb x dash)).
  set (no_comma := λ x, negb (Ascii.eqb x comma)).
  set (no_dollar := λ x, negb (Ascii.eqb x dollar)).
  rewrite (filter_chars_comm no_dollar no_dash s).
  rewrite (filter_chars_comm no_comma no_dash (filter_chars no_dollar s)).
  apply filter_chars_twice.
Qed.

Section reports.
Context (fos : string → option float).

Lemma recon_row_unsigned group d row :
  recon_row fos group d (unsigned row) = recon_row fos group d row.
Proof.
  unfold unsigned, recon_row, field.
  destruct (row !! "Total") as [total|] eqn:Htotal.
  2:{ by rewrite Htotal. }
  rewrite lookup_insert_ne by done. rewrite lookup_insert_eq.
  destruct (row !! "Tracking Number") as [number|]; [|done].
  unfold bindR. by rewrite unsigned_amount.
Qed.

(** X24: the reports of the folder are read without their signs: taking
    the minus signs out of the Total of every row changes nothing in what
    [_recon_via_csvs] returns or raises, so that a negative Total adds to
    the cost of its tracking as the same amount without the sign. *)
Theorem recon_ignores_signs group rows :
  _recon_via_csvs fos group (unsigned <$> rows) = _recon_via_csvs fos group rows.
Proof.
  unfold _recon_via_csvs. f_equal.
  generalize (∅ : TrackingInfoDict).
  induction rows as [|row rows IH]; intros d; [done|].
  cbn [fmap list_fmap for_rows]. rewrite recon_row_unsigned.
  unfold bindR. destruct (recon_row fos group d row); [done|]. apply IH.
Qed.

End reports.

(** A refund of 10.0 after a payment of 15.0 for the same tracking. *)
Example refund_is_added :
  cost_1Z999 (_recon_via_csvs read_float "g" [recon_csv "$15.0"; recon_csv "-$10.0"])
  = Some (NFloat 25).
Proof. vm_compute. reflexivity. Qed.

End reports_spec.
